(** * Ophelia: archive housekeeping utilities of [Recipe/workflow/auxiliary.py]

    A shallow embedding of the archive utilities (the Patcher
    [update_gc_zip_annotation], the Analyzer [analyze_annotations], the
    Packager [zip_folder] and the Normalizer [unzip_and_organize]) over an
    explicit model of the file system, of ZIP archives and of parsed JSON
    documents, followed by the properties of these operations. *)

From Stdlib Require Import List String Ascii ZArith Bool Arith Lia Permutation.
Import ListNotations.
Local Open Scope string_scope.
Local Open Scope list_scope.

Set Implicit Arguments.
Set Warnings "-register-all".

(* ================================================================== *)
(** ** JSON values, as [json.load] returns them *)

(** A Python float, as a JSON number with a fraction or an exponent
    reads: a finite one is [m * 2 ^ e]; a literal too large for a double
    reads as an infinity.  (The literal [NaN], which is not JSON but
    which [json.load] accepts, is left out.) *)
Inductive pyfloat : Type :=
| Finite (m e : Z)
| Infinite (negative : bool).

(** A parsed JSON document.  Objects are Python dicts: insertion-ordered
    association lists, read by first match.  A number is a Python int
    ([JNum]) or float ([JFloat]). *)
Inductive json : Type :=
| JNull
| JBool (b : bool)
| JNum (n : Z)
| JFloat (f : pyfloat)
| JStr (s : string)
| JArr (items : list json)
| JObj (fields : list (string * json)).

(** [key in d] and [d[key]] / [d.get(key)] on a dict. *)
Fixpoint dict_get (k : string) (d : list (string * json)) : option json :=
  match d with
  | [] => None
  | (k', v) :: d' => if String.eqb k k' then Some v else dict_get k d'
  end.

Definition dict_mem (k : string) (d : list (string * json)) : bool :=
  match dict_get k d with Some _ => true | None => false end.

(** [d[key] = v]: an existing key keeps its position, a new key is
    appended. *)
Fixpoint dict_set (k : string) (v : json) (d : list (string * json))
  : list (string * json) :=
  match d with
  | [] => [(k, v)]
  | (k', v') :: d' =>
      if String.eqb k k' then (k', v) :: d' else (k', v') :: dict_set k v d'
  end.

(** [value in some_list] for a string [value]: Python compares with [==],
    and only a string equals a string. *)
Definition list_mem_str (k : string) (items : list json) : bool :=
  existsb (fun x => match x with JStr s => String.eqb k s | _ => false end)
          items.

(** The value of a number as a dict key: Python compares ints, bools
    and floats by their exact value, so the key is the value in lowest
    terms, [m * 2 ^ e] with [m] odd (or [0]), or an infinity. *)
Inductive number : Type :=
| Dyadic (m e : Z)
| Inf (negative : bool).

Fixpoint strip (p : positive) (e : Z) : positive * Z :=
  match p with
  | xO p' => strip p' (e + 1)
  | _ => (p, e)
  end.

Definition dyadic (m e : Z) : number :=
  match m with
  | Z0 => Dyadic 0 0
  | Zpos p => let (p', e') := strip p e in Dyadic (Zpos p') e'
  | Zneg p => let (p', e') := strip p e in Dyadic (Zneg p') e'
  end.

Definition number_eqb (a b : number) : bool :=
  match a, b with
  | Dyadic m e, Dyadic m' e' => Z.eqb m m' && Z.eqb e e'
  | Inf s, Inf t => Bool.eqb s t
  | _, _ => false
  end.

(** Equality of dict keys ([Counter] is a dict): [True == 1 == 1.0] and
    [False == 0 == 0.0] hash and compare alike. *)
Definition key_num (x : json) : option number :=
  match x with
  | JBool true => Some (dyadic 1 0)
  | JBool false => Some (dyadic 0 0)
  | JNum n => Some (dyadic n 0)
  | JFloat (Finite m e) => Some (dyadic m e)
  | JFloat (Infinite s) => Some (Inf s)
  | _ => None
  end.

Definition key_eqb (a b : json) : bool :=
  match a, b with
  | JNull, JNull => true
  | JStr s, JStr t => String.eqb s t
  | _, _ =>
      match key_num a, key_num b with
      | Some x, Some y => number_eqb x y
      | _, _ => false
      end
  end.

(** [int] refuses a literal of more than 4300 digits
    ([sys.int_max_str_digits]), and [json.load] raises [ValueError] on a
    document that holds one. *)
Definition int_max_str_digits : nat := 4300.

Definition long_int (n : Z) : bool :=
  match n with
  | Z0 => false
  | Zpos p | Zneg p =>
      Nat.ltb int_max_str_digits (Decimal.nb_digits (Pos.to_uint p))
  end.

Fixpoint has_long_int (x : json) : bool :=
  match x with
  | JNum n => long_int n
  | JArr items => existsb has_long_int items
  | JObj fields =>
      existsb (fun kv => match kv with (_, v) => has_long_int v end) fields
  | _ => false
  end.

(** Lists and dicts are unhashable and cannot be dict keys. *)
Definition hashable (x : json) : bool :=
  match x with
  | JArr _ | JObj _ => false
  | _ => true
  end.

(** [str.endswith]. *)
Definition endswith (s suffix : string) : bool :=
  let n := String.length s in
  let m := String.length suffix in
  if Nat.leb m n then String.eqb (substring (n - m) m s) suffix else false.

(** Substring test, [needle in haystack] on two strings. *)
Fixpoint str_contains (needle hay : string) : bool :=
  if String.prefix needle hay then true
  else match hay with
       | EmptyString => false
       | String _ hay' => str_contains needle hay'
       end.

(* ================================================================== *)
(** ** Exceptions and results *)

Inductive exn : Type :=
| NameError (name : string)
| TypeError
| JSONDecodeError
| UnicodeDecodeError
| ValueError
| BadZipFile
| FileNotFoundError
| FileExistsError
| NotADirectoryError
| IsADirectoryError
| KeyError (key : string)
| ShutilError.

Inductive result (A : Type) : Type :=
| Ok (a : A)
| Raise (e : exn).
Arguments Ok {A} a.
Arguments Raise {A} e.

Definition rbind {A B} (r : result A) (f : A -> result B) : result B :=
  match r with
  | Ok a => f a
  | Raise e => Raise e
  end.

(* ================================================================== *)
(** ** Paths, file contents, archives and the directory tree *)

(** A path is its list of components; an archive entry name is a path
    relative to the archive root. *)
Definition path := list string.

Definition path_eqb (p q : path) : bool :=
  if list_eq_dec string_dec p q then true else false.

(** [name.endswith(suffix)] on a path: the suffixes the program tests
    contain no separator, so the test looks at the last component only. *)
Definition path_endswith (p : path) (suffix : string) : bool :=
  match rev p with
  | [] => false
  | x :: _ => endswith x suffix
  end.

(** How a JSON text is written: its white space, the spelling of its
    numbers, the escapes in its strings.  [Indent4] is the text that
    [json.dump(..., indent=4)] writes for a value; [OtherLayout n] is
    any other text of the same value. *)
Inductive layout : Type :=
| Indent4
| OtherLayout (n : nat).

(** What a file holds, seen through the two readers the program uses:
    [json.load] on a file opened as UTF-8 text (line 115) and [json.load]
    on the bytes of an archive member (line 185), which detects the
    encoding.
    - [JsonText l j]: UTF-8 text without byte-order mark that is the
      JSON document [j], laid out as [l];
    - [JsonEncoded as_text l j]: the JSON document [j] in an encoding
      that the byte reader detects but that is not plain UTF-8 (UTF-8
      with a byte-order mark, UTF-16, UTF-32); the text reader raises
      [as_text] on it ([JSONDecodeError] on a byte-order mark,
      [UnicodeDecodeError] on bytes that are not UTF-8);
    - [Malformed text]: UTF-8 text that is not JSON, for either reader;
    - [Undecodable bytes]: bytes on which both readers raise
      [UnicodeDecodeError];
    - [Garbled bytes as_text as_bytes]: any other file that is no JSON
      document: the text reader raises [as_text] on it, the byte reader
      [as_bytes];
    - [ZipData entries]: a ZIP archive with its ordered entries. *)
Inductive content : Type :=
| JsonText (l : layout) (j : json)
| JsonEncoded (as_text : exn) (l : layout) (j : json)
| Malformed (text : string)
| Undecodable (bytes : string)
| Garbled (bytes : string) (as_text as_bytes : exn)
| ZipData (entries : list (path * content)).

(** An archive is the list of its file members, in the order of the
    archive, each with its name and its content; two members may bear
    the same name.  Directory members (names ending in [/]) are not
    represented. *)
Definition archive := list (path * content).

(** A file-system node: a regular file or a directory; a directory
    lists its children in the order the operating system enumerates
    them.  Symbolic links, access rights and open-file locks are not
    represented: every file can be read and written, every directory
    listed and removed. *)
Inductive node : Type :=
| File (c : content)
| Dir (kids : list (string * node)).

Fixpoint assoc (x : string) (kids : list (string * node)) : option node :=
  match kids with
  | [] => None
  | (y, n) :: kids' => if String.eqb x y then Some n else assoc x kids'
  end.

Fixpoint lookup (n : node) (p : path) : option node :=
  match p with
  | [] => Some n
  | x :: p' =>
      match n with
      | File _ => None
      | Dir kids =>
          match assoc x kids with
          | Some c => lookup c p'
          | None => None
          end
      end
  end.

(** Replace the first child named [x], or append it. *)
Fixpoint set_kid (x : string) (n : node) (kids : list (string * node))
  : list (string * node) :=
  match kids with
  | [] => [(x, n)]
  | (y, m) :: kids' =>
      if String.eqb x y then (y, n) :: kids' else (y, m) :: set_kid x n kids'
  end.

Definition del_kid (x : string) (kids : list (string * node))
  : list (string * node) :=
  filter (fun yn => negb (String.eqb x (fst yn))) kids.

(* ================================================================== *)
(** ** File-system primitives on the tree *)

Definition os_path_exists (fs : node) (p : path) : bool :=
  match lookup fs p with Some _ => true | None => false end.

Definition is_dir (fs : node) (p : path) : bool :=
  match lookup fs p with Some (Dir _) => true | _ => false end.

Definition is_file (fs : node) (p : path) : bool :=
  match lookup fs p with Some (File _) => true | _ => false end.

(** [open(p, 'r').read()]. *)
Definition read_file (fs : node) (p : path) : result content :=
  match lookup fs p with
  | Some (File c) => Ok c
  | Some (Dir _) => Raise IsADirectoryError
  | None => Raise FileNotFoundError
  end.

(** [open(p, 'w')] followed by writing [c]: the parent directory must
    exist, the target must not be a directory. *)
Fixpoint write_file (p : path) (c : content) (n : node) : result node :=
  match n with
  | File _ => match p with [] => Ok (File c) | _ => Raise NotADirectoryError end
  | Dir kids =>
      match p with
      | [] => Raise IsADirectoryError
      | x :: p' =>
          match assoc x kids with
          | Some child =>
              rbind (write_file p' c child)
                    (fun child' => Ok (Dir (set_kid x child' kids)))
          | None =>
              match p' with
              | [] => Ok (Dir (set_kid x (File c) kids))
              | _ => Raise FileNotFoundError
              end
          end
      end
  end.

(** The chain of empty directories [os.makedirs] creates for the missing
    tail of a path. *)
Fixpoint mkchain (p : path) : node :=
  match p with
  | [] => Dir []
  | x :: p' => Dir [(x, mkchain p')]
  end.

(** [os.makedirs(p, exist_ok=...)]. *)
Fixpoint os_makedirs (p : path) (exist_ok : bool) (n : node) : result node :=
  match n with
  | File _ => match p with [] => Raise FileExistsError
                      | _ => Raise NotADirectoryError end
  | Dir kids =>
      match p with
      | [] => if exist_ok then Ok n else Raise FileExistsError
      | x :: p' =>
          match assoc x kids with
          | Some child =>
              rbind (os_makedirs p' exist_ok child)
                    (fun child' => Ok (Dir (set_kid x child' kids)))
          | None => Ok (Dir (set_kid x (mkchain p') kids))
          end
      end
  end.

(** [shutil.rmtree(p)]: [p] must be an existing directory. *)
Fixpoint shutil_rmtree (p : path) (n : node) : result node :=
  match n with
  | File _ => Raise NotADirectoryError
  | Dir kids =>
      match p with
      | [] => Raise NotADirectoryError
      | x :: p' =>
          match assoc x kids with
          | None => Raise FileNotFoundError
          | Some child =>
              match p' with
              | [] =>
                  match child with
                  | Dir _ => Ok (Dir (del_kid x kids))
                  | File _ => Raise NotADirectoryError
                  end
              | _ =>
                  rbind (shutil_rmtree p' child)
                        (fun child' => Ok (Dir (set_kid x child' kids)))
              end
          end
      end
  end.

(** One member of [ZipFile.extractall]: the missing parent directories are
    created, then the member is written over whatever file is there. *)
Fixpoint extract_member (p : path) (c : content) (n : node) : result node :=
  match n with
  | File _ => match p with [] => Ok (File c) | _ => Raise NotADirectoryError end
  | Dir kids =>
      match p with
      | [] => Raise IsADirectoryError
      | x :: p' =>
          match assoc x kids with
          | Some child =>
              rbind (extract_member p' c child)
                    (fun child' => Ok (Dir (set_kid x child' kids)))
          | None =>
              rbind (extract_member p' c (match p' with
                                          | [] => File c
                                          | _ => Dir []
                                          end))
                    (fun child' => Ok (Dir (set_kid x child' kids)))
          end
      end
  end.

Definition dirnames (kids : list (string * node)) : list string :=
  map fst (filter (fun xn => match snd xn with Dir _ => true | File _ => false end) kids).

Definition filenames (kids : list (string * node)) : list string :=
  map fst (filter (fun xn => match snd xn with File _ => true | Dir _ => false end) kids).

(** [os.walk(top)], top-down: one [(root, dirs, files)] triple per
    directory, a directory before its sub-directories. *)
Fixpoint walk_node (n : node) (root : path)
  : list (path * list string * list string) :=
  match n with
  | File _ => []
  | Dir kids =>
      (root, dirnames kids, filenames kids) ::
      (fix sub (ks : list (string * node)) :=
         match ks with
         | [] => []
         | (x, c) :: ks' => walk_node c (root ++ [x]) ++ sub ks'
         end) kids
  end.

Definition os_walk (fs : node) (top : path)
  : list (path * list string * list string) :=
  match lookup fs top with
  | Some n => walk_node n top
  | None => []
  end.

(* ================================================================== *)
(** ** The program monad: file system and console, with exceptions *)

(** One constructor per [print] call of the module. *)
Inductive msg : Type :=
| MsgNoZip                                (* "No zip file ending with '-GC.zip' found ..." *)
| MsgLocated (zip : path)                 (* "Located zip file: ..." *)
| MsgUpdated (zip : path)                 (* "Updated zip file saved at: ..." *)
| MsgError (e : exn)                      (* "An error occurred: ..." *)
| MsgCleaned                              (* "Temporary files cleaned up." *)
| MsgInvalidJson (entry : path)           (* "File ... is not a valid JSON format." *)
| MsgNameHeader                           (* "Occurrences of annotations:name:" *)
| MsgName (value : json) (count : nat)    (* "  Name: ... : Occurrence: ..." *)
| MsgLocationHeader                       (* "Occurrences of sequence:location:" *)
| MsgLocation (value : json) (count : nat)(* "  Location: ... : Occurrence: ..." *)
| MsgZipComplete (zip : path)             (* "Zipping complete. Archive saved as ..." *)
| MsgUnzipping (zip : path)               (* "Unzipping ... into temporary directory..." *)
| MsgExtracted (zip dest : path).         (* "Successfully extracted ... into ..." *)

Record state : Type := mkState { fs : node; out : list msg }.

(** A computation runs on a state and ends with a value or a raised
    exception; the effects done before a raise stay done. *)
Definition M (A : Type) : Type := state -> result A * state.

Definition ret {A} (a : A) : M A := fun s => (Ok a, s).

Definition bind {A B} (m : M A) (k : A -> M B) : M B :=
  fun s => match m s with
           | (Ok a, s') => k a s'
           | (Raise e, s') => (Raise e, s')
           end.

Notation "x <- m ;; k" := (bind m (fun x => k))
  (at level 61, m at next level, right associativity).
Notation "m ;;; k" := (bind m (fun _ => k))
  (at level 61, right associativity).

Definition raise {A} (e : exn) : M A := fun s => (Raise e, s).

(** [print]: the line is appended to the console.  (A line that the
    console cannot encode is not represented: printing succeeds.) *)
Definition print (m : msg) : M unit :=
  fun s => (Ok tt, mkState (fs s) (out s ++ [m])).

(** A query of the file system. *)
Definition ask {A} (q : node -> A) : M A := fun s => (Ok (q (fs s)), s).

(** A query that may raise. *)
Definition try_ask {A} (q : node -> result A) : M A :=
  fun s => (q (fs s), s).

(** An update of the file system; a failing update changes nothing. *)
Definition modify (u : node -> result node) : M unit :=
  fun s => match u (fs s) with
           | Ok fs' => (Ok tt, mkState fs' (out s))
           | Raise e => (Raise e, s)
           end.

(** [try: body  except Exception as e: handler(e)]. *)
Definition try_except {A} (body : M A) (handler : exn -> M A) : M A :=
  fun s => match body s with
           | (Ok a, s') => (Ok a, s')
           | (Raise e, s') => handler e s'
           end.

(** [try: body  finally: final]: [final] always runs; an exception of
    [final] replaces the outcome of [body]. *)
Definition try_finally {A} (body : M A) (final : M unit) : M A :=
  fun s => match body s with
           | (r, s') =>
               match final s' with
               | (Ok _, s'') => (r, s'')
               | (Raise e, s'') => (Raise e, s'')
               end
           end.

(** [for x in xs: body(x)]. *)
Fixpoint for_each {A} (xs : list A) (body : A -> M unit) : M unit :=
  match xs with
  | [] => ret tt
  | x :: xs' => body x ;;; for_each xs' body
  end.

(** [if cond: body]. *)
Definition when (cond : bool) (body : M unit) : M unit :=
  if cond then body else ret tt.

(* ================================================================== *)
(** ** Library calls used by the module *)

(** The parser proper, on a text that is a JSON document.  (A document
    nested too deep for the parser, on which it raises
    [RecursionError], is not represented.) *)
Definition json_loads (j : json) : result json :=
  if has_long_int j then Raise ValueError else Ok j.

(** A ZIP archive read as a JSON document is never one.  The empty
    archive is [PK] and twenty ASCII control characters, which decode;
    the header of a member holds a checksum and a time stamp, taken here
    to be bytes that are not UTF-8. *)
Definition zip_as_json (es : list (path * content)) : exn :=
  match es with
  | [] => JSONDecodeError
  | _ :: _ => UnicodeDecodeError
  end.

(** [json.load(f)] on a file opened with [open(path, 'r',
    encoding='utf-8')] (line 115): the bytes are decoded as UTF-8, and a
    byte-order mark is no JSON. *)
Definition json_load_text (c : content) : result json :=
  match c with
  | JsonText _ j => json_loads j
  | JsonEncoded as_text _ _ => Raise as_text
  | Malformed _ => Raise JSONDecodeError
  | Undecodable _ => Raise UnicodeDecodeError
  | Garbled _ as_text _ => Raise as_text
  | ZipData es => Raise (zip_as_json es)
  end.

(** [json.load(file)] on the binary stream of an archive member (line
    185): [json.loads] detects UTF-8, with or without byte-order mark,
    UTF-16 and UTF-32. *)
Definition json_load_bytes (c : content) : result json :=
  match c with
  | JsonText _ j => json_loads j
  | JsonEncoded _ _ j => json_loads j
  | Malformed _ => Raise JSONDecodeError
  | Undecodable _ => Raise UnicodeDecodeError
  | Garbled _ _ as_bytes => Raise as_bytes
  | ZipData es => Raise (zip_as_json es)
  end.

(** [json.dump(data, f, indent=4)]: the value is written anew, whatever
    text it was read from.  What is written reads back as the same
    value: an int in full, a float with the shortest digits that read
    back as it. *)
Definition json_dump (data : json) : content := JsonText Indent4 data.

(** [key in data] on a parsed value: dict membership, list membership,
    substring of a string; the other values are not iterable. *)
Definition py_contains (key : string) (data : json) : result bool :=
  match data with
  | JObj d => Ok (dict_mem key d)
  | JArr items => Ok (list_mem_str key items)
  | JStr s => Ok (str_contains key s)
  | JNull | JBool _ | JNum _ | JFloat _ => Raise TypeError
  end.

(** [data[key]] for a string key. *)
Definition py_getitem (key : string) (data : json) : result json :=
  match data with
  | JObj d =>
      match dict_get key d with
      | Some v => Ok v
      | None => Raise (KeyError key)
      end
  | _ => Raise TypeError
  end.

(** [ZipFile(p, 'r')]: the entries of the archive at [p]. *)
Definition zip_open_r (p : path) (fs : node) : result archive :=
  rbind (read_file fs p)
        (fun c => match c with
                  | ZipData es => Ok es
                  | _ => Raise BadZipFile
                  end).

(** [ZipFile.namelist()]. *)
Definition namelist (es : archive) : list path := map fst es.

(** [ZipFile.open(name)]: the last entry of that name. *)
Definition zip_read (es : archive) (name : path) : result content :=
  match find (fun e => path_eqb (fst e) name) (rev es) with
  | Some e => Ok (snd e)
  | None => Raise (KeyError "")
  end.

(** [os.path.relpath(p, start)] for [p] below [start]. *)
Fixpoint relpath (p start : path) : path :=
  match start, p with
  | x :: start', y :: p' => if String.eqb x y then relpath p' start' else p
  | _, _ => p
  end.

Definition lift {A} (r : result A) : M A := fun s => (r, s).

(** Run [m] and hand its outcome, value or exception, to the caller. *)
Definition attempt {A} (m : M A) : M (result A) :=
  fun s => match m s with (r, s') => (Ok r, s') end.

(** [try: body  except E: handler], for the exceptions [sel] selects;
    the others propagate. *)
Definition try_except_on {A} (sel : exn -> bool) (body : M A)
           (handler : M A) : M A :=
  fun s => match body s with
           | (Ok a, s') => (Ok a, s')
           | (Raise e, s') => if sel e then handler s' else (Raise e, s')
           end.

(** A loop that threads a local value through its iterations. *)
Fixpoint fold_m {A B} (body : A -> B -> M B) (xs : list A) (b : B) : M B :=
  match xs with
  | [] => ret b
  | x :: xs' => b' <- body x b ;; fold_m body xs' b'
  end.

(** [ZipFile.extractall(dest)] as a sequence of member extractions: the
    members extracted before a failing one stay on disk.  A member is
    written at its name below [dest]: the names are taken to be such as
    extraction keeps them, without the empty, [.] and [..] components
    that [extractall] drops. *)
Definition zip_extractall (es : archive) (dest : path) : M unit :=
  for_each es (fun e => modify (extract_member (dest ++ fst e) (snd e))).

(** The members [ZipFile.write(file_path, arcname)] adds, read from the
    file system one after the other; a directory adds no file member;
    the first failing read stops the loop and is reported with the
    members gathered so far. *)
Fixpoint zip_add_files (items : list (path * path)) (acc : archive)
         (fs : node) : archive * option exn :=
  match items with
  | [] => (acc, None)
  | (file_path, arcname) :: items' =>
      match read_file fs file_path with
      | Ok c => zip_add_files items' (acc ++ [(arcname, c)]) fs
      | Raise IsADirectoryError => zip_add_files items' acc fs
      | Raise e => (acc, Some e)
      end
  end.

(** [with ZipFile(zp, 'w', ZIP_DEFLATED) as z: for ...: z.write(...)]:
    opening truncates the file at [zp]; [items] is what the body of the
    [with] walks and writes, computed on the file system as it is after
    the opening; leaving the block, normally or not, closes the archive
    with the members written so far.  While the archive is open the
    file at [zp] is given the empty content; the bytes the unfinished
    archive really has are not represented, so that the definition says
    what is written only when [zp] is not itself among the files
    read. *)
Definition with_zip_w (zp : path) (items : node -> list (path * path))
  : M unit :=
  modify (write_file zp (Malformed "")) ;;;
  r <- ask (fun fs => zip_add_files (items fs) [] fs) ;;
  modify (write_file zp (ZipData (fst r))) ;;;
  match snd r with
  | Some e => raise e
  | None => ret tt
  end.

(* ================================================================== *)
(** ** [update_gc_zip_annotation] (the Patcher) *)

Definition walk_t := list (path * list string * list string).

(** The two nested loops that look for the first file name with the
    given suffix, in walk order. *)
Fixpoint first_with_suffix (suffix : string) (w : walk_t) : option path :=
  match w with
  | [] => None
  | (root, _, files) :: w' =>
      match find (fun file => endswith file suffix) files with
      | Some file => Some (root ++ [file])
      | None => first_with_suffix suffix w'
      end
  end.

Definition locate_gc_zip (data_folder_dir : path) : M (option path) :=
  ask (fun fs => first_with_suffix "-GC.zip" (os_walk fs data_folder_dir)).

(** [if outer in data and isinstance(data[outer], dict):
       data[outer][inner] = value]. *)
Definition set_nested (outer inner value : string) (data : json)
  : result json :=
  rbind (py_contains outer data) (fun present =>
  if present then
    rbind (py_getitem outer data) (fun sub =>
    match sub, data with
    | JObj d, JObj fields =>
        Ok (JObj (dict_set outer (JObj (dict_set inner (JStr value) d)) fields))
    | _, _ => Ok data
    end)
  else Ok data).

(** The body of the inner loop of step 4 for one [.fusion-data] file. *)
Definition patch_file (file_path : path)
           (annotation_name sequence_location : string) : M unit :=
  c <- try_ask (fun fs => read_file fs file_path) ;;
  data <- lift (json_load_text c) ;;
  data <- lift (set_nested "annotations" "name" annotation_name data) ;;
  data <- lift (set_nested "sequence" "location" sequence_location data) ;;
  modify (write_file file_path (json_dump data)).

(** What step 5 writes: every file below [temp_dir], named by its path
    relative to [temp_dir]. *)
Definition repack_items (temp_dir : path) (fs : node) : list (path * path) :=
  flat_map (fun t : path * list string * list string =>
              let '(root, _, files) := t in
              map (fun file => (root ++ [file],
                                relpath (root ++ [file]) temp_dir)) files)
           (os_walk fs temp_dir).

(** Step 2, first half of the [try] block: a stale scratch directory is
    removed and an empty one is created. *)
Definition fresh_scratch (temp_dir : path) : M unit :=
  stale <- ask (fun fs => os_path_exists fs temp_dir) ;;
  when stale (modify (shutil_rmtree temp_dir)) ;;;
  modify (os_makedirs temp_dir false).

(** Step 4: the two nested loops over [os.walk(temp_dir)]. *)
Definition patch_tree (temp_dir : path)
           (annotation_name sequence_location : string) : M unit :=
  w <- ask (fun fs => os_walk fs temp_dir) ;;
  for_each w (fun t : path * list string * list string =>
    let '(root, _, files) := t in
    for_each files (fun file =>
      when (endswith file ".fusion-data")
           (patch_file (root ++ [file]) annotation_name sequence_location))).

(** Steps 2 to 5, the body of the [try] block. *)
Definition patch_archive (zip_file_path temp_dir : path)
           (annotation_name sequence_location : string) : M unit :=
  fresh_scratch temp_dir ;;;
  (* Step 3 *)
  es <- try_ask (zip_open_r zip_file_path) ;;
  zip_extractall es temp_dir ;;;
  (* Step 4 *)
  patch_tree temp_dir annotation_name sequence_location ;;;
  (* Step 5 *)
  with_zip_w zip_file_path (repack_items temp_dir) ;;;
  print (MsgUpdated zip_file_path).

(** Step 6, the [finally] block. *)
Definition drop_scratch (temp_dir : path) : M unit :=
  stale <- ask (fun fs => os_path_exists fs temp_dir) ;;
  when stale (modify (shutil_rmtree temp_dir)) ;;;
  print MsgCleaned.

Definition update_gc_zip_annotation (data_folder_dir : path)
           (annotation_name sequence_location : string) : M unit :=
  (* Step 1 *)
  zip_file_path <- locate_gc_zip data_folder_dir ;;
  match zip_file_path with
  | None => print MsgNoZip
  | Some zip_file_path =>
      print (MsgLocated zip_file_path) ;;;
      let temp_dir := data_folder_dir ++ ["temp_unzip"] in
      try_finally
        (try_except
           (patch_archive zip_file_path temp_dir
                          annotation_name sequence_location)
           (fun e => print (MsgError e)))
        (drop_scratch temp_dir)
  end.

(* ================================================================== *)
(** ** [analyze_annotations] (the Analyzer) *)

(** A [Counter]: keys in insertion order. *)
Definition counter := list (json * nat).

Fixpoint counter_incr (k : json) (c : counter) : counter :=
  match c with
  | [] => [(k, 1)]
  | (k', n) :: c' =>
      if key_eqb k k' then (k', S n) :: c' else (k', n) :: counter_incr k c'
  end.

(** [c[k] += 1]. *)
Definition counter_add (k : json) (c : counter) : result counter :=
  if hashable k then Ok (counter_incr k c) else Raise TypeError.

(** [if outer in data and isinstance(data[outer], dict):
       v = data[outer].get(inner, sentinel); c[v] += 1]. *)
Definition tally (outer inner sentinel : string) (data : json) (c : counter)
  : result counter :=
  rbind (py_contains outer data) (fun present =>
  if present then
    rbind (py_getitem outer data) (fun sub =>
    match sub with
    | JObj d =>
        counter_add (match dict_get inner d with
                     | Some v => v
                     | None => JStr sentinel
                     end) c
    | _ => Ok c
    end)
  else Ok c).

Definition is_json_decode_error (e : exn) : bool :=
  match e with JSONDecodeError => true | _ => false end.

(** The body of the loop over [namelist()]; the two counters are the
    local state of the scan. *)
Definition scan_entry (es : archive) (file_name : path)
           (cs : counter * counter) : M (counter * counter) :=
  if path_endswith file_name ".fusion-data" then
    file <- lift (zip_read es file_name) ;;
    try_except_on is_json_decode_error
      (data <- lift (json_load_bytes file) ;;
       nc <- lift (tally "annotations" "name" "No name field found"
                         data (fst cs)) ;;
       lc <- lift (tally "sequence" "location" "No location field found"
                         data (snd cs)) ;;
       ret (nc, lc))
      (print (MsgInvalidJson file_name) ;;; ret cs)
  else ret cs.

Definition analyze_annotations (data_folder_dir : path) : M unit :=
  (* Step 1 *)
  zip_file_path <- locate_gc_zip data_folder_dir ;;
  match zip_file_path with
  | None => print MsgNoZip
  | Some zip_file_path =>
      print (MsgLocated zip_file_path) ;;;
      (* Steps 2 and 3 *)
      r <- attempt (es <- try_ask (zip_open_r zip_file_path) ;;
                    fold_m (scan_entry es) (namelist es) ([], [])) ;;
      match r with
      | Raise e => print (MsgError e)
      | Ok (name_counter, location_counter) =>
          (* Step 4 *)
          print MsgNameHeader ;;;
          for_each name_counter (fun kc => print (MsgName (fst kc) (snd kc))) ;;;
          print MsgLocationHeader ;;;
          for_each location_counter
                   (fun kc => print (MsgLocation (fst kc) (snd kc)))
      end
  end.

(* ================================================================== *)
(** ** [zip_folder] (the Packager) *)

(** The list gathered by the first loop: every file below
    [output_folder] except those named [holder.gitignore]. *)
Definition files_to_zip (output_folder : path) (fs : node)
  : list (path * path) :=
  flat_map (fun t : path * list string * list string =>
              let '(root, _, files) := t in
              map (fun file => (root ++ [file],
                                relpath (root ++ [file]) output_folder))
                  (filter (fun file => negb (String.eqb file "holder.gitignore"))
                          files))
           (os_walk fs output_folder).

Definition zip_folder (output_folder zip_name : path) : M unit :=
  gathered <- ask (files_to_zip output_folder) ;;
  with_zip_w zip_name (fun _ => gathered) ;;;
  print (MsgZipComplete zip_name).

(* ================================================================== *)
(** ** [unzip_and_organize] (the Normalizer) *)

(** The names bound at module level: the imports of lines 4-9 and the
    functions the module defines. *)
Definition module_globals : list string :=
  ["os"; "shutil"; "single"; "multiplex"; "zipfile"; "json"; "Counter";
   "clear_dir"; "data_slicer"; "update_gc_zip_annotation";
   "analyze_annotations"; "zip_folder"; "unzip_and_organize"].

(** Evaluating a global name: [NameError] when nothing binds it. *)
Definition global_name (globals : list string) (name : string) : M unit :=
  if existsb (String.eqb name) globals then ret tt else raise (NameError name).

(** [glob.glob(f"{data_folder}/*.zip")]: the entries directly under
    [data_folder] whose name ends in [.zip]; [*] does not match a
    leading dot.  The name of [data_folder] is taken to hold no
    star, question mark or bracket, which the pattern would
    interpret. *)
Definition glob_zip (data_folder : path) (fs : node) : list path :=
  match lookup fs data_folder with
  | Some (Dir kids) =>
      map (fun x => data_folder ++ [x])
          (filter (fun x => endswith x ".zip" && negb (String.prefix "." x))
                  (map fst kids))
  | _ => []
  end.

(** [os.listdir]. *)
Definition os_listdir (p : path) (fs : node) : result (list string) :=
  match lookup fs p with
  | Some (Dir kids) => Ok (map fst kids)
  | Some (File _) => Raise NotADirectoryError
  | None => Raise FileNotFoundError
  end.

(** Detach the node at [p] from its parent. *)
Fixpoint unlink (p : path) (n : node) : result node :=
  match n with
  | File _ => Raise NotADirectoryError
  | Dir kids =>
      match p with
      | [] => Raise IsADirectoryError
      | x :: p' =>
          match assoc x kids with
          | None => Raise FileNotFoundError
          | Some child =>
              match p' with
              | [] => Ok (Dir (del_kid x kids))
              | _ => rbind (unlink p' child)
                           (fun child' => Ok (Dir (set_kid x child' kids)))
              end
          end
      end
  end.

(** Attach [m] at [p], whose parent must be a directory and where
    nothing may be yet. *)
Fixpoint attach (p : path) (m : node) (n : node) : result node :=
  match n with
  | File _ => Raise NotADirectoryError
  | Dir kids =>
      match p with
      | [] => Raise FileExistsError
      | x :: p' =>
          match assoc x kids, p' with
          | None, [] => Ok (Dir (set_kid x m kids))
          | None, _ => Raise FileNotFoundError
          | Some _, [] => Raise FileExistsError
          | Some child, _ =>
              rbind (attach p' m child)
                    (fun child' => Ok (Dir (set_kid x child' kids)))
          end
      end
  end.

(** [os.remove]: a file only. *)
Definition os_remove (p : path) (fs : node) : result node :=
  match lookup fs p with
  | Some (File _) => unlink p fs
  | Some (Dir _) => Raise IsADirectoryError
  | None => Raise FileNotFoundError
  end.

Definition basename (p : path) : path :=
  match rev p with
  | [] => []
  | x :: _ => [x]
  end.

(** [shutil.move(src, dst)]: into [dst] when [dst] is a directory,
    refusing an existing destination there; a rename otherwise. *)
Definition shutil_move (src dst : path) (fs : node) : result node :=
  match lookup fs src with
  | None => Raise FileNotFoundError
  | Some m =>
      if is_dir fs dst then
        let real_dst := dst ++ basename src in
        if os_path_exists fs real_dst then Raise ShutilError
        else rbind (unlink src fs) (attach real_dst m)
      else
        rbind (unlink src fs) (attach dst m)
  end.

(** [os.path.splitext(os.path.basename(zip_file))[0]] for a name that
    ends in [.zip]. *)
Definition zip_stem (zip_file : path) : string :=
  match rev zip_file with
  | [] => ""
  | x :: _ => substring 0 (String.length x - 4) x
  end.

(** The body of the loop over [zip_files], lines 252-292. *)
Definition organize_zip (data_folder zip_file : path) : M unit :=
  let temp_extract_folder := data_folder ++ ["temp_extraction"] in
  modify (os_makedirs temp_extract_folder true) ;;;
  print (MsgUnzipping zip_file) ;;;
  es <- try_ask (zip_open_r zip_file) ;;
  zip_extractall es temp_extract_folder ;;;
  let zip_name := zip_stem zip_file in
  extracted_items <- try_ask (os_listdir temp_extract_folder) ;;
  match extracted_items with
  | [only] =>
      if String.eqb only zip_name then
        let extracted_folder_path := temp_extract_folder ++ [zip_name] in
        _ <- try_ask (os_listdir extracted_folder_path) ;;
        let final_folder := data_folder ++ [zip_name] in
        present <- ask (fun fs => os_path_exists fs final_folder) ;;
        when present (modify (shutil_rmtree final_folder)) ;;;
        modify (shutil_move extracted_folder_path final_folder)
      else
        for_each extracted_items (fun item =>
          modify (shutil_move (temp_extract_folder ++ [item]) data_folder))
  | _ =>
      for_each extracted_items (fun item =>
        modify (shutil_move (temp_extract_folder ++ [item]) data_folder))
  end ;;;
  modify (os_remove zip_file) ;;;
  modify (shutil_rmtree temp_extract_folder) ;;;
  print (MsgExtracted zip_file data_folder).

(** The function in a module whose global names are [globals]: line 250
    evaluates the name [glob] before anything else. *)
Definition unzip_and_organize_in (globals : list string) (data_folder : path)
  : M unit :=
  global_name globals "glob" ;;;
  zip_files <- ask (glob_zip data_folder) ;;
  for_each zip_files (organize_zip data_folder).

(** The function as the module defines it. *)
Definition unzip_and_organize (data_folder : path) : M unit :=
  unzip_and_organize_in module_globals data_folder.

(* ================================================================== *)
(** ** [clear_dir] (the Cleaner) *)

Definition clear_dir (output_dir : path) : M unit :=
  items <- try_ask (os_listdir output_dir) ;;
  for_each items (fun item =>
    let item_path := output_dir ++ [item] in
    isdir <- ask (fun fs => is_dir fs item_path) ;;
    when (isdir && negb (String.eqb item ".gitignore"))
         (modify (shutil_rmtree item_path))).

(* ================================================================== *)
(** ** Notions used to state the properties *)

(** The state in which nothing has been printed yet and no file exists. *)
Definition quiet : state := mkState (Dir []) [].

(** The content of the regular file at [p], if there is one. *)
Definition file_at (fs : node) (p : path) : option content :=
  match lookup fs p with
  | Some (File c) => Some c
  | _ => None
  end.

(** The sum of the counts of a [Counter]. *)
Definition counter_total (c : counter) : nat :=
  fold_right (fun kn acc => snd kn + acc) 0 c.

(** [data] is an object whose field [k] is itself an object. *)
Definition has_object_field (k : string) (data : json) : bool :=
  match data with
  | JObj d => match dict_get k d with
              | Some (JObj _) => true
              | _ => false
              end
  | _ => false
  end.

(** The entry the Analyzer reads under [name] parses to an object with
    an object-valued field [k]. *)
Definition entry_has_object (k : string) (es : archive) (name : path) : bool :=
  match zip_read es name with
  | Ok c => match json_load_bytes c with
            | Ok data => has_object_field k data
            | Raise _ => false
            end
  | Raise _ => false
  end.

(** The number of [.fusion-data] names the archive lists under which
    the Analyzer reads an object with a top-level [annotations] object;
    a name is listed once for each member that bears it. *)
Definition annotated_entries (es : archive) : nat :=
  List.length
    (filter (fun name => path_endswith name ".fusion-data" &&
                         entry_has_object "annotations" es name)
            (namelist es)).

(** The content of a member parses, for the Analyzer, to an object
    with an object-valued field [k]. *)
Definition content_has_object (k : string) (c : content) : bool :=
  match json_load_bytes c with
  | Ok data => has_object_field k data
  | Raise _ => false
  end.

(** The number of [.fusion-data] members of the archive whose content
    is an object with a top-level [annotations] object. *)
Definition annotated_members (es : archive) : nat :=
  List.length
    (filter (fun e => path_endswith (fst e) ".fusion-data" &&
                      content_has_object "annotations" (snd e)) es).

(** The names of a list are pairwise different. *)
Fixpoint distinct_paths (l : list path) : bool :=
  match l with
  | [] => true
  | x :: l' => negb (existsb (path_eqb x) l') && distinct_paths l'
  end.

(** The sum of the counts the console shows on its
    ["  Name: ... : Occurrence: ..."] lines. *)
Definition printed_name_total (o : list msg) : nat :=
  fold_right (fun m acc => match m with
                           | MsgName _ n => n + acc
                           | _ => acc
                           end) 0 o.

(** The lines that report tallies. *)
Definition is_tally_line (m : msg) : bool :=
  match m with
  | MsgNameHeader | MsgName _ _ | MsgLocationHeader | MsgLocation _ _ => true
  | _ => false
  end.

(** A parsed value that is a number, a boolean or null. *)
Definition is_atom (data : json) : bool :=
  match data with
  | JNull | JBool _ | JNum _ | JFloat _ => true
  | _ => false
  end.

(** The console lines of a finished scan that printed its tallies. *)
Definition tally_report (cs : counter * counter) : list msg :=
  MsgNameHeader :: map (fun kc => MsgName (fst kc) (snd kc)) (fst cs) ++
  MsgLocationHeader :: map (fun kc => MsgLocation (fst kc) (snd kc)) (snd cs).

(** [p] is an initial segment of [q]: [q] is [p] or lies below it. *)
Fixpoint is_prefix (p q : path) : bool :=
  match p, q with
  | [], _ => true
  | x :: p', y :: q' => String.eqb x y && is_prefix p' q'
  | _ :: _, [] => false
  end.

Definition proper_prefix (p q : path) : bool :=
  is_prefix p q && negb (Nat.eqb (List.length p) (List.length q)).

(** The names of a list are pairwise distinct. *)
Fixpoint distinct (l : list string) : bool :=
  match l with
  | [] => true
  | x :: l' => negb (existsb (String.eqb x) l') && distinct l'
  end.

(** A well-formed tree: no directory lists a name twice. *)
Fixpoint wf (n : node) : bool :=
  match n with
  | File _ => true
  | Dir kids =>
      distinct (map fst kids) && forallb (fun xn => wf (snd xn)) kids
  end.

(** An archive that extracts without a clash: no entry has an empty
    name, and no entry name is a directory on the way to another. *)
Definition conflict_free (es : archive) : bool :=
  forallb (fun n1 =>
             negb (Nat.eqb (List.length n1) 0) &&
             forallb (fun n2 => negb (proper_prefix n1 n2)) (namelist es))
          (namelist es).

(** A component of a member name that [ZipFile.extractall] keeps: it
    drops the empty components and the components [.] and [..]. *)
Definition plain_component (x : string) : bool :=
  negb (String.eqb x "" || String.eqb x "." || String.eqb x "..").

(** The member names are extracted as they are. *)
Definition plain_names (es : archive) : bool :=
  forallb (forallb plain_component) (namelist es).

(** The file paths a walk lists, in order. *)
Definition walk_paths (w : walk_t) : list path :=
  flat_map (fun t : path * list string * list string =>
              map (fun file => fst (fst t) ++ [file]) (snd t)) w.

(** What steps 4 writes for a file that holds [c]: the document with the
    two fields set, in the layout of [json.dump]. *)
Definition patch_content (annotation_name sequence_location : string)
           (c : content) : result content :=
  rbind (json_load_text c) (fun data =>
  rbind (set_nested "annotations" "name" annotation_name data) (fun data =>
  rbind (set_nested "sequence" "location" sequence_location data) (fun data =>
  Ok (json_dump data)))).

(** An entry of the archive as the Patcher leaves it: patched when its
    name ends in [.fusion-data], as it was otherwise. *)
Definition patched_entry (annotation_name sequence_location : string)
           (name : path) (c : content) : result content :=
  if path_endswith name ".fusion-data"
  then patch_content annotation_name sequence_location c
  else Ok c.

(** Every entry the extraction leaves on disk (for each name, the last
    entry of that name) can be patched. *)
Definition patchable (annotation_name sequence_location : string)
           (es : archive) : bool :=
  forallb (fun name =>
             match zip_read es name with
             | Ok c => match patched_entry annotation_name sequence_location
                                           name c with
                       | Ok _ => true
                       | Raise _ => false
                       end
             | Raise _ => true
             end) (namelist es).




(** The members gathered from [items] when every file reads: the
    archive name with what the file holds. *)
Definition read_all (fs : node) (items : list (path * path)) : archive :=
  flat_map (fun pa => match file_at fs (fst pa) with
                      | Some c => [(snd pa, c)]
                      | None => []
                      end) items.

(** What step 4 makes of the content of a file it visits. *)
Definition opatch (annotation_name sequence_location : string)
           (oc : option content) : option content :=
  match oc with
  | Some c => match patch_content annotation_name sequence_location c with
              | Ok c' => Some c'
              | Raise _ => None
              end
  | None => None
  end.

(** The file the Patcher leaves for an entry that held [oc]. *)
Definition opatched_entry (annotation_name sequence_location : string)
           (name : path) (oc : option content) : option content :=
  match oc with
  | Some c => match patched_entry annotation_name sequence_location name c with
              | Ok c' => Some c'
              | Raise _ => None
              end
  | None => None
  end.



(** A regular file, as opposed to a directory. *)
Definition is_file_node (n : node) : bool :=
  match n with File _ => true | Dir _ => false end.

(* ================================================================== *)
(** ** Concrete file systems used as test inputs *)

(** A data folder [data] holding one archive [run-GC.zip]. *)
Definition fs_with_archive (es : archive) : node :=
  Dir [("data", Dir [("run-GC.zip", File (ZipData es))])].

Definition st_with_archive (es : archive) : state :=
  mkState (fs_with_archive es) [].

Definition doc_named : json :=
  JObj [("annotations", JObj [("name", JStr "sample A")]);
        ("sequence", JObj [("location", JStr "rack 1")]);
        ("detector", JStr "TCD")].

Definition doc_unnamed : json :=
  JObj [("annotations", JObj []); ("detector", JStr "FID")].

(** An archive whose first entry is a bare number. *)
Definition archive_number_first : archive :=
  [(["b.fusion-data"], JsonText (OtherLayout 0) (JNum 5));
   (["a.fusion-data"], JsonText (OtherLayout 0) doc_named)].

(** An archive with a text entry that is not JSON between two good ones. *)
Definition archive_one_malformed : archive :=
  [(["a.fusion-data"], JsonText (OtherLayout 0) doc_named);
   (["broken.fusion-data"], Malformed "{not json");
   (["c.fusion-data"], JsonText (OtherLayout 0) doc_unnamed)].

(** An archive whose first entry holds bytes that are not UTF-8. *)
Definition archive_undecodable_first : archive :=
  [(["raw.fusion-data"], Undecodable "FF FE 00");
   (["a.fusion-data"], JsonText (OtherLayout 0) doc_named)].

(** An archive whose only entry is the empty JSON array. *)
Definition archive_empty_array : archive :=
  [(["list.fusion-data"], JsonText (OtherLayout 0) (JArr []))].

(** A directory [D] holding [foo.zip], whose only top-level entry is the
    folder [foo] with the file [a.txt]. *)
Definition fs_foo : node :=
  Dir [("D", Dir [("foo.zip",
                   File (ZipData [(["foo"; "a.txt"], Malformed "hello")]))])].

(** A directory [D] holding a file [bad.zip] that is not an archive. *)
Definition fs_bad_zip : node :=
  Dir [("D", Dir [("bad.zip", File (Malformed "not an archive"))])].

(** A data folder without any [-GC.zip] file. *)
Definition fs_no_gc : node :=
  Dir [("data", Dir [("notes.txt", File (Malformed "n"));
                     ("run", Dir [("trace.zip", File (ZipData []))])])].



(** An archive with two metadata files and a plain file. *)
Definition archive_two_records : archive :=
  [(["a.fusion-data"], JsonText (OtherLayout 0) doc_named);
   (["sub"; "b.fusion-data"],
    JsonText (OtherLayout 2)
             (JObj [("sequence", JObj []); ("annotations", JObj []);
                    ("runs", JArr [JNum 1; JNum 2])]));
   (["readme.txt"], Malformed "hello")].

(** A record without an [annotations] object. *)
Definition doc_plain : json := JObj [("detector", JStr "FID")].

(** An archive with two members of one name: a record with an
    [annotations] object, then one without. *)
Definition archive_annotated_shadowed : archive :=
  [(["a.fusion-data"], JsonText (OtherLayout 0) doc_named);
   (["a.fusion-data"], JsonText (OtherLayout 0) doc_plain)].

(** An archive with two members of one name: a bare number, then a
    record. *)
Definition archive_number_shadowed : archive :=
  [(["a.fusion-data"], JsonText (OtherLayout 0) (JNum 5));
   (["a.fusion-data"], JsonText (OtherLayout 0) doc_named)].









(* ================================================================== *)
(** ** Notions used for the further properties *)

(** A computation keeps the property [I] of the state, whatever its
    outcome. *)
Definition preserves {A} (I : state -> Prop) (m : M A) : Prop :=
  forall s r s', m s = (r, s') -> I s -> I s'.

(** [c[k]] on a [Counter]: the count of the key equal to [k], [0] when
    there is none. *)
Definition counter_get (k : json) (c : counter) : nat :=
  match find (fun kn => key_eqb k (fst kn)) c with
  | Some kn => snd kn
  | None => 0
  end.

(** The value a document is tallied under for the field
    [outer.inner], if it is tallied at all. *)
Definition tally_value (outer inner sentinel : string) (data : json)
  : option json :=
  match data with
  | JObj d =>
      match dict_get outer d with
      | Some (JObj a) =>
          Some (match dict_get inner a with
                | Some v => v
                | None => JStr sentinel
                end)
      | _ => None
      end
  | _ => None
  end.

(** The value the record that the Analyzer reads under [name] (the
    last member of that name) is tallied under. *)
Definition entry_value (outer inner sentinel : string) (es : archive)
           (name : path) : option json :=
  if path_endswith name ".fusion-data" then
    match zip_read es name with
    | Ok c => match json_load_bytes c with
              | Ok data => tally_value outer inner sentinel data
              | Raise _ => None
              end
    | Raise _ => None
    end
  else None.

(** The number of names of the archive, a name taken once for each
    member that bears it, under which the record read is tallied under
    a value equal to [k]. *)
Definition entries_with_value (outer inner sentinel : string) (es : archive)
           (k : json) : nat :=
  List.length
    (filter (fun name => match entry_value outer inner sentinel es name with
                         | Some v => key_eqb k v
                         | None => false
                         end) (namelist es)).

(** The keys of a [Counter] are pairwise different and every count is
    positive. *)
Fixpoint counter_ok (c : counter) : bool :=
  match c with
  | [] => true
  | (k, n) :: c' =>
      key_eqb k k && negb (existsb (fun kn => key_eqb k (fst kn)) c') &&
      Nat.ltb 0 n && counter_ok c'
  end.

(** What [clear_dir] removes: the sub-directories not named
    [.gitignore]. *)
Definition cleared (xn : string * node) : bool :=
  negb (is_file_node (snd xn)) && negb (String.eqb (fst xn) ".gitignore").

(** A data folder with a note, a results archive one of whose entries
    is not JSON, and a scratch directory left by an earlier run. *)
Definition fs_lab : node :=
  Dir [("data",
        Dir [("notes.txt", File (Malformed "keep me"));
             ("run-GC.zip", File (ZipData archive_one_malformed));
             ("temp_unzip", Dir [("old.txt", File (Malformed "stale"))])])].

(** A data folder where a regular file has the name of the scratch
    directory. *)
Definition fs_scratch_file : node :=
  Dir [("data",
        Dir [("run-GC.zip", File (ZipData archive_two_records));
             ("temp_unzip", File (Malformed "not a directory"))])].

(** An archive with a record that holds the two objects, a record that
    holds neither, and a log that is not a record. *)
Definition archive_with_log : archive :=
  [(["a.fusion-data"], JsonText (OtherLayout 0) doc_named);
   (["b.fusion-data"],
    JsonText (OtherLayout 2) (JObj [("detector", JStr "FID")]));
   (["logs"; "run.log"], Malformed "started")].

(** A data folder whose [-GC.zip] file is not an archive. *)
Definition fs_not_an_archive : node :=
  Dir [("data",
        Dir [("notes.txt", File (Malformed "keep me"));
             ("run-GC.zip", File (Malformed "PK truncated"))])].

(** The content is that of an archive. *)
Definition is_zip_data (c : content) : bool :=
  match c with ZipData _ => true | _ => false end.

(** A folder to pack, with a sub-folder, the placeholder file and a
    directory named like an archive. *)
Definition fs_to_pack : node :=
  Dir [("Output", Dir [("a.txt", File (Malformed "a"));
                       ("holder.gitignore", File (Malformed ""));
                       ("sub", Dir [("b.txt", File (Malformed "b"))]);
                       ("old.zip", Dir [])]);
       ("elsewhere.txt", File (Malformed "e"))].

(** An output folder with two result directories, a regular file and a
    directory named [.gitignore]. *)
Definition fs_results : node :=
  Dir [("Output",
        Dir [("run1", Dir [("a.txt", File (Malformed "a"))]);
             ("holder.gitignore", File (Malformed ""));
             (".gitignore", Dir [("keep", File (Malformed "k"))]);
             ("run2", Dir [])]);
       ("Data", Dir [("raw.txt", File (Malformed "r"))])].

(** The values the scan meets, in its order: for each name of the
    archive, in the order of [namelist], the value the record read
    under that name is tallied under. *)
Definition tallied_values (outer inner sentinel : string) (es : archive)
  : list json :=
  flat_map (fun name => match entry_value outer inner sentinel es name with
                        | Some v => [v]
                        | None => []
                        end) (namelist es).

(** The values of a list in the order in which they first occur, a value
    equal as a dictionary key to an earlier one being dropped; [seen]
    holds the values met so far. *)
Fixpoint first_occurrences (seen l : list json) : list json :=
  match l with
  | [] => seen
  | v :: l' =>
      first_occurrences (if existsb (key_eqb v) seen then seen
                         else seen ++ [v]) l'
  end.

(** An archive in which a name occurs twice, once as [1] and once as
    [true]. *)
Definition archive_repeated_names : archive :=
  [(["a.fusion-data"],
    JsonText (OtherLayout 0)
             (JObj [("annotations", JObj [("name", JStr "B")])]));
   (["b.fusion-data"],
    JsonText (OtherLayout 0)
             (JObj [("annotations", JObj [("name", JNum 1)])]));
   (["c.fusion-data"],
    JsonText (OtherLayout 0)
             (JObj [("annotations", JObj [("name", JStr "B")])]));
   (["d.fusion-data"],
    JsonText (OtherLayout 0)
             (JObj [("annotations", JObj [("name", JBool true)])]))].

(** An archive with a record in UTF-8 with a byte-order mark, named by
    the float [1.0], and a plain record named by [true]. *)
Definition archive_mixed : archive :=
  [(["a.fusion-data"],
    JsonEncoded JSONDecodeError (OtherLayout 0)
                (JObj [("annotations",
                        JObj [("name", JFloat (Finite 1 0))])]));
   (["b.fusion-data"],
    JsonText (OtherLayout 0)
             (JObj [("annotations", JObj [("name", JBool true)])]))].


(* ================================================================== *)
(** ** Laws of the program monad *)

Unset Implicit Arguments.

Lemma state_eta (s : state) : mkState (fs s) (out s) = s.
Proof. now destruct s. Qed.

Lemma for_each_print {A} (f : A -> msg) (xs : list A) (s : state) :
  for_each xs (fun x => print (f x)) s =
  (Ok tt, mkState (fs s) (out s ++ map f xs)).
Proof.
  revert s. induction xs as [|x xs IH]; intros s; simpl.
  - unfold ret. now rewrite app_nil_r, state_eta.
  - unfold bind, print at 1. rewrite IH. simpl. now rewrite <- app_assoc.
Qed.

Lemma fold_m_app {A B} (body : A -> B -> M B) (xs ys : list A) (b : B)
      (s : state) :
  fold_m body (xs ++ ys) b s =
  (b' <- fold_m body xs b ;; fold_m body ys b') s.
Proof.
  revert b s. induction xs as [|x xs IH]; intros b s; simpl.
  - reflexivity.
  - unfold bind. destruct (body x b s) as [[b1|e] s1]; [|reflexivity].
    rewrite IH. reflexivity.
Qed.

Lemma for_each_app {A} (body : A -> M unit) (xs ys : list A) (s : state) :
  for_each (xs ++ ys) body s = (for_each xs body ;;; for_each ys body) s.
Proof.
  revert s. induction xs as [|x xs IH]; intros s; simpl.
  - reflexivity.
  - unfold bind. destruct (body x s) as [[[]|e] s1]; [|reflexivity].
    rewrite IH. reflexivity.
Qed.

Lemma bind_print {B} (m : msg) (k : M B) (s : state) :
  (print m ;;; k) s = k (mkState (fs s) (out s ++ [m])).
Proof. reflexivity. Qed.

Lemma bind_ask {A B} (q : node -> A) (k : A -> M B) (s : state) :
  (x <- ask q ;; k x) s = k (q (fs s)) s.
Proof. reflexivity. Qed.

(* ================================================================== *)
(** ** Archives read by name *)

Lemma path_eqb_true p q : path_eqb p q = true <-> p = q.
Proof.
  unfold path_eqb. destruct (list_eq_dec string_dec p q); split; congruence.
Qed.

Lemma path_eqb_refl p : path_eqb p p = true.
Proof. now apply path_eqb_true. Qed.

Lemma zip_read_snoc done name c rel :
  zip_read (done ++ [(name, c)]) rel =
  if path_eqb name rel then Ok c else zip_read done rel.
Proof.
  unfold zip_read. rewrite rev_app_distr. simpl.
  now destruct (path_eqb name rel).
Qed.

Lemma zip_read_in es rel c : zip_read es rel = Ok c -> In (rel, c) es.
Proof.
  unfold zip_read.
  destruct (find (fun e => path_eqb (fst e) rel) (rev es)) as [[n c']|] eqn:E;
    [|discriminate].
  intros [= <-]. apply find_some in E as [Hin Hn].
  apply path_eqb_true in Hn. simpl in Hn. subst n.
  now apply in_rev.
Qed.

Lemma zip_read_some es rel c :
  In (rel, c) es -> exists c', zip_read es rel = Ok c'.
Proof.
  intros Hin. unfold zip_read.
  destruct (find (fun e => path_eqb (fst e) rel) (rev es)) as [[n c']|] eqn:E.
  - now exists c'.
  - exfalso. apply in_rev in Hin.
    pose proof (find_none _ _ E _ Hin) as H. simpl in H.
    now rewrite path_eqb_refl in H.
Qed.

(** In an archive whose member names are pairwise different, a name
    has one member. *)
Lemma distinct_paths_unique es name c c' :
  distinct_paths (namelist es) = true ->
  In (name, c) es -> In (name, c') es -> c = c'.
Proof.
  induction es as [|[n0 c0] es IH]; simpl; [contradiction|].
  intros H. apply andb_true_iff in H as [Hn Hd].
  apply negb_true_iff in Hn.
  assert (Hno : forall x, In (n0, x) es -> False).
  { intros x Hx.
    assert (E : existsb (path_eqb n0) (namelist es) = true).
    { apply existsb_exists. exists n0. split; [|apply path_eqb_refl].
      apply in_map_iff. now exists (n0, x). }
    congruence. }
  intros [[= -> ->]|H1] [[= <-]|H2].
  - reflexivity.
  - destruct (Hno _ H2).
  - subst. destruct (Hno _ H1).
  - now apply IH.
Qed.

(** There, reading by name gives the member itself. *)
Lemma distinct_paths_read es name c :
  distinct_paths (namelist es) = true ->
  In (name, c) es -> zip_read es name = Ok c.
Proof.
  intros Hd Hin. destruct (zip_read_some es name c Hin) as [c' Hc'].
  rewrite Hc'. f_equal.
  exact (distinct_paths_unique es name c' c Hd (zip_read_in _ _ _ Hc') Hin).
Qed.

Lemma filter_map_length {A B} (f : A -> B) (p : B -> bool) (l : list A) :
  List.length (filter p (map f l)) =
  List.length (filter (fun x => p (f x)) l).
Proof.
  induction l as [|x l IH]; simpl; [reflexivity|].
  destruct (p (f x)); simpl; now rewrite IH.
Qed.

(** Counting by name and counting the members agree there. *)
Lemma annotated_entries_members es :
  distinct_paths (namelist es) = true ->
  annotated_entries es = annotated_members es.
Proof.
  intros Hd. unfold annotated_entries, annotated_members, namelist.
  rewrite filter_map_length. f_equal. apply filter_ext_in.
  intros [n c] Hin. cbn [fst snd]. f_equal.
  unfold entry_has_object, content_has_object.
  now rewrite (distinct_paths_read es n c Hd Hin).
Qed.

(* ================================================================== *)
(** ** The Analyzer *)

Section Analyzer.

Variable es : archive.

Lemma counter_total_incr k c :
  counter_total (counter_incr k c) = S (counter_total c).
Proof.
  induction c as [|[k' n] c IH]; simpl; [reflexivity|].
  destruct (key_eqb k k'); simpl; [|rewrite IH]; lia.
Qed.

Lemma tally_total outer inner sentinel data c c' :
  tally outer inner sentinel data c = Ok c' ->
  counter_total c' =
  counter_total c + (if has_object_field outer data then 1 else 0).
Proof.
  unfold tally, has_object_field, counter_add.
  destruct data as [| b | n | f | s | items | d]; simpl; try discriminate.
  - destruct (str_contains outer s); simpl; [discriminate|].
    intros [= <-]; lia.
  - destruct (list_mem_str outer items); simpl; [discriminate|].
    intros [= <-]; lia.
  - unfold dict_mem. destruct (dict_get outer d) as [v|]; simpl.
    + destruct v; try (intros [= <-]; lia).
      match goal with |- context [hashable ?k] => destruct (hashable k) end;
        [|discriminate].
      intros [= <-]. rewrite counter_total_incr. lia.
    + intros [= <-]; lia.
Qed.

(** One iteration run from any state is the iteration run from the quiet
    state, with its console lines appended; it never touches the files. *)
Lemma scan_entry_from name cs s :
  scan_entry es name cs s =
  (fst (scan_entry es name cs quiet),
   mkState (fs s) (out s ++ out (snd (scan_entry es name cs quiet)))).
Proof.
  assert (Hs : forall r : result (counter * counter),
             (r, s) = (r, mkState (fs s) (out s ++ []))).
  { intros r. now rewrite app_nil_r, state_eta. }
  unfold scan_entry.
  destruct (path_endswith name ".fusion-data"); [|apply Hs].
  unfold bind, lift, try_except_on, ret, print; simpl.
  destruct (zip_read es name) as [file|e]; simpl; [|apply Hs].
  destruct (json_load_bytes file) as [data|e]; simpl.
  - destruct (tally _ _ _ data (fst cs)) as [nc|e]; simpl.
    + destruct (tally _ _ _ data (snd cs)) as [lc|e]; simpl; [apply Hs|].
      destruct (is_json_decode_error e); simpl; [reflexivity | apply Hs].
    + destruct (is_json_decode_error e); simpl; [reflexivity | apply Hs].
  - destruct (is_json_decode_error e); simpl; [reflexivity | apply Hs].
Qed.

Lemma scan_entry_logs name cs :
  exists logs, out (snd (scan_entry es name cs quiet)) =
               map MsgInvalidJson logs.
Proof.
  unfold scan_entry.
  destruct (path_endswith name ".fusion-data");
    [|exists []; reflexivity].
  unfold bind, lift, try_except_on, ret, print; simpl.
  destruct (zip_read es name) as [file|e]; simpl; [|exists []; reflexivity].
  destruct (json_load_bytes file) as [data|e]; simpl.
  - destruct (tally _ _ _ data (fst cs)) as [nc|e]; simpl.
    + destruct (tally _ _ _ data (snd cs)) as [lc|e]; simpl;
        [exists []; reflexivity|].
      destruct (is_json_decode_error e); simpl;
        [exists [name] | exists []]; reflexivity.
    + destruct (is_json_decode_error e); simpl;
        [exists [name] | exists []]; reflexivity.
  - destruct (is_json_decode_error e); simpl;
      [exists [name] | exists []]; reflexivity.
Qed.

Lemma scan_from names cs s :
  fold_m (scan_entry es) names cs s =
  (fst (fold_m (scan_entry es) names cs quiet),
   mkState (fs s)
           (out s ++ out (snd (fold_m (scan_entry es) names cs quiet)))).
Proof.
  revert cs s. induction names as [|name names IH]; intros cs s; simpl.
  - unfold ret; simpl. now rewrite app_nil_r, state_eta.
  - unfold bind. rewrite (scan_entry_from name cs s).
    destruct (scan_entry es name cs quiet) as [[cs1|e] s1] eqn:E1; simpl.
    + rewrite IH. rewrite (IH cs1 s1). simpl.
      assert (out s1 = out quiet ++ out s1) as ->
          by reflexivity.
      f_equal. f_equal. rewrite <- app_assoc.
      replace s1 with (mkState (fs s1) (out s1)) in E1 by apply state_eta.
      rewrite (scan_entry_from name cs quiet) in E1.
      reflexivity.
    + reflexivity.
Qed.

Lemma scan_logs names cs :
  exists logs, out (snd (fold_m (scan_entry es) names cs quiet)) =
               map MsgInvalidJson logs.
Proof.
  revert cs. induction names as [|name names IH]; intros cs; simpl.
  - exists []; reflexivity.
  - unfold bind.
    destruct (scan_entry_logs name cs) as [l1 H1].
    destruct (scan_entry es name cs quiet) as [[cs1|e] s1] eqn:E1;
      simpl in *.
    + rewrite scan_from. simpl. destruct (IH cs1) as [l2 H2].
      exists (l1 ++ l2). now rewrite H1, H2, map_app.
    + exists l1. exact H1.
Qed.

(** The result of a scan does not depend on the state it starts from. *)
Lemma scan_result_indep names cs s1 s2 :
  fst (fold_m (scan_entry es) names cs s1) =
  fst (fold_m (scan_entry es) names cs s2).
Proof. rewrite (scan_from names cs s1), (scan_from names cs s2). reflexivity. Qed.

Lemma tally_raise outer inner sentinel data c e :
  tally outer inner sentinel data c = Raise e ->
  is_json_decode_error e = false.
Proof.
  unfold tally, counter_add.
  destruct data as [| b | n | f | s | items | d]; simpl;
    try (intros [= <-]; reflexivity).
  - destruct (str_contains outer s); simpl;
      [intros [= <-]; reflexivity | discriminate].
  - destruct (list_mem_str outer items); simpl;
      [intros [= <-]; reflexivity | discriminate].
  - unfold dict_mem. destruct (dict_get outer d) as [v|]; simpl;
      [|discriminate].
    destruct v; try discriminate.
    match goal with |- context [hashable ?k] => destruct (hashable k) end;
      [discriminate | intros [= <-]; reflexivity].
Qed.

Lemma scan_entry_total name cs cs' s s' :
  scan_entry es name cs s = (Ok cs', s') ->
  counter_total (fst cs') =
  counter_total (fst cs) +
  (if path_endswith name ".fusion-data" &&
      entry_has_object "annotations" es name then 1 else 0).
Proof.
  unfold scan_entry, entry_has_object.
  destruct (path_endswith name ".fusion-data"); simpl.
  2:{ unfold ret. intros [= <- _]. lia. }
  unfold bind, lift, try_except_on, ret, print; simpl.
  destruct (zip_read es name) as [file|e]; simpl; [|discriminate].
  destruct (json_load_bytes file) as [data|e]; simpl.
  - destruct (tally _ _ _ data (fst cs)) as [nc|e] eqn:E1; simpl.
    + destruct (tally _ _ _ data (snd cs)) as [lc|e] eqn:E2; simpl.
      * intros [= <- _]. simpl. exact (tally_total _ _ _ _ _ _ E1).
      * rewrite (tally_raise _ _ _ _ _ _ E2). discriminate.
    + rewrite (tally_raise _ _ _ _ _ _ E1). discriminate.
  - destruct (is_json_decode_error e); simpl; [|discriminate].
    intros [= <- _]. lia.
Qed.

Lemma scan_total names cs cs' s s' :
  fold_m (scan_entry es) names cs s = (Ok cs', s') ->
  counter_total (fst cs') =
  counter_total (fst cs) +
  List.length (filter (fun name => path_endswith name ".fusion-data" &&
                                   entry_has_object "annotations" es name)
                      names).
Proof.
  revert cs s. induction names as [|name names IH]; intros cs s; simpl.
  - unfold ret. intros [= <- _]. lia.
  - unfold bind.
    destruct (scan_entry es name cs s) as [[cs1|e] s1] eqn:E1; [|discriminate].
    intros H. apply IH in H. rewrite H.
    rewrite (scan_entry_total _ _ _ _ _ E1).
    destruct (path_endswith name ".fusion-data" &&
              entry_has_object "annotations" es name); simpl; lia.
Qed.

(** A malformed entry: the iteration logs its name and keeps the
    counters. *)
Lemma scan_entry_malformed name c cs s :
  path_endswith name ".fusion-data" = true ->
  zip_read es name = Ok c ->
  json_load_bytes c = Raise JSONDecodeError ->
  scan_entry es name cs s =
  (Ok cs, mkState (fs s) (out s ++ [MsgInvalidJson name])).
Proof.
  intros Hn Hr Hj. unfold scan_entry. rewrite Hn.
  unfold bind, lift, try_except_on, ret, print; simpl.
  rewrite Hr; simpl. rewrite Hj; simpl. reflexivity.
Qed.

(** An entry that parses to a number, a boolean or null: the membership
    test raises [TypeError], which the per-entry handler lets through. *)
Lemma scan_entry_atom name c data cs s :
  path_endswith name ".fusion-data" = true ->
  zip_read es name = Ok c ->
  json_load_bytes c = Ok data ->
  is_atom data = true ->
  scan_entry es name cs s = (Raise TypeError, s).
Proof.
  intros Hn Hr Hj Ha. unfold scan_entry. rewrite Hn.
  unfold bind, lift, try_except_on, ret, print; simpl.
  rewrite Hr; simpl. rewrite Hj; simpl.
  destruct data; try discriminate; reflexivity.
Qed.

(** Once an iteration raises, the scan raises. *)
Lemma scan_aborts names name cs s :
  In name names ->
  (forall cs0 s0, exists e, fst (scan_entry es name cs0 s0) = Raise e) ->
  exists e, fst (fold_m (scan_entry es) names cs s) = Raise e.
Proof.
  intros Hin Hbad. revert cs s.
  induction names as [|n names IH]; intros cs s; [contradiction|].
  simpl. unfold bind.
  destruct (scan_entry es n cs s) as [[cs1|e] s1] eqn:E1.
  - destruct Hin as [->|Hin].
    + destruct (Hbad cs s) as [e He]. rewrite E1 in He. discriminate.
    + apply IH, Hin.
  - exists e. reflexivity.
Qed.

End Analyzer.

(** The Analyzer once the archive is located and opened: the scan, then
    either the error line or the report. *)
Lemma analyze_located d s zp es :
  first_with_suffix "-GC.zip" (os_walk (fs s) d) = Some zp ->
  zip_open_r zp (fs s) = Ok es ->
  analyze_annotations d s =
  let r := fold_m (scan_entry es) (namelist es) ([], [])
                  (mkState (fs s) (out s ++ [MsgLocated zp])) in
  (Ok tt,
   mkState (fs s)
           (out (snd r) ++
            match fst r with
            | Ok cs => tally_report cs
            | Raise e => [MsgError e]
            end)).
Proof.
  intros Hloc Hopen.
  unfold analyze_annotations, locate_gc_zip, bind at 1, ask. simpl.
  rewrite Hloc.
  unfold bind at 1, print at 1. simpl.
  unfold bind at 1, attempt.
  unfold bind at 1, try_ask at 1. simpl. rewrite Hopen.
  rewrite scan_from. simpl.
  destruct (fst (fold_m (scan_entry es) (namelist es) ([], []) quiet))
    as [[nc lc]|e]; simpl.
  - unfold tally_report. rewrite bind_print. unfold bind at 1.
    rewrite for_each_print. simpl. rewrite bind_print.
    rewrite for_each_print. simpl.
    f_equal. f_equal. repeat (rewrite <- app_assoc; simpl). reflexivity.
  - unfold print. reflexivity.
Qed.

Lemma printed_name_total_app (a b : list msg) :
  printed_name_total (a ++ b) = printed_name_total a + printed_name_total b.
Proof.
  induction a as [|m a IH]; simpl; [reflexivity|].
  destruct m; rewrite IH; lia.
Qed.

Lemma printed_name_total_logs (logs : list path) :
  printed_name_total (map MsgInvalidJson logs) = 0.
Proof. induction logs; simpl; auto. Qed.

Lemma printed_name_total_report (cs : counter * counter) :
  printed_name_total (tally_report cs) = counter_total (fst cs).
Proof.
  unfold tally_report. destruct cs as [nc lc]. simpl.
  rewrite printed_name_total_app. simpl.
  assert (H : printed_name_total
                (map (fun kc : json * nat => MsgLocation (fst kc) (snd kc)) lc)
              = 0) by (induction lc; simpl; auto).
  rewrite H, Nat.add_0_r.
  induction nc as [|[k n] nc IH]; simpl; [reflexivity | now rewrite IH].
Qed.

Lemma no_tally_in_logs (logs : list path) :
  forallb (fun m => negb (is_tally_line m)) (map MsgInvalidJson logs) = true.
Proof. induction logs; simpl; auto. Qed.

(** The counts the Analyzer prints for [annotations.name], by name:
    when the scan of the located archive ends without an
    operation-level error, the report is printed and the counts add up
    to the number of [.fusion-data] names, as listed, under which the
    archive reads as an object with an [annotations] object. *)
Lemma name_total_by_name d s zp es cs :
  first_with_suffix "-GC.zip" (os_walk (fs s) d) = Some zp ->
  zip_open_r zp (fs s) = Ok es ->
  fst (fold_m (scan_entry es) (namelist es) ([], []) s) = Ok cs ->
  (exists logs,
     analyze_annotations d s =
     (Ok tt, mkState (fs s)
                     (out s ++ MsgLocated zp :: map MsgInvalidJson logs ++
                      tally_report cs))) /\
  counter_total (fst cs) = annotated_entries es /\
  printed_name_total (out (snd (analyze_annotations d s))) =
  printed_name_total (out s) + annotated_entries es.
Proof.
  intros Hloc Hopen Hscan.
  assert (Htot : counter_total (fst cs) = annotated_entries es).
  { destruct (fold_m (scan_entry es) (namelist es) ([], []) s)
      as [r s1] eqn:E. simpl in Hscan. subst r.
    apply scan_total in E. exact E. }
  rewrite (analyze_located d s zp es Hloc Hopen). cbv zeta.
  rewrite scan_from.
  rewrite <- (scan_result_indep es (namelist es) ([], []) quiet s) in Hscan.
  simpl. rewrite Hscan.
  destruct (scan_logs es (namelist es) ([], [])) as [logs Hlogs].
  simpl in Hlogs. rewrite Hlogs.
  split; [|split].
  - exists logs. repeat (rewrite <- app_assoc; simpl). reflexivity.
  - exact Htot.
  - rewrite !printed_name_total_app, printed_name_total_logs,
      printed_name_total_report. simpl. lia.
Qed.

(** C5 (as amended): when no two members of the located archive share
    a name and the scan ends without an operation-level error, the
    Analyzer prints its report, and the counts recorded and printed for
    [annotations.name] add up to the number of [.fusion-data] members
    whose content parses to an object with a top-level [annotations]
    object, members without [name] included (they are counted under
    the sentinel). *)
Theorem analyzer_name_total d s zp es cs :
  first_with_suffix "-GC.zip" (os_walk (fs s) d) = Some zp ->
  zip_open_r zp (fs s) = Ok es ->
  distinct_paths (namelist es) = true ->
  fst (fold_m (scan_entry es) (namelist es) ([], []) s) = Ok cs ->
  (exists logs,
     analyze_annotations d s =
     (Ok tt, mkState (fs s)
                     (out s ++ MsgLocated zp :: map MsgInvalidJson logs ++
                      tally_report cs))) /\
  counter_total (fst cs) = annotated_members es /\
  printed_name_total (out (snd (analyze_annotations d s))) =
  printed_name_total (out s) + annotated_members es.
Proof.
  intros Hloc Hopen Hd Hscan.
  rewrite <- (annotated_entries_members es Hd).
  exact (name_total_by_name d s zp es cs Hloc Hopen Hscan).
Qed.

Lemma analyzer_name_total_witness :
  printed_name_total
    (out (snd (analyze_annotations ["data"]
                                   (st_with_archive archive_one_malformed))))
  = 0 + annotated_members archive_one_malformed.
Proof.
  exact (proj2 (proj2 (analyzer_name_total
                         ["data"] (st_with_archive archive_one_malformed)
                         ["data"; "run-GC.zip"] archive_one_malformed
                         ([(JStr "sample A", 1);
                           (JStr "No name field found", 1)],
                          [(JStr "rack 1", 1)])
                         eq_refl eq_refl eq_refl eq_refl))).
Defined.

(** C5 as stated fails in two ways.  When the scan is aborted (here by
    a member that is a bare number) the archive holds one member with
    an [annotations] object, yet no count is printed.  When two members
    share a name, the Analyzer reads the last of them once for each:
    the archive holds one member with an [annotations] object, and the
    report lists no name at all. *)
Lemma aborted_scan_prints_no_total :
  (annotated_members archive_number_first = 1 /\
   analyze_annotations ["data"] (st_with_archive archive_number_first) =
   (Ok tt, mkState (fs_with_archive archive_number_first)
                   [MsgLocated ["data"; "run-GC.zip"]; MsgError TypeError]) /\
   printed_name_total
     (out (snd (analyze_annotations ["data"]
                                    (st_with_archive archive_number_first))))
   <> annotated_members archive_number_first) /\
  (annotated_members archive_annotated_shadowed = 1 /\
   analyze_annotations ["data"]
                       (st_with_archive archive_annotated_shadowed) =
   (Ok tt, mkState (fs_with_archive archive_annotated_shadowed)
                   [MsgLocated ["data"; "run-GC.zip"];
                    MsgNameHeader; MsgLocationHeader]) /\
   printed_name_total
     (out (snd (analyze_annotations
                  ["data"] (st_with_archive archive_annotated_shadowed))))
   <> annotated_members archive_annotated_shadowed).
Proof.
  split; (split; [|split]); [reflexivity | reflexivity | discriminate
                            | reflexivity | reflexivity | discriminate].
Qed.

(** X22. A [.fusion-data] name under which the member read makes
    [json.load] raise [JSONDecodeError] is logged and skipped: the loop
    over the names prints the line for it and goes on with the
    remaining names, with the counters as they were, and the scan ends
    with the result it has without that name. *)
Theorem analyzer_skips_malformed es pre name post c cs s :
  path_endswith name ".fusion-data" = true ->
  zip_read es name = Ok c ->
  json_load_bytes c = Raise JSONDecodeError ->
  fold_m (scan_entry es) (pre ++ name :: post) cs s =
  (cs1 <- fold_m (scan_entry es) pre cs ;;
   print (MsgInvalidJson name) ;;;
   fold_m (scan_entry es) post cs1) s /\
  fst (fold_m (scan_entry es) (pre ++ name :: post) cs s) =
  fst (fold_m (scan_entry es) (pre ++ post) cs s).
Proof.
  intros Hn Hr Hj.
  assert (Hstep : forall cs1 s1,
             fold_m (scan_entry es) (name :: post) cs1 s1 =
             fold_m (scan_entry es) post cs1
                    (mkState (fs s1) (out s1 ++ [MsgInvalidJson name]))).
  { intros cs1 s1. simpl. unfold bind.
    now rewrite (scan_entry_malformed es name c cs1 s1 Hn Hr Hj). }
  split.
  - rewrite fold_m_app. unfold bind at 1 2.
    destruct (fold_m (scan_entry es) pre cs s) as [[cs1|e] s1];
      [|reflexivity].
    rewrite Hstep. reflexivity.
  - rewrite !fold_m_app. unfold bind.
    destruct (fold_m (scan_entry es) pre cs s) as [[cs1|e] s1];
      [|reflexivity].
    rewrite Hstep. apply scan_result_indep.
Qed.

Lemma analyzer_skips_malformed_witness :
  fst (fold_m (scan_entry archive_one_malformed)
              ([["a.fusion-data"]] ++
               ["broken.fusion-data"] :: [["c.fusion-data"]])
              ([], []) (st_with_archive archive_one_malformed)) =
  fst (fold_m (scan_entry archive_one_malformed)
              ([["a.fusion-data"]] ++ [["c.fusion-data"]])
              ([], []) (st_with_archive archive_one_malformed)).
Proof.
  exact (proj2 (analyzer_skips_malformed
                  archive_one_malformed [["a.fusion-data"]]
                  ["broken.fusion-data"] [["c.fusion-data"]]
                  (Malformed "{not json") ([], [])
                  (st_with_archive archive_one_malformed)
                  eq_refl eq_refl eq_refl)).
Defined.

(** C8, on the code: the archive holds [raw.fusion-data], whose three
    bytes FF FE 00 are no JSON in any encoding, before a valid record.
    [json.load] fails on the first member with [UnicodeDecodeError],
    which the handler of line 197 does not name: the member is not
    logged, the operation-level handler prints the error, and the
    Analyzer returns without the tallies of the record. *)
Theorem analyzer_undecodable_entry_aborts :
  json_load_bytes (Undecodable "FF FE 00") = Raise UnicodeDecodeError /\
  is_json_decode_error UnicodeDecodeError = false /\
  analyze_annotations ["data"] (st_with_archive archive_undecodable_first) =
  (Ok tt, mkState (fs_with_archive archive_undecodable_first)
                  [MsgLocated ["data"; "run-GC.zip"];
                   MsgError UnicodeDecodeError]) /\
  ~ In (MsgInvalidJson ["raw.fusion-data"])
       (out (snd (analyze_annotations
                    ["data"] (st_with_archive archive_undecodable_first)))) /\
  forallb (fun m => negb (is_tally_line m))
          (out (snd (analyze_annotations
                       ["data"] (st_with_archive archive_undecodable_first))))
  = true.
Proof.
  split; [reflexivity|]. split; [reflexivity|]. split; [reflexivity|].
  split; [|reflexivity].
  simpl. intros [H|[H|[]]]; discriminate.
Qed.

(** C9 (as amended): when the content the Analyzer reads under a
    [.fusion-data] name of the archive (the last member of that name)
    parses to a number, a boolean or null, the membership test on it
    raises [TypeError], which the per-entry handler does not catch; the
    operation-level handler does, and the Analyzer returns having
    printed no tally line, only the located archive, the names of
    malformed entries met before, and the error. *)
Theorem analyzer_atom_aborts d s zp es name c data :
  first_with_suffix "-GC.zip" (os_walk (fs s) d) = Some zp ->
  zip_open_r zp (fs s) = Ok es ->
  In name (namelist es) ->
  path_endswith name ".fusion-data" = true ->
  zip_read es name = Ok c ->
  json_load_bytes c = Ok data ->
  is_atom data = true ->
  (forall cs s0, scan_entry es name cs s0 = (Raise TypeError, s0)) /\
  exists logs e,
    analyze_annotations d s =
    (Ok tt, mkState (fs s)
                    (out s ++ MsgLocated zp :: map MsgInvalidJson logs ++
                     [MsgError e])) /\
    forallb (fun m => negb (is_tally_line m))
            (MsgLocated zp :: map MsgInvalidJson logs ++ [MsgError e]) = true.
Proof.
  intros Hloc Hopen Hin Hn Hr Hj Ha.
  assert (Hraise : forall cs s0,
             scan_entry es name cs s0 = (Raise TypeError, s0))
    by (intros; eapply scan_entry_atom; eauto).
  split; [exact Hraise|].
  rewrite (analyze_located d s zp es Hloc Hopen). cbv zeta.
  rewrite scan_from. simpl.
  destruct (scan_aborts es (namelist es) name ([], []) quiet Hin)
    as [e He].
  { intros cs0 s0. exists TypeError. now rewrite Hraise. }
  rewrite He.
  destruct (scan_logs es (namelist es) ([], [])) as [logs Hlogs].
  simpl in Hlogs. rewrite Hlogs.
  exists logs, e. split.
  - repeat (rewrite <- app_assoc; simpl). reflexivity.
  - simpl. rewrite forallb_app, no_tally_in_logs. reflexivity.
Qed.

Lemma analyzer_atom_aborts_witness :
  exists logs e,
    analyze_annotations ["data"] (st_with_archive archive_number_first) =
    (Ok tt, mkState (fs_with_archive archive_number_first)
                    ([] ++ MsgLocated ["data"; "run-GC.zip"] ::
                     map MsgInvalidJson logs ++ [MsgError e])) /\
    forallb (fun m => negb (is_tally_line m))
            (MsgLocated ["data"; "run-GC.zip"] ::
             map MsgInvalidJson logs ++ [MsgError e]) = true.
Proof.
  exact (proj2 (analyzer_atom_aborts
                  ["data"] (st_with_archive archive_number_first)
                  ["data"; "run-GC.zip"] archive_number_first
                  ["b.fusion-data"] (JsonText (OtherLayout 0) (JNum 5))
                  (JNum 5) eq_refl eq_refl (or_introl eq_refl)
                  eq_refl eq_refl eq_refl eq_refl)).
Defined.

(** C9 as stated fails in two ways.  For a top-level array the
    membership tests are ordinary membership tests: on the empty array
    they answer [False] without raising, and the tallies are printed.
    And a member that is a bare number is never read when a later
    member bears its name: the record that shadows it is tallied, once
    for each of the two, and the tallies are printed. *)
Lemma analyzer_array_entry_reports :
  (json_load_bytes (JsonText (OtherLayout 0) (JArr [])) = Ok (JArr []) /\
   py_contains "annotations" (JArr []) = Ok false /\
   analyze_annotations ["data"] (st_with_archive archive_empty_array) =
   (Ok tt, mkState (fs_with_archive archive_empty_array)
                   [MsgLocated ["data"; "run-GC.zip"];
                    MsgNameHeader; MsgLocationHeader])) /\
  (In (["a.fusion-data"], JsonText (OtherLayout 0) (JNum 5))
      archive_number_shadowed /\
   json_load_bytes (JsonText (OtherLayout 0) (JNum 5)) = Ok (JNum 5) /\
   analyze_annotations ["data"] (st_with_archive archive_number_shadowed) =
   (Ok tt, mkState (fs_with_archive archive_number_shadowed)
                   [MsgLocated ["data"; "run-GC.zip"];
                    MsgNameHeader; MsgName (JStr "sample A") 2;
                    MsgLocationHeader; MsgLocation (JStr "rack 1") 2])).
Proof.
  split; (split; [|split]);
    [reflexivity | reflexivity | reflexivity
     | now left | reflexivity | reflexivity].
Qed.

(* ================================================================== *)
(** ** The directory tree: children, paths and prefixes *)

Lemma assoc_set_kid_same x n kids : assoc x (set_kid x n kids) = Some n.
Proof.
  induction kids as [|[y m] kids IH]; simpl.
  - now rewrite String.eqb_refl.
  - destruct (String.eqb x y) eqn:E; simpl; rewrite E; auto.
Qed.

Lemma assoc_set_kid_other x y n kids :
  x <> y -> assoc y (set_kid x n kids) = assoc y kids.
Proof.
  intros Hxy. induction kids as [|[z m] kids IH]; simpl.
  - destruct (String.eqb_spec y x); congruence.
  - destruct (String.eqb_spec x z) as [->|Hxz]; simpl.
    + destruct (String.eqb_spec y z); congruence.
    + destruct (String.eqb_spec y z); auto.
Qed.

Lemma assoc_del_kid_same x kids : assoc x (del_kid x kids) = None.
Proof.
  unfold del_kid. induction kids as [|[y m] kids IH]; simpl; auto.
  destruct (String.eqb x y) eqn:E; simpl; auto. now rewrite E.
Qed.

Lemma assoc_del_kid_other x y kids :
  x <> y -> assoc y (del_kid x kids) = assoc y kids.
Proof.
  intros Hxy. unfold del_kid.
  induction kids as [|[z m] kids IH]; simpl; auto.
  destruct (String.eqb_spec x z) as [->|Hxz]; simpl.
  - destruct (String.eqb_spec y z); congruence.
  - destruct (String.eqb_spec y z); auto.
Qed.

Lemma assoc_in x n kids : assoc x kids = Some n -> In (x, n) kids.
Proof.
  induction kids as [|[y m] kids IH]; simpl; [discriminate|].
  destruct (String.eqb_spec x y) as [->|]; [intros [= ->]; auto | auto].
Qed.

Lemma lookup_app n a b :
  lookup n (a ++ b) =
  match lookup n a with Some t => lookup t b | None => None end.
Proof.
  revert n. induction a as [|x a IH]; intros n; simpl; [reflexivity|].
  destruct n as [c|kids]; [reflexivity|].
  destruct (assoc x kids); [apply IH | reflexivity].
Qed.

Lemma file_at_app n a b t :
  lookup n a = Some t -> file_at n (a ++ b) = file_at t b.
Proof. intros H. unfold file_at. now rewrite lookup_app, H. Qed.

Lemma file_at_cons kids x q :
  file_at (Dir kids) (x :: q) =
  match assoc x kids with Some c => file_at c q | None => None end.
Proof. unfold file_at; simpl. now destruct (assoc x kids). Qed.

Lemma file_at_below_file c q : q <> [] -> file_at (File c) q = None.
Proof. destruct q; [congruence | reflexivity]. Qed.

Lemma is_prefix_spec p q : is_prefix p q = true <-> exists r, q = p ++ r.
Proof.
  revert q. induction p as [|x p IH]; intros q; simpl.
  - split; [exists q; reflexivity | reflexivity].
  - destruct q as [|y q].
    + split; [discriminate | intros [r Hr]; discriminate].
    + rewrite andb_true_iff, String.eqb_eq, IH. split.
      * intros [-> [r ->]]. now exists r.
      * intros [r [= -> ->]]. split; [reflexivity | now exists r].
Qed.

Lemma is_prefix_app p r : is_prefix p (p ++ r) = true.
Proof. apply is_prefix_spec. now exists r. Qed.

Lemma is_prefix_cons_false x y p q :
  x <> y -> is_prefix (x :: p) (y :: q) = false.
Proof.
  intros H. simpl. destruct (String.eqb_spec x y); [congruence | reflexivity].
Qed.

(** Nothing lies below a regular file. *)
Lemma file_at_prefix_none n a b c :
  file_at n a = Some c -> b <> [] -> lookup n (a ++ b) = None.
Proof.
  unfold file_at. intros H Hb. rewrite lookup_app.
  destruct (lookup n a) as [[c'|kids]|]; try discriminate.
  destruct b; [congruence | reflexivity].
Qed.

(* ================================================================== *)
(** ** Writing and extracting files *)

Lemma file_at_dir_nil kids : file_at (Dir kids) [] = None.
Proof. reflexivity. Qed.

Lemma file_at_empty_dir q : file_at (Dir []) q = None.
Proof. destruct q; reflexivity. Qed.

(** [write_file] sets the content at [p] and leaves the other files. *)
Lemma write_file_spec p c n n' :
  write_file p c n = Ok n' ->
  file_at n' p = Some c /\ forall q, q <> p -> file_at n' q = file_at n q.
Proof.
  revert n n'. induction p as [|x p IH]; intros n n'.
  - destruct n as [c0|kids]; simpl; [|discriminate].
    intros [= <-]. split; [reflexivity|].
    intros q Hq. now rewrite !file_at_below_file.
  - destruct n as [c0|kids]; simpl; [discriminate|].
    destruct (assoc x kids) as [child|] eqn:Ex.
    + destruct (write_file p c child) as [child'|e] eqn:Ew; simpl;
        [|discriminate].
      intros [= <-]. destruct (IH _ _ Ew) as [H1 H2]. split.
      * now rewrite file_at_cons, assoc_set_kid_same.
      * intros [|y q] Hq; [reflexivity|]. rewrite !file_at_cons.
        destruct (String.eqb_spec x y) as [<-|Hxy].
        -- rewrite assoc_set_kid_same, Ex. apply H2. congruence.
        -- now rewrite assoc_set_kid_other.
    + destruct p as [|z p]; [|discriminate].
      intros [= <-]. split.
      * now rewrite file_at_cons, assoc_set_kid_same.
      * intros [|y q] Hq; [reflexivity|]. rewrite !file_at_cons.
        destruct (String.eqb_spec x y) as [<-|Hxy].
        -- rewrite assoc_set_kid_same, Ex.
           apply file_at_below_file. congruence.
        -- now rewrite assoc_set_kid_other.
Qed.

(** Writing succeeds on an existing regular file. *)
Lemma write_file_ok p c n c0 :
  file_at n p = Some c0 -> exists n', write_file p c n = Ok n'.
Proof.
  revert n. induction p as [|x p IH]; intros n.
  - destruct n as [c1|kids]; [eexists; reflexivity | discriminate].
  - destruct n as [c1|kids]; [discriminate|].
    rewrite file_at_cons. simpl.
    destruct (assoc x kids) as [child|]; [|discriminate].
    intros H. destruct (IH _ H) as [child' ->]. simpl. eexists; reflexivity.
Qed.

(** An extracted member sets the content at [p] and leaves the other
    files. *)
Lemma extract_member_spec p c n n' :
  extract_member p c n = Ok n' ->
  file_at n' p = Some c /\ forall q, q <> p -> file_at n' q = file_at n q.
Proof.
  revert n n'. induction p as [|x p IH]; intros n n'.
  - destruct n as [c0|kids]; simpl; [|discriminate].
    intros [= <-]. split; [reflexivity|].
    intros q Hq. now rewrite !file_at_below_file.
  - destruct n as [c0|kids]; simpl; [discriminate|].
    destruct (assoc x kids) as [child|] eqn:Ex.
    + destruct (extract_member p c child) as [child'|e] eqn:Ew; simpl;
        [|discriminate].
      intros [= <-]. destruct (IH _ _ Ew) as [H1 H2]. split.
      * now rewrite file_at_cons, assoc_set_kid_same.
      * intros [|y q] Hq; [reflexivity|]. rewrite !file_at_cons.
        destruct (String.eqb_spec x y) as [<-|Hxy].
        -- rewrite assoc_set_kid_same, Ex. apply H2. congruence.
        -- now rewrite assoc_set_kid_other.
    + match goal with
      | |- context [extract_member p c ?fresh] =>
          destruct (extract_member p c fresh) as [child'|e] eqn:Ew;
            simpl; [|discriminate];
            assert (Hfresh : forall q, q <> p -> file_at fresh q = None)
      end.
      { intros q Hq. destruct p; [now apply file_at_below_file|].
        apply file_at_empty_dir. }
      intros [= <-]. destruct (IH _ _ Ew) as [H1 H2]. split.
      * now rewrite file_at_cons, assoc_set_kid_same.
      * intros [|y q] Hq; [reflexivity|]. rewrite !file_at_cons.
        destruct (String.eqb_spec x y) as [<-|Hxy].
        -- rewrite assoc_set_kid_same, Ex.
           rewrite H2 by congruence. apply Hfresh. congruence.
        -- now rewrite assoc_set_kid_other.
Qed.

Lemma is_dir_cons kids x q :
  is_dir (Dir kids) (x :: q) =
  match assoc x kids with Some c => is_dir c q | None => false end.
Proof. unfold is_dir; simpl. now destruct (assoc x kids). Qed.

Lemma proper_prefix_cons x p q :
  proper_prefix (x :: p) (x :: q) = proper_prefix p q.
Proof. unfold proper_prefix. simpl. now rewrite String.eqb_refl. Qed.

Lemma proper_prefix_nil q : q <> [] -> proper_prefix [] q = true.
Proof. destruct q; [congruence | reflexivity]. Qed.

(** The directories after an extraction: those there before and the
    ones on the way to the member. *)
Lemma extract_member_dirs p c n n' :
  extract_member p c n = Ok n' ->
  forall q, is_dir n' q = true ->
            is_dir n q = true \/ proper_prefix q p = true.
Proof.
  revert n n'. induction p as [|x p IH]; intros n n'.
  - destruct n as [c0|kids]; simpl; [|discriminate].
    intros [= <-] q. destruct q; discriminate.
  - destruct n as [c0|kids]; simpl; [discriminate|].
    destruct (assoc x kids) as [child|] eqn:Ex.
    + destruct (extract_member p c child) as [child'|e] eqn:Ew; simpl;
        [|discriminate].
      intros [= <-] [|y q]; [now left|]. rewrite !is_dir_cons.
      destruct (String.eqb_spec x y) as [<-|Hxy].
      * rewrite assoc_set_kid_same, Ex, proper_prefix_cons.
        apply (IH _ _ Ew).
      * rewrite assoc_set_kid_other by assumption. now left.
    + match goal with
      | |- context [extract_member p c ?fresh] =>
          destruct (extract_member p c fresh) as [child'|e] eqn:Ew;
            simpl; [|discriminate]
      end.
      intros [= <-] [|y q]; [now left|]. rewrite !is_dir_cons.
      destruct (String.eqb_spec x y) as [<-|Hxy].
      * rewrite assoc_set_kid_same, Ex, proper_prefix_cons.
        intros H. right. destruct (IH _ _ Ew _ H) as [H1|H1]; [|exact H1].
        destruct p as [|z p].
        -- destruct q; discriminate.
        -- destruct q as [|w q]; [reflexivity|]. discriminate.
      * rewrite assoc_set_kid_other by assumption. now left.
Qed.

(** A member extracts when no regular file is on its way and no
    directory is in its place. *)
Lemma extract_member_ok p c n :
  (forall q, proper_prefix q p = true -> file_at n q = None) ->
  is_dir n p = false ->
  exists n', extract_member p c n = Ok n'.
Proof.
  revert n. induction p as [|x p IH]; intros n Hfiles Hdir.
  - destruct n as [c0|kids]; [eexists; reflexivity | discriminate].
  - destruct n as [c0|kids].
    { specialize (Hfiles [] eq_refl). discriminate. }
    simpl. rewrite is_dir_cons in Hdir.
    assert (Hsub : forall child, assoc x kids = Some child ->
                     forall q, proper_prefix q p = true ->
                               file_at child q = None).
    { intros child Ex q Hq. specialize (Hfiles (x :: q)).
      rewrite proper_prefix_cons, file_at_cons, Ex in Hfiles. auto. }
    destruct (assoc x kids) as [child|] eqn:Ex.
    + destruct (IH child (Hsub _ eq_refl) Hdir) as [child' ->].
      simpl. eexists; reflexivity.
    + match goal with
      | |- context [extract_member p c ?fresh] =>
          destruct (IH fresh) as [child' ->]
      end.
      * intros q Hq. destruct p as [|z p]; [destruct q; discriminate|].
        apply file_at_empty_dir.
      * destruct p as [|z p]; reflexivity.
      * simpl. eexists; reflexivity.
Qed.

(* ================================================================== *)
(** ** Well-formed trees and what a walk lists *)

Lemma node_ind2 (P : node -> Prop)
      (HF : forall c, P (File c))
      (HD : forall kids, Forall (fun xn => P (snd xn)) kids -> P (Dir kids)) :
  forall n, P n.
Proof.
  refine (fix IH (n : node) : P n :=
            match n with
            | File c => HF c
            | Dir kids =>
                HD kids
                   ((fix IHk (ks : list (string * node))
                     : Forall (fun xn => P (snd xn)) ks :=
                       match ks with
                       | [] => Forall_nil _
                       | xn :: ks' => Forall_cons _ (IH (snd xn)) (IHk ks')
                       end) kids)
            end).
Qed.

Lemma names_set_kid_other x y m kids :
  x <> y ->
  existsb (String.eqb y) (map fst (set_kid x m kids)) =
  existsb (String.eqb y) (map fst kids).
Proof.
  intros Hxy. induction kids as [|[z m0] kids IH]; simpl.
  - destruct (String.eqb_spec y x); [congruence | reflexivity].
  - destruct (String.eqb x z); simpl; [reflexivity | now rewrite IH].
Qed.

Lemma wf_set_kid x m kids :
  wf (Dir kids) = true -> wf m = true -> wf (Dir (set_kid x m kids)) = true.
Proof.
  intros Hk Hm. induction kids as [|[y m0] kids IH]; simpl in *.
  - now rewrite Hm.
  - apply andb_true_iff in Hk as [Hd Hall].
    apply andb_true_iff in Hd as [Hy Hd].
    apply andb_true_iff in Hall as [Hm0 Hall].
    destruct (String.eqb_spec x y) as [->|Hxy]; simpl.
    + now rewrite Hy, Hd, Hm, Hall.
    + rewrite names_set_kid_other, Hy, Hm0 by assumption. simpl.
      apply IH. now rewrite Hd, Hall.
Qed.

Lemma wf_kid x kids child :
  wf (Dir kids) = true -> assoc x kids = Some child -> wf child = true.
Proof.
  simpl. intros H Ex. apply andb_true_iff in H as [_ Hall].
  rewrite forallb_forall in Hall.
  exact (Hall _ (assoc_in _ _ _ Ex)).
Qed.

Lemma write_file_wf p c n n' :
  wf n = true -> write_file p c n = Ok n' -> wf n' = true.
Proof.
  revert n n'. induction p as [|x p IH]; intros n n' Hwf.
  - destruct n; simpl; [intros [= <-]; reflexivity | discriminate].
  - destruct n as [c0|kids]; simpl; [discriminate|].
    destruct (assoc x kids) as [child|] eqn:Ex.
    + destruct (write_file p c child) as [child'|e] eqn:Ew; simpl;
        [|discriminate].
      intros [= <-]. apply wf_set_kid; [assumption|].
      eapply IH; [|exact Ew]. eapply wf_kid; eauto.
    + destruct p; [|discriminate]. intros [= <-].
      now apply wf_set_kid.
Qed.

Lemma extract_member_wf p c n n' :
  wf n = true -> extract_member p c n = Ok n' -> wf n' = true.
Proof.
  revert n n'. induction p as [|x p IH]; intros n n' Hwf.
  - destruct n; simpl; [intros [= <-]; reflexivity | discriminate].
  - destruct n as [c0|kids]; simpl; [discriminate|].
    destruct (assoc x kids) as [child|] eqn:Ex.
    + destruct (extract_member p c child) as [child'|e] eqn:Ew; simpl;
        [|discriminate].
      intros [= <-]. apply wf_set_kid; [assumption|].
      eapply IH; [|exact Ew]. eapply wf_kid; eauto.
    + match goal with
      | |- context [extract_member p c ?fresh] =>
          destruct (extract_member p c fresh) as [child'|e] eqn:Ew;
            simpl; [|discriminate]
      end.
      intros [= <-]. apply wf_set_kid; [assumption|].
      eapply IH; [|exact Ew]. destruct p; reflexivity.
Qed.

(** An operation below [a] is the operation on the subtree at [a]. *)
Lemma write_file_focus a b c n n' t :
  lookup n a = Some t ->
  write_file (a ++ b) c n = Ok n' ->
  exists t', write_file b c t = Ok t' /\ lookup n' a = Some t'.
Proof.
  revert n n'. induction a as [|x a IH]; intros n n'; simpl.
  - intros [= <-] H. now exists n'.
  - destruct n as [c0|kids]; [discriminate|].
    destruct (assoc x kids) as [child|] eqn:Ex; [|discriminate].
    intros Ht.
    destruct (write_file (a ++ b) c child) as [child'|e] eqn:Ew; simpl;
      [|discriminate].
    intros [= <-]. destruct (IH _ _ Ht Ew) as [t' [H1 H2]].
    exists t'. split; [exact H1|]. simpl. now rewrite assoc_set_kid_same.
Qed.

Lemma extract_member_focus a b c n n' t :
  lookup n a = Some t ->
  extract_member (a ++ b) c n = Ok n' ->
  exists t', extract_member b c t = Ok t' /\ lookup n' a = Some t'.
Proof.
  revert n n'. induction a as [|x a IH]; intros n n'; simpl.
  - intros [= <-] H. now exists n'.
  - destruct n as [c0|kids]; [discriminate|].
    destruct (assoc x kids) as [child|] eqn:Ex; [|discriminate].
    intros Ht.
    destruct (extract_member (a ++ b) c child) as [child'|e] eqn:Ew; simpl;
      [|discriminate].
    intros [= <-]. destruct (IH _ _ Ht Ew) as [t' [H1 H2]].
    exists t'. split; [exact H1|]. simpl. now rewrite assoc_set_kid_same.
Qed.

Lemma walk_node_dir kids root :
  walk_node (Dir kids) root =
  (root, dirnames kids, filenames kids) ::
  flat_map (fun xn => walk_node (snd xn) (root ++ [fst xn])) kids.
Proof.
  simpl. f_equal.
  induction kids as [|[x c] kids IH]; simpl; [reflexivity | now rewrite IH].
Qed.

Lemma walk_paths_app w1 w2 :
  walk_paths (w1 ++ w2) = walk_paths w1 ++ walk_paths w2.
Proof. unfold walk_paths. apply flat_map_app. Qed.

Lemma walk_paths_cons root dirs files w :
  walk_paths ((root, dirs, files) :: w) =
  map (fun file => root ++ [file]) files ++ walk_paths w.
Proof. reflexivity. Qed.

Lemma filenames_in x c kids :
  assoc x kids = Some (File c) -> In x (filenames kids).
Proof.
  unfold filenames. intros H. apply in_map_iff.
  exists (x, File c). split; [reflexivity|].
  apply filter_In. split; [now apply assoc_in | reflexivity].
Qed.

Lemma distinct_assoc x n kids :
  distinct (map fst kids) = true -> In (x, n) kids -> assoc x kids = Some n.
Proof.
  induction kids as [|[y m] kids IH]; simpl; [contradiction|].
  intros Hd Hin. apply andb_true_iff in Hd as [Hy Hd].
  destruct Hin as [[= -> ->]|Hin].
  - now rewrite String.eqb_refl.
  - destruct (String.eqb_spec x y) as [->|Hxy]; [|auto].
    exfalso. apply negb_true_iff in Hy.
    assert (existsb (String.eqb y) (map fst kids) = true); [|congruence].
    apply existsb_exists. exists y. split; [|apply String.eqb_refl].
    apply in_map_iff. now exists (y, n).
Qed.

(** Every regular file below a directory is listed by its walk. *)
Lemma walk_complete rel kids root c :
  file_at (Dir kids) rel = Some c ->
  In (root ++ rel) (walk_paths (walk_node (Dir kids) root)).
Proof.
  revert kids root. induction rel as [|x rel IH]; intros kids root;
    [discriminate|].
  rewrite file_at_cons, walk_node_dir, walk_paths_cons.
  destruct (assoc x kids) as [child|] eqn:Ex; [|discriminate].
  intros H. apply in_or_app.
  destruct child as [c0|kids'].
  - left. destruct rel; [|discriminate].
    injection H as ->. apply in_map_iff. exists x. split; [reflexivity|].
    eapply filenames_in; eauto.
  - right. unfold walk_paths. apply in_flat_map.
    assert (Hin : In (root ++ x :: rel)
                     (walk_paths (walk_node (Dir kids') (root ++ [x])))).
    { replace (root ++ x :: rel) with ((root ++ [x]) ++ rel)
        by now rewrite <- app_assoc.
      now apply IH. }
    unfold walk_paths in Hin. apply in_flat_map in Hin as [t [Ht Hp]].
    exists t. split; [|exact Hp].
    apply in_flat_map. exists (x, Dir kids'). split; [|exact Ht].
    now apply assoc_in.
Qed.

(** In a well-formed tree a walk lists regular files only, each below
    the top of the walk. *)
Lemma walk_sound n root p :
  wf n = true ->
  In p (walk_paths (walk_node n root)) ->
  exists rel c, p = root ++ rel /\ file_at n rel = Some c.
Proof.
  revert root p. induction n as [c0|kids IH] using node_ind2;
    intros root p Hwf; [contradiction|].
  rewrite walk_node_dir, walk_paths_cons.
  pose proof Hwf as Hwf'. simpl in Hwf'.
  apply andb_true_iff in Hwf' as [Hd Hall].
  intros Hin. apply in_app_or in Hin as [Hin|Hin].
  - apply in_map_iff in Hin as [f [<- Hf]].
    unfold filenames in Hf. apply in_map_iff in Hf as [[f' m] [Hf' Hm]].
    simpl in Hf'. subst f'. apply filter_In in Hm as [Hm Hfile].
    destruct m as [c|]; [|discriminate].
    exists [f], c. split; [reflexivity|].
    now rewrite file_at_cons, (distinct_assoc _ _ _ Hd Hm).
  - unfold walk_paths in Hin. apply in_flat_map in Hin as [t [Ht Hp]].
    apply in_flat_map in Ht as [[x child] [Hx Ht]]. simpl in Ht.
    rewrite Forall_forall in IH.
    destruct (IH _ Hx (root ++ [x]) p) as [rel [c [-> Hc]]].
    + rewrite forallb_forall in Hall. exact (Hall _ Hx).
    + unfold walk_paths. apply in_flat_map. now exists t.
    + exists (x :: rel), c. split; [now rewrite <- app_assoc|].
      now rewrite file_at_cons, (distinct_assoc _ _ _ Hd Hx).
Qed.

(* ================================================================== *)
(** ** Creating and removing directories *)

Lemma shutil_rmtree_lookup p n n' :
  shutil_rmtree p n = Ok n' -> lookup n' p = None.
Proof.
  revert n n'. induction p as [|x p IH]; intros n n'.
  - destruct n; discriminate.
  - destruct n as [c0|kids]; simpl; [discriminate|].
    destruct (assoc x kids) as [child|] eqn:Ex; [|discriminate].
    destruct p as [|y p].
    + destruct child; [discriminate|]. intros [= <-].
      simpl. now rewrite assoc_del_kid_same.
    + destruct (shutil_rmtree (y :: p) child) as [child'|e] eqn:Er; simpl;
        [|discriminate].
      intros [= <-]. cbn [lookup]. rewrite assoc_set_kid_same.
      exact (IH _ _ Er).
Qed.

Lemma shutil_rmtree_frame p n n' :
  shutil_rmtree p n = Ok n' ->
  forall q, is_prefix p q = false -> file_at n' q = file_at n q.
Proof.
  revert n n'. induction p as [|x p IH]; intros n n'.
  - destruct n; discriminate.
  - destruct n as [c0|kids]; simpl; [discriminate|].
    destruct (assoc x kids) as [child|] eqn:Ex; [|discriminate].
    destruct p as [|y p].
    + destruct child; [discriminate|]. intros [= <-] [|z q] Hq;
        [reflexivity|].
      rewrite !file_at_cons. simpl in Hq.
      destruct (String.eqb_spec x z) as [->|Hxz]; [discriminate|].
      now rewrite assoc_del_kid_other.
    + destruct (shutil_rmtree (y :: p) child) as [child'|e] eqn:Er; simpl;
        [|discriminate].
      intros [= <-] [|z q] Hq; [reflexivity|].
      rewrite !file_at_cons. cbn [is_prefix] in Hq.
      destruct (String.eqb_spec x z) as [<-|Hxz].
      * rewrite assoc_set_kid_same, Ex. apply (IH _ _ Er). exact Hq.
      * now rewrite assoc_set_kid_other.
Qed.

Lemma shutil_rmtree_dir_ok p n :
  p <> [] -> is_dir n p = true -> exists n', shutil_rmtree p n = Ok n'.
Proof.
  revert n. induction p as [|x p IH]; intros n Hp; [congruence|].
  destruct n as [c0|kids]; [discriminate|].
  rewrite is_dir_cons. simpl.
  destruct (assoc x kids) as [child|]; [|discriminate].
  destruct p as [|y p].
  - unfold is_dir. simpl. destruct child; [discriminate|].
    intros _. eexists; reflexivity.
  - intros H. destruct (IH child) as [child' ->]; [congruence | exact H|].
    simpl. eexists; reflexivity.
Qed.

Lemma shutil_rmtree_cons y p kids :
  p <> [] ->
  shutil_rmtree (y :: p) (Dir kids) =
  match assoc y kids with
  | None => Raise FileNotFoundError
  | Some child =>
      rbind (shutil_rmtree p child)
            (fun child' => Ok (Dir (set_kid y child' kids)))
  end.
Proof. intros Hp. destruct p; [congruence | reflexivity]. Qed.

Lemma shutil_rmtree_parent d x n n' :
  shutil_rmtree (d ++ [x]) n = Ok n' -> is_dir n' d = true.
Proof.
  revert n n'. induction d as [|y d IH]; intros n n'.
  - simpl. destruct n as [c0|kids]; [discriminate|].
    destruct (assoc x kids) as [[c|k]|]; try discriminate.
    intros [= <-]. reflexivity.
  - destruct n as [c0|kids]; [discriminate|].
    rewrite <- app_comm_cons, shutil_rmtree_cons by (destruct d; discriminate).
    destruct (assoc y kids) as [child|] eqn:Ey; [|discriminate].
    destruct (shutil_rmtree (d ++ [x]) child) as [child'|e] eqn:Er; simpl;
      [|discriminate].
    intros [= <-]. rewrite is_dir_cons, assoc_set_kid_same.
    exact (IH _ _ Er).
Qed.

Lemma lookup_mkchain p : lookup (mkchain p) p = Some (Dir []).
Proof.
  induction p as [|x p IH]; simpl; [reflexivity|].
  now rewrite String.eqb_refl.
Qed.

Lemma file_at_mkchain p q : file_at (mkchain p) q = None.
Proof.
  revert q. induction p as [|x p IH]; intros q.
  - apply file_at_empty_dir.
  - destruct q as [|y q]; [reflexivity|].
    change (mkchain (x :: p)) with (Dir [(x, mkchain p)]).
    rewrite file_at_cons. simpl.
    destruct (String.eqb y x); [apply IH | reflexivity].
Qed.

(** A successful [os.makedirs(p)] leaves an empty directory at [p]. *)
Lemma os_makedirs_lookup p n n' :
  os_makedirs p false n = Ok n' -> lookup n' p = Some (Dir []).
Proof.
  revert n n'. induction p as [|x p IH]; intros n n'.
  - destruct n; discriminate.
  - destruct n as [c0|kids]; simpl; [discriminate|].
    destruct (assoc x kids) as [child|] eqn:Ex.
    + destruct (os_makedirs p false child) as [child'|e] eqn:Em; simpl;
        [|discriminate].
      intros [= <-]. rewrite assoc_set_kid_same. exact (IH _ _ Em).
    + intros [= <-]. rewrite assoc_set_kid_same. apply lookup_mkchain.
Qed.

Lemma os_makedirs_frame p b n n' :
  os_makedirs p b n = Ok n' -> forall q, file_at n' q = file_at n q.
Proof.
  revert n n'. induction p as [|x p IH]; intros n n'.
  - destruct n; simpl; [discriminate|].
    destruct b; [intros [= <-]; reflexivity | discriminate].
  - destruct n as [c0|kids]; simpl; [discriminate|].
    destruct (assoc x kids) as [child|] eqn:Ex.
    + destruct (os_makedirs p b child) as [child'|e] eqn:Em; simpl;
        [|discriminate].
      intros [= <-] [|y q]; [reflexivity|]. rewrite !file_at_cons.
      destruct (String.eqb_spec x y) as [<-|Hxy].
      * rewrite assoc_set_kid_same, Ex. exact (IH _ _ Em q).
      * now rewrite assoc_set_kid_other.
    + intros [= <-] [|y q]; [reflexivity|]. rewrite !file_at_cons.
      destruct (String.eqb_spec x y) as [<-|Hxy].
      * rewrite assoc_set_kid_same, Ex. apply file_at_mkchain.
      * now rewrite assoc_set_kid_other.
Qed.

Lemma os_makedirs_ok d x n :
  is_dir n d = true -> lookup n (d ++ [x]) = None ->
  exists n', os_makedirs (d ++ [x]) false n = Ok n'.
Proof.
  revert n. induction d as [|y d IH]; intros n.
  - destruct n as [c0|kids]; [discriminate|]. simpl.
    destruct (assoc x kids); [discriminate|]. intros _ _.
    eexists; reflexivity.
  - destruct n as [c0|kids]; [discriminate|].
    rewrite is_dir_cons. simpl.
    destruct (assoc y kids) as [child|]; [|discriminate].
    intros Hd Hl. destruct (IH _ Hd Hl) as [child' ->]. simpl.
    eexists; reflexivity.
Qed.

(* ================================================================== *)
(** ** The Normalizer and the scratch directories *)

Lemma bind_ok_inv {A B} (m : M A) (k : A -> M B) s b s' :
  (x <- m ;; k x) s = (Ok b, s') ->
  exists a s1, m s = (Ok a, s1) /\ k a s1 = (Ok b, s').
Proof.
  unfold bind. destruct (m s) as [[a|e] s1]; [|discriminate].
  intros H. now exists a, s1.
Qed.

Lemma modify_ok_inv u s s' :
  modify u s = (Ok tt, s') -> u (fs s) = Ok (fs s') /\ out s' = out s.
Proof.
  unfold modify. destruct (u (fs s)) as [n|e]; [|discriminate].
  intros [= <-]. split; reflexivity.
Qed.

Lemma print_fs m r s s' : print m s = (r, s') -> fs s' = fs s.
Proof. unfold print. now intros [= _ <-]. Qed.



(** C2: for every directory the Normalizer raises [NameError] on the
    name [glob], which no import binds, and leaves the file system and
    the console as they were: nothing is extracted, moved or deleted. *)
Theorem unzip_and_organize_name_error data_folder s :
  existsb (String.eqb "glob") module_globals = false /\
  unzip_and_organize data_folder s = (Raise (NameError "glob"), s).
Proof. split; reflexivity. Qed.

(** C6, on the code: in the scenario of the claim the Normalizer raises
    [NameError]; [D/foo.zip] is still there and [D/foo/a.txt] is not. *)
Theorem normalizer_scenario_foo :
  unzip_and_organize ["D"] (mkState fs_foo []) =
  (Raise (NameError "glob"), mkState fs_foo []) /\
  is_file fs_foo ["D"; "foo.zip"] = true /\
  file_at fs_foo ["D"; "foo"; "a.txt"] = None.
Proof. repeat split. Qed.

(** The same scenario in a module that binds [glob]: the loop body does
    what the scenario expects. *)
Lemma scenario_foo_with_glob_bound :
  let s' := snd (unzip_and_organize_in ("glob" :: module_globals) ["D"]
                                       (mkState fs_foo [])) in
  os_path_exists (fs s') ["D"; "foo.zip"] = false /\
  file_at (fs s') ["D"; "foo"; "a.txt"] = Some (Malformed "hello") /\
  os_path_exists (fs s') ["D"; "temp_extraction"] = false.
Proof. repeat split. Qed.

Lemma first_with_suffix_none suffix (w : walk_t) :
  (forall root dirs files file,
      In (root, dirs, files) w -> In file files ->
      endswith file suffix = false) ->
  first_with_suffix suffix w = None.
Proof.
  induction w as [|[[root dirs] files] w IH]; intros H; simpl;
    [reflexivity|].
  destruct (find (fun file => endswith file suffix) files) as [f|] eqn:Ef.
  - apply find_some in Ef as [Hin Hf].
    rewrite (H root dirs files f (or_introl eq_refl) Hin) in Hf.
    discriminate.
  - apply IH. intros r ds fl f Hin. apply (H r ds fl f). now right.
Qed.

(** C7: when the walk of the directory lists no file whose name ends
    in [-GC.zip], the Patcher and the Analyzer both return normally,
    having printed the not-found line and left every file-system entry
    as it was. *)
Theorem no_gc_archive_untouched d X Y s :
  (forall root dirs files file,
      In (root, dirs, files) (os_walk (fs s) d) -> In file files ->
      endswith file "-GC.zip" = false) ->
  update_gc_zip_annotation d X Y s =
  (Ok tt, mkState (fs s) (out s ++ [MsgNoZip])) /\
  analyze_annotations d s = (Ok tt, mkState (fs s) (out s ++ [MsgNoZip])).
Proof.
  intros H. apply first_with_suffix_none in H.
  unfold update_gc_zip_annotation, analyze_annotations, locate_gc_zip.
  rewrite !bind_ask, H. split; reflexivity.
Qed.

Lemma no_gc_archive_untouched_witness :
  update_gc_zip_annotation ["data"] "X" "Y" (mkState fs_no_gc []) =
  (Ok tt, mkState fs_no_gc ([] ++ [MsgNoZip])) /\
  analyze_annotations ["data"] (mkState fs_no_gc []) =
  (Ok tt, mkState fs_no_gc ([] ++ [MsgNoZip])).
Proof.
  apply (@no_gc_archive_untouched ["data"] "X" "Y" (mkState fs_no_gc [])).
  intros root dirs files file Hin Hf. simpl in Hin.
  destruct Hin as [[= <- <- <-]|[[= <- <- <-]|[]]]; simpl in Hf.
  - destruct Hf as [<-|[]]. reflexivity.
  - destruct Hf as [<-|[]]. reflexivity.
Defined.






(* ================================================================== *)
(** ** Writing an archive *)

Lemma read_file_file_at fs p c :
  file_at fs p = Some c -> read_file fs p = Ok c.
Proof.
  unfold file_at, read_file.
  destruct (lookup fs p) as [[c'|k]|]; congruence.
Qed.

Lemma zip_add_files_all items acc fs :
  (forall p arc, In (p, arc) items -> exists c, file_at fs p = Some c) ->
  zip_add_files items acc fs = (acc ++ read_all fs items, None).
Proof.
  revert acc. induction items as [|[p arc] items IH]; intros acc H; simpl.
  - now rewrite app_nil_r.
  - destruct (H p arc (or_introl eq_refl)) as [c Hc].
    rewrite (read_file_file_at _ _ _ Hc), Hc. rewrite IH.
    + now rewrite <- app_assoc.
    + intros q a Hq. apply (H q a). now right.
Qed.

Lemma read_all_in fs items arc c :
  In (arc, c) (read_all fs items) <->
  exists p, In (p, arc) items /\ file_at fs p = Some c.
Proof.
  unfold read_all. rewrite in_flat_map. split.
  - intros [[p a] [Hin H]]. simpl in H.
    destruct (file_at fs p) as [c'|] eqn:E; [|contradiction].
    destruct H as [[= -> ->]|[]]. now exists p.
  - intros [p [Hin H]]. exists (p, arc). split; [exact Hin|].
    simpl. rewrite H. now left.
Qed.

Lemma write_file_lookup_other p c n n' a :
  write_file p c n = Ok n' ->
  is_prefix a p = false ->
  lookup n' a = lookup n a.
Proof.
  revert n n' a. induction p as [|x p IH]; intros n n' a.
  - destruct n as [c0|kids]; simpl; [|discriminate].
    intros [= <-]. destruct a; [discriminate | reflexivity].
  - destruct n as [c0|kids]; simpl; [discriminate|].
    destruct (assoc x kids) as [child|] eqn:Ex.
    + destruct (write_file p c child) as [child'|e] eqn:Ew; simpl;
        [|discriminate].
      intros [= <-]. destruct a as [|y a]; [discriminate|].
      cbn [is_prefix lookup].
      destruct (String.eqb_spec y x) as [->|Hyx]; simpl.
      * rewrite assoc_set_kid_same, Ex. exact (IH _ _ _ Ew).
      * intros _. rewrite assoc_set_kid_other by congruence. reflexivity.
    + destruct p; [|discriminate].
      intros [= <-]. destruct a as [|y a]; [discriminate|].
      cbn [is_prefix lookup].
      destruct (String.eqb_spec y x) as [->|Hyx]; simpl.
      * rewrite assoc_set_kid_same, Ex. destruct a; [discriminate|].
        reflexivity.
      * intros _. rewrite assoc_set_kid_other by congruence. reflexivity.
Qed.

(** Writing an archive over an existing file: the file is emptied, the
    listed files are read, and the archive is closed with them. *)
Lemma with_zip_w_ok zp items s c0 :
  file_at (fs s) zp = Some c0 ->
  (forall fs1, write_file zp (Malformed "") (fs s) = Ok fs1 ->
               forall p arc, In (p, arc) (items fs1) ->
                             exists c, file_at fs1 p = Some c) ->
  exists fs1 fs2,
    write_file zp (Malformed "") (fs s) = Ok fs1 /\
    write_file zp (ZipData (read_all fs1 (items fs1))) fs1 = Ok fs2 /\
    with_zip_w zp items s = (Ok tt, mkState fs2 (out s)) /\
    file_at fs2 zp = Some (ZipData (read_all fs1 (items fs1))) /\
    (forall q, q <> zp -> file_at fs2 q = file_at (fs s) q) /\
    (forall a, is_prefix a zp = false -> lookup fs2 a = lookup (fs s) a).
Proof.
  intros Hzp Hread.
  destruct (write_file_ok zp (Malformed "") _ _ Hzp) as [fs1 H1].
  destruct (write_file_spec _ _ _ _ H1) as [H1a H1b].
  destruct (write_file_ok zp (ZipData (read_all fs1 (items fs1))) _ _ H1a)
    as [fs2 H2].
  destruct (write_file_spec _ _ _ _ H2) as [H2a H2b].
  exists fs1, fs2. split; [exact H1|]. split; [exact H2|].
  split; [|split; [|split]].
  - unfold with_zip_w, bind, modify, ask. rewrite H1. simpl.
    rewrite (zip_add_files_all _ [] _ (Hread fs1 H1)). simpl.
    rewrite H2. reflexivity.
  - exact H2a.
  - intros q Hq. now rewrite H2b, H1b.
  - intros a Ha.
    now rewrite (write_file_lookup_other _ _ _ _ _ H2 Ha),
      (write_file_lookup_other _ _ _ _ _ H1 Ha).
Qed.

(* ================================================================== *)
(** ** The Packager *)

Lemma relpath_app a b : relpath (a ++ b) a = b.
Proof.
  induction a as [|x a IH]; simpl.
  - now destruct b.
  - now rewrite String.eqb_refl.
Qed.

Lemma wf_lookup p n t : wf n = true -> lookup n p = Some t -> wf t = true.
Proof.
  revert n. induction p as [|x p IH]; intros n Hwf; simpl.
  - now intros [= <-].
  - destruct n as [c0|kids]; [discriminate|].
    destruct (assoc x kids) as [child|] eqn:Ex; [|discriminate].
    apply IH. eapply wf_kid; eauto.
Qed.

Lemma walk_paths_in p (w : walk_t) :
  In p (walk_paths w) <->
  exists root dirs files f,
    In (root, dirs, files) w /\ In f files /\ p = root ++ [f].
Proof.
  unfold walk_paths. rewrite in_flat_map. split.
  - intros [[[root dirs] files] [Hin Hp]]. simpl in Hp.
    apply in_map_iff in Hp as [f [<- Hf]]. now exists root, dirs, files, f.
  - intros [root [dirs [files [f [Hin [Hf ->]]]]]].
    exists (root, dirs, files). split; [exact Hin|].
    simpl. apply in_map_iff. now exists f.
Qed.

Lemma files_to_zip_in top fs p arc :
  In (p, arc) (files_to_zip top fs) <->
  exists root dirs files f,
    In (root, dirs, files) (os_walk fs top) /\ In f files /\
    String.eqb f "holder.gitignore" = false /\
    p = root ++ [f] /\ arc = relpath p top.
Proof.
  unfold files_to_zip. rewrite in_flat_map. split.
  - intros [[[root dirs] files] [Hin Hp]].
    apply in_map_iff in Hp as [f [[= <- <-] Hf]].
    apply filter_In in Hf as [Hf Hne]. apply negb_true_iff in Hne.
    now exists root, dirs, files, f.
  - intros [root [dirs [files [f [Hin [Hf [Hne [-> ->]]]]]]]].
    exists (root, dirs, files). split; [exact Hin|].
    apply in_map_iff. exists f. split; [reflexivity|].
    apply filter_In. split; [exact Hf | now rewrite Hne].
Qed.

Lemma last_app_nonempty (a b : list string) d :
  b <> [] -> last (a ++ b) d = last b d.
Proof.
  intros Hb. induction a as [|x a IH]; [reflexivity|].
  simpl. destruct (a ++ b) eqn:E; [|exact IH].
  destruct a; [simpl in E; congruence | discriminate].
Qed.

(** What [os.walk] lists below an existing directory of a well-formed
    tree are regular files. *)
Lemma os_walk_sound fs top p :
  wf fs = true ->
  In p (walk_paths (os_walk fs top)) ->
  exists rel c, p = top ++ rel /\ file_at fs p = Some c.
Proof.
  intros Hwf. unfold os_walk.
  destruct (lookup fs top) as [t|] eqn:El; [|contradiction].
  intros Hin.
  destruct (walk_sound t top p (wf_lookup _ _ _ Hwf El) Hin)
    as [rel [c [-> Hc]]].
  exists rel, c. split; [reflexivity|].
  now rewrite (file_at_app _ _ rel _ El).
Qed.




(* ================================================================== *)
(** ** Setting the two fields of a document *)

Lemma dict_get_set_same k v d : dict_get k (dict_set k v d) = Some v.
Proof.
  induction d as [|[k' v'] d IH]; simpl.
  - now rewrite String.eqb_refl.
  - destruct (String.eqb k k') eqn:E; simpl; rewrite E; auto.
Qed.

Lemma dict_get_set_other k k' v d :
  k <> k' -> dict_get k' (dict_set k v d) = dict_get k' d.
Proof.
  intros Hk. induction d as [|[k0 v0] d IH]; simpl.
  - destruct (String.eqb_spec k' k); congruence.
  - destruct (String.eqb_spec k k0) as [->|Hk0]; simpl.
    + destruct (String.eqb_spec k' k0); congruence.
    + destruct (String.eqb_spec k' k0); auto.
Qed.

Lemma dict_set_present k v d : dict_get k d = Some v -> dict_set k v d = d.
Proof.
  induction d as [|[k' v'] d IH]; simpl; [discriminate|].
  destruct (String.eqb_spec k k') as [->|Hk].
  - now intros [= ->].
  - intros H. now rewrite IH.
Qed.

Lemma dict_set_keys k v d :
  dict_mem k d = true -> map fst (dict_set k v d) = map fst d.
Proof.
  unfold dict_mem. induction d as [|[k' v'] d IH]; simpl; [discriminate|].
  destruct (String.eqb k k'); simpl; [reflexivity|].
  intros H. now rewrite IH.
Qed.

(** What [set_nested] returns is left alone by a second [set_nested]. *)
Lemma set_nested_settled outer inner v data data' :
  set_nested outer inner v data = Ok data' ->
  set_nested outer inner v data' = Ok data'.
Proof.
  unfold set_nested.
  destruct data as [| b | n | f | s | items | d]; simpl; try discriminate.
  - destruct (str_contains outer s) eqn:E; simpl; [discriminate|].
    intros [= <-]. simpl. now rewrite E.
  - destruct (list_mem_str outer items) eqn:E; simpl; [discriminate|].
    intros [= <-]. simpl. now rewrite E.
  - unfold dict_mem. destruct (dict_get outer d) as [sub|] eqn:E; simpl.
    + destruct sub as [| b | n | f | s | items | a]; intros [= <-]; simpl;
        unfold dict_mem; try (now rewrite E; simpl).
      rewrite dict_get_set_same. simpl.
      rewrite (dict_set_present inner (JStr v)
                                (dict_set inner (JStr v) a))
        by apply dict_get_set_same.
      now rewrite dict_set_present by apply dict_get_set_same.
    + intros [= <-]. simpl. unfold dict_mem. now rewrite E.
Qed.

(** Setting another top-level field keeps a settled field settled. *)
Lemma set_nested_keeps o1 i1 v1 o2 i2 v2 data data' :
  o1 <> o2 ->
  set_nested o1 i1 v1 data = Ok data ->
  set_nested o2 i2 v2 data = Ok data' ->
  set_nested o1 i1 v1 data' = Ok data'.
Proof.
  intros Ho H1. unfold set_nested at 1.
  destruct data as [| b | n | f | s | items | d]; simpl; try discriminate.
  - destruct (str_contains o2 s); simpl; [discriminate|].
    now intros [= <-].
  - destruct (list_mem_str o2 items); simpl; [discriminate|].
    now intros [= <-].
  - unfold dict_mem. destruct (dict_get o2 d) as [sub|] eqn:E2; simpl;
      [|now intros [= <-]].
    destruct sub as [| b | n | f | s | items | a]; intros [= <-];
      try exact H1.
    revert H1. unfold set_nested. simpl. unfold dict_mem.
    rewrite (dict_get_set_other o2 o1) by congruence.
    destruct (dict_get o1 d) as [sub1|] eqn:E1; simpl; [|reflexivity].
    destruct sub1 as [| b | n | f | s | items | a1]; try reflexivity.
    intros [= H1]. f_equal. f_equal.
    apply dict_set_present.
    rewrite (dict_get_set_other o2 o1) by congruence.
    rewrite <- H1 at 1. apply dict_get_set_same.
Qed.

(** What [json.load] returns holds no integer of more than 4300 digits,
    and setting a string field keeps it so. *)
Lemma json_loads_ok j d :
  json_loads j = Ok d -> d = j /\ has_long_int j = false.
Proof.
  unfold json_loads. destruct (has_long_int j); [discriminate|].
  now intros [= <-].
Qed.

Lemma json_loads_short j : has_long_int j = false -> json_loads j = Ok j.
Proof. unfold json_loads. now intros ->. Qed.

Lemma json_load_text_ok c d :
  json_load_text c = Ok d ->
  has_long_int d = false /\ exists l, c = JsonText l d.
Proof.
  destruct c as [l j | e l j | t | b | b e1 e2 | es]; simpl;
    try discriminate.
  intros H. destruct (json_loads_ok j d H) as [-> Hl].
  split; [exact Hl | now exists l].
Qed.

Lemma has_long_int_dict_get k d v :
  dict_get k d = Some v ->
  has_long_int (JObj d) = false -> has_long_int v = false.
Proof.
  induction d as [|[k' v'] d IH]; simpl; [discriminate|].
  intros H Hl. apply orb_false_elim in Hl. destruct Hl as [H1 H2].
  destruct (String.eqb k k'); [now injection H as <- | now apply IH].
Qed.

Lemma has_long_int_dict_set k v d :
  has_long_int v = false ->
  has_long_int (JObj d) = false ->
  has_long_int (JObj (dict_set k v d)) = false.
Proof.
  intros Hv. induction d as [|[k' v'] d IH]; simpl.
  - intros _. now rewrite Hv.
  - intros Hl. apply orb_false_elim in Hl. destruct Hl as [H1 H2].
    destruct (String.eqb k k'); simpl.
    + now rewrite Hv, H2.
    + rewrite H1. now apply IH.
Qed.

Lemma set_nested_short outer inner v data data' :
  set_nested outer inner v data = Ok data' ->
  has_long_int data = false -> has_long_int data' = false.
Proof.
  unfold set_nested.
  destruct data as [| b | n | f | s | items | d]; simpl; try discriminate.
  - destruct (str_contains outer s); simpl; [discriminate|].
    now intros [= <-].
  - destruct (list_mem_str outer items); simpl; [discriminate|].
    now intros [= <-].
  - unfold dict_mem. destruct (dict_get outer d) as [sub|] eqn:E; simpl;
      [|now intros [= <-]].
    destruct sub as [| b | n | f | s | items | a]; intros [= <-] Hl;
      try exact Hl.
    apply has_long_int_dict_set; [|exact Hl].
    apply has_long_int_dict_set; [reflexivity|].
    exact (has_long_int_dict_get outer d (JObj a) E Hl).
Qed.

Section Patch.

Variables annotation_name sequence_location : string.

(** Patching a patched file gives the same file. *)
Lemma patch_content_idem c c' :
  patch_content annotation_name sequence_location c = Ok c' ->
  patch_content annotation_name sequence_location c' = Ok c'.
Proof.
  unfold patch_content.
  destruct (json_load_text c) as [d0|e] eqn:E0; simpl; [|discriminate].
  destruct (json_load_text_ok c d0 E0) as [L0 _].
  destruct (set_nested "annotations" "name" annotation_name d0)
    as [d1|e] eqn:E1; simpl; [|discriminate].
  destruct (set_nested "sequence" "location" sequence_location d1)
    as [d2|e] eqn:E2; simpl; [|discriminate].
  pose proof (set_nested_short _ _ _ _ _ E1 L0) as L1.
  pose proof (set_nested_short _ _ _ _ _ E2 L1) as L2.
  intros [= <-]. unfold json_dump. cbn [json_load_text].
  rewrite (json_loads_short d2 L2). cbn [rbind].
  rewrite (set_nested_keeps "annotations" "name" annotation_name
                            "sequence" "location" sequence_location d1 d2);
    [simpl | discriminate | eapply set_nested_settled; eauto | exact E2].
  now rewrite (set_nested_settled _ _ _ _ _ E2).
Qed.


(** A document with [annotations] and [sequence] objects: the patched
    file parses to the document with the two fields set and every other
    top-level field as it was, keys in the same order. *)
Lemma patch_content_objects l fields a q :
  has_long_int (JObj fields) = false ->
  dict_get "annotations" fields = Some (JObj a) ->
  dict_get "sequence" fields = Some (JObj q) ->
  exists fields',
    patch_content annotation_name sequence_location (JsonText l (JObj fields))
    = Ok (JsonText Indent4 (JObj fields')) /\
    dict_get "annotations" fields' =
      Some (JObj (dict_set "name" (JStr annotation_name) a)) /\
    dict_get "sequence" fields' =
      Some (JObj (dict_set "location" (JStr sequence_location) q)) /\
    map fst fields' = map fst fields /\
    forall k, k <> "annotations" -> k <> "sequence" ->
              dict_get k fields' = dict_get k fields.
Proof.
  intros Hl Ha Hq.
  set (f1 := dict_set "annotations"
                      (JObj (dict_set "name" (JStr annotation_name) a))
                      fields).
  assert (Hq1 : dict_get "sequence" f1 = Some (JObj q)).
  { unfold f1. rewrite dict_get_set_other by discriminate. exact Hq. }
  exists (dict_set "sequence"
                   (JObj (dict_set "location" (JStr sequence_location) q))
                   f1).
  split; [|split; [|split; [|split]]].
  - unfold patch_content. cbn [json_load_text].
    rewrite (json_loads_short _ Hl). unfold set_nested. simpl.
    unfold dict_mem.
    rewrite Ha. simpl. fold f1. unfold dict_mem. rewrite Hq1. reflexivity.
  - rewrite dict_get_set_other by discriminate.
    unfold f1. apply dict_get_set_same.
  - apply dict_get_set_same.
  - rewrite dict_set_keys by (unfold dict_mem; now rewrite Hq1).
    unfold f1. apply dict_set_keys. unfold dict_mem. now rewrite Ha.
  - intros k Hk1 Hk2. rewrite dict_get_set_other by congruence.
    unfold f1. apply dict_get_set_other. congruence.
Qed.

End Patch.

(* ================================================================== *)
(** ** Directories stay directories *)

Lemma extract_member_keeps_dir name c kids t' :
  extract_member name c (Dir kids) = Ok t' -> exists kids', t' = Dir kids'.
Proof.
  destruct name as [|x name]; simpl; [discriminate|].
  destruct (assoc x kids) as [child|].
  - destruct (extract_member name c child); simpl; [|discriminate].
    intros [= <-]. eexists; reflexivity.
  - match goal with
    | |- context [extract_member name c ?fresh] =>
        destruct (extract_member name c fresh); simpl; [|discriminate]
    end.
    intros [= <-]. eexists; reflexivity.
Qed.

Lemma write_file_keeps_dir p c kids t' :
  write_file p c (Dir kids) = Ok t' -> exists kids', t' = Dir kids'.
Proof.
  destruct p as [|x p]; simpl; [discriminate|].
  destruct (assoc x kids) as [child|].
  - destruct (write_file p c child); simpl; [|discriminate].
    intros [= <-]. eexists; reflexivity.
  - destruct p; [|discriminate]. intros [= <-]. eexists; reflexivity.
Qed.


(* ================================================================== *)
(** ** What the scratch directory leaves behind *)

Lemma set_kid_set_kid x v w kids :
  set_kid x v (set_kid x w kids) = set_kid x v kids.
Proof.
  induction kids as [|[y m] kids IH]; simpl.
  - now rewrite String.eqb_refl.
  - destruct (String.eqb x y) eqn:E; simpl; rewrite E;
      [reflexivity | now rewrite IH].
Qed.

Lemma del_kid_set_kid_same x v kids :
  del_kid x (set_kid x v kids) = del_kid x kids.
Proof.
  unfold del_kid. induction kids as [|[y m] kids IH]; simpl.
  - now rewrite String.eqb_refl.
  - destruct (String.eqb x y) eqn:E; simpl; rewrite E; simpl;
      [reflexivity | now rewrite IH].
Qed.

Lemma del_kid_absent x kids : assoc x kids = None -> del_kid x kids = kids.
Proof.
  unfold del_kid. induction kids as [|[y m] kids IH]; simpl; [reflexivity|].
  destruct (String.eqb x y); [discriminate|]. simpl.
  intros H. now rewrite IH.
Qed.

Lemma set_kid_present_same x c kids :
  assoc x kids = Some c -> set_kid x c kids = kids.
Proof.
  induction kids as [|[y m] kids IH]; simpl; [discriminate|].
  destruct (String.eqb_spec x y) as [->|Hxy].
  - now intros [= ->].
  - intros H. now rewrite IH.
Qed.

Lemma del_kid_set_kid_other x y v kids :
  x <> y -> del_kid y (set_kid x v kids) = set_kid x v (del_kid y kids).
Proof.
  intros Hxy. unfold del_kid.
  induction kids as [|[z m] kids IH]; simpl.
  - destruct (String.eqb_spec y x); [congruence | reflexivity].
  - destruct (String.eqb_spec x z) as [->|Hxz]; simpl.
    + destruct (String.eqb_spec y z); [congruence|]. simpl.
      now rewrite String.eqb_refl.
    + destruct (String.eqb_spec y z) as [->|Hyz]; simpl.
      * exact IH.
      * destruct (String.eqb_spec x z); [congruence|]. now rewrite IH.
Qed.

Lemma set_kid_comm x y u v cy kids :
  x <> y -> assoc y kids = Some cy ->
  set_kid y u (set_kid x v kids) = set_kid x v (set_kid y u kids).
Proof.
  intros Hxy. induction kids as [|[z m] kids IH]; simpl; [discriminate|].
  destruct (String.eqb_spec y z) as [->|Hyz].
  - intros _. destruct (String.eqb_spec x z); [congruence|]. simpl.
    rewrite String.eqb_refl.
    destruct (String.eqb_spec x z); [congruence | reflexivity].
  - intros H. destruct (String.eqb_spec x z) as [->|Hxz]; simpl.
    + destruct (String.eqb_spec y z); [congruence|].
      now rewrite String.eqb_refl.
    + destruct (String.eqb_spec y z); [congruence|].
      destruct (String.eqb_spec x z); [congruence|]. now rewrite IH.
Qed.

(** Removing the scratch directory forgets what was extracted into it. *)
Lemma rmtree_after_extract a b c n n' kids :
  a <> [] ->
  lookup n a = Some (Dir kids) ->
  extract_member (a ++ b) c n = Ok n' ->
  shutil_rmtree a n' = shutil_rmtree a n.
Proof.
  revert n n'. induction a as [|x a IH]; intros n n' Hne; [congruence|].
  destruct n as [c0|ks]; [discriminate|]. cbn [lookup app].
  destruct (assoc x ks) as [child|] eqn:Ex; [|discriminate].
  intros Hl. cbn [extract_member]. rewrite Ex.
  destruct (extract_member (a ++ b) c child) as [child'|e] eqn:Ew; simpl;
    [|discriminate].
  intros [= <-]. rewrite Ex, assoc_set_kid_same.
  destruct a as [|y a].
  - simpl in Hl, Ew. injection Hl as ->.
    destruct (extract_member_keeps_dir _ _ _ _ Ew) as [k' ->].
    now rewrite del_kid_set_kid_same.
  - rewrite (IH child child') by (congruence || assumption).
    destruct (shutil_rmtree (y :: a) child); simpl; [|reflexivity].
    now rewrite set_kid_set_kid.
Qed.

(** And what was rewritten in it. *)
Lemma rmtree_after_write a b c n n' kids :
  a <> [] ->
  lookup n a = Some (Dir kids) ->
  write_file (a ++ b) c n = Ok n' ->
  shutil_rmtree a n' = shutil_rmtree a n.
Proof.
  revert n n'. induction a as [|x a IH]; intros n n' Hne; [congruence|].
  destruct n as [c0|ks]; [discriminate|]. cbn [lookup app].
  destruct (assoc x ks) as [child|] eqn:Ex; [|discriminate].
  intros Hl. cbn [write_file]. rewrite Ex.
  destruct (write_file (a ++ b) c child) as [child'|e] eqn:Ew; simpl;
    [|discriminate].
  intros [= <-]. rewrite Ex, assoc_set_kid_same.
  destruct a as [|y a].
  - simpl in Hl, Ew. injection Hl as ->.
    destruct (write_file_keeps_dir _ _ _ _ Ew) as [k' ->].
    now rewrite del_kid_set_kid_same.
  - rewrite (IH child child') by (congruence || assumption).
    destruct (shutil_rmtree (y :: a) child); simpl; [|reflexivity].
    now rewrite set_kid_set_kid.
Qed.

(** Removing a directory that was just created gives the tree back. *)
Lemma rmtree_after_makedirs d x n n' :
  is_dir n d = true ->
  lookup n (d ++ [x]) = None ->
  os_makedirs (d ++ [x]) false n = Ok n' ->
  shutil_rmtree (d ++ [x]) n' = Ok n.
Proof.
  revert n n'. induction d as [|y d IH]; intros n n'.
  - destruct n as [c0|kids]; [discriminate|]. simpl.
    destruct (assoc x kids) as [child|] eqn:Ex; [discriminate|].
    intros _ _ [= <-]. rewrite assoc_set_kid_same.
    now rewrite del_kid_set_kid_same, del_kid_absent.
  - destruct n as [c0|kids]; [discriminate|].
    rewrite <- app_comm_cons, is_dir_cons. cbn [lookup os_makedirs].
    destruct (assoc y kids) as [child|] eqn:Ey; [|discriminate].
    intros Hd Hl.
    destruct (os_makedirs (d ++ [x]) false child) as [child'|e] eqn:Em;
      cbn [rbind]; [|discriminate].
    intros [= <-].
    rewrite shutil_rmtree_cons by (destruct d; discriminate).
    rewrite assoc_set_kid_same, (IH _ _ Hd Hl Em). cbn [rbind].
    now rewrite set_kid_set_kid, set_kid_present_same.
Qed.

(** Removing a directory and writing a file elsewhere commute. *)
Lemma rmtree_write_commute zp : forall a c n n' m,
  write_file zp c n = Ok n' ->
  shutil_rmtree a n = Ok m ->
  is_prefix a zp = false ->
  exists m', shutil_rmtree a n' = Ok m' /\ write_file zp c m = Ok m'.
Proof.
  induction zp as [|x zp IH]; intros a c n n' m.
  - intros Hw Hr. destruct n; destruct a; simpl in Hw, Hr; discriminate.
  - destruct n as [c0|kids]; [discriminate|].
    destruct a as [|y a]; [discriminate|].
    intros Hw Hr Hpre. cbn [is_prefix] in Hpre.
    destruct (String.eqb_spec y x) as [->|Hyx].
    + (* both go through the child [x] *)
      simpl in Hpre. cbn [write_file] in Hw.
      destruct a as [|z a]; [discriminate|].
      rewrite shutil_rmtree_cons in Hr by discriminate.
      destruct (assoc x kids) as [child|] eqn:Ex; [|discriminate].
      destruct (write_file zp c child) as [child'|e] eqn:Ew;
        cbn [rbind] in Hw; [|discriminate].
      destruct (shutil_rmtree (z :: a) child) as [mc|e] eqn:Er;
        cbn [rbind] in Hr; [|discriminate].
      injection Hw as <-. injection Hr as <-.
      destruct (IH _ _ _ _ _ Ew Er Hpre) as [m0 [H1 H2]].
      exists (Dir (set_kid x m0 kids)). split.
      * rewrite shutil_rmtree_cons by discriminate.
        rewrite assoc_set_kid_same, H1. cbn [rbind].
        now rewrite set_kid_set_kid.
      * cbn [write_file]. rewrite assoc_set_kid_same, H2. cbn [rbind].
        now rewrite set_kid_set_kid.
    + (* different children *)
      assert (Hxy : x <> y) by congruence.
      assert (Hw' : exists v, n' = Dir (set_kid x v kids) /\
                (forall ks, assoc x ks = assoc x kids ->
                            write_file (x :: zp) c (Dir ks)
                            = Ok (Dir (set_kid x v ks)))).
      { cbn [write_file] in Hw.
        destruct (assoc x kids) as [child|] eqn:Ex.
        - destruct (write_file zp c child) as [child'|e] eqn:Ew;
            cbn [rbind] in Hw; [|discriminate].
          injection Hw as <-. exists child'. split; [reflexivity|].
          intros ks Hks. cbn [write_file]. now rewrite Hks, Ew.
        - destruct zp; [|discriminate]. injection Hw as <-.
          exists (File c). split; [reflexivity|].
          intros ks Hks. cbn [write_file]. now rewrite Hks. }
      destruct Hw' as [v [-> Hwk]].
      cbn [shutil_rmtree] in Hr |- *.
      rewrite (assoc_set_kid_other x y v kids Hxy).
      destruct (assoc y kids) as [cy|] eqn:Ey; [|discriminate].
      destruct a as [|z a].
      * destruct cy as [cf|ky]; [discriminate|]. injection Hr as <-.
        exists (Dir (set_kid x v (del_kid y kids))). split.
        -- now rewrite del_kid_set_kid_other.
        -- apply Hwk. now apply assoc_del_kid_other.
      * destruct (shutil_rmtree (z :: a) cy) as [cy'|e] eqn:Er;
          cbn [rbind] in Hr |- *; [|discriminate].
        injection Hr as <-.
        exists (Dir (set_kid x v (set_kid y cy' kids))). split.
        -- now rewrite (set_kid_comm x y cy' v cy kids Hxy Ey).
        -- apply Hwk. apply assoc_set_kid_other. congruence.
Qed.

Lemma names_set_kid_kind x child child' kids :
  assoc x kids = Some child ->
  is_file_node child' = is_file_node child ->
  dirnames (set_kid x child' kids) = dirnames kids /\
  filenames (set_kid x child' kids) = filenames kids.
Proof.
  unfold dirnames, filenames.
  induction kids as [|[y m] kids IH]; simpl; [discriminate|].
  destruct (String.eqb_spec x y) as [->|Hxy].
  - intros [= ->] Hk. simpl.
    destruct child, child'; try discriminate; simpl; auto.
  - intros Ha Hk. destruct (IH Ha Hk) as [H1 H2]. simpl.
    destruct m; simpl; split; congruence.
Qed.

Lemma flat_map_set_kid {B} (g : string * node -> list B) x child child' kids :
  assoc x kids = Some child ->
  g (x, child') = g (x, child) ->
  flat_map g (set_kid x child' kids) = flat_map g kids.
Proof.
  induction kids as [|[y m] kids IH]; simpl; [discriminate|].
  destruct (String.eqb_spec x y) as [->|Hxy].
  - intros [= ->] Hg. simpl. now rewrite Hg.
  - intros Ha Hg. simpl. now rewrite IH.
Qed.

(** Rewriting an existing file changes no walk. *)
Lemma write_file_walk p : forall c c0 n n' r,
  file_at n p = Some c0 ->
  write_file p c n = Ok n' ->
  walk_node n' r = walk_node n r /\ is_file_node n' = is_file_node n.
Proof.
  induction p as [|x p IH]; intros c c0 n n' r.
  - destruct n; [|discriminate]. simpl. intros _ [= <-]. now split.
  - destruct n as [c1|kids]; [discriminate|].
    rewrite file_at_cons. cbn [write_file].
    destruct (assoc x kids) as [child|] eqn:Ex; [|discriminate].
    intros Hc.
    destruct (write_file p c child) as [child'|e] eqn:Ew; cbn [rbind];
      [|discriminate].
    intros [= <-]. split; [|reflexivity].
    rewrite !walk_node_dir.
    destruct (names_set_kid_kind x child child' kids Ex
                (proj2 (IH _ _ _ _ r Hc Ew))) as [-> ->].
    f_equal. apply flat_map_set_kid with (child := child); [exact Ex|].
    simpl. exact (proj1 (IH _ _ _ _ _ Hc Ew)).
Qed.

Lemma write_file_os_walk p : forall c c0 n n' d r,
  file_at n p = Some c0 ->
  write_file p c n = Ok n' ->
  match lookup n' d with Some t => walk_node t r | None => [] end =
  match lookup n d with Some t => walk_node t r | None => [] end.
Proof.
  induction p as [|x p IH]; intros c c0 n n' d r.
  - destruct n; [|discriminate]. simpl. intros _ [= <-].
    destruct d; reflexivity.
  - destruct n as [c1|kids]; [discriminate|].
    intros Hc Hw. destruct d as [|y d].
    + simpl lookup. exact (proj1 (write_file_walk _ _ _ _ _ r Hc Hw)).
    + rewrite file_at_cons in Hc. cbn [write_file] in Hw.
      destruct (assoc x kids) as [child|] eqn:Ex; [|discriminate].
      destruct (write_file p c child) as [child'|e] eqn:Ew;
        cbn [rbind] in Hw; [|discriminate].
      injection Hw as <-. cbn [lookup].
      destruct (String.eqb_spec x y) as [<-|Hxy].
      * rewrite assoc_set_kid_same, Ex. exact (IH _ _ _ _ d r Hc Ew).
      * now rewrite assoc_set_kid_other.
Qed.

(* ================================================================== *)
(** ** Locating the archive again *)

Lemma first_with_suffix_app suffix (w1 w2 : walk_t) :
  first_with_suffix suffix (w1 ++ w2) =
  match first_with_suffix suffix w1 with
  | Some p => Some p
  | None => first_with_suffix suffix w2
  end.
Proof.
  induction w1 as [|[[root dirs] files] w1 IH]; simpl; [reflexivity|].
  now destruct (find (fun file => endswith file suffix) files).
Qed.

Lemma first_with_suffix_in suffix (w : walk_t) p :
  first_with_suffix suffix w = Some p ->
  exists root dirs files f,
    In (root, dirs, files) w /\ In f files /\ p = root ++ [f].
Proof.
  induction w as [|[[root dirs] files] w IH]; simpl; [discriminate|].
  destruct (find (fun file => endswith file suffix) files) as [f|] eqn:Ef.
  - intros [= <-]. apply find_some in Ef as [Hf _].
    exists root, dirs, files, f. auto.
  - intros H. destruct (IH H) as [r [ds [fl [f [Hin [Hf Hp]]]]]].
    exists r, ds, fl, f. auto.
Qed.

Lemma is_prefix_refl p : is_prefix p p = true.
Proof. rewrite <- (app_nil_r p) at 2. apply is_prefix_app. Qed.

Lemma is_prefix_trans p q r :
  is_prefix p q = true -> is_prefix q r = true -> is_prefix p r = true.
Proof.
  rewrite !is_prefix_spec. intros [a ->] [b ->].
  exists (a ++ b). now rewrite app_assoc.
Qed.

Lemma walk_roots n : forall r root dirs files,
  In (root, dirs, files) (walk_node n r) -> is_prefix r root = true.
Proof.
  induction n as [c0|kids IH] using node_ind2; intros r root dirs files;
    [contradiction|].
  rewrite walk_node_dir. intros [[= <- _ _]|Hin]; [apply is_prefix_refl|].
  apply in_flat_map in Hin as [[x c] [Hx Hin]]. simpl in Hin.
  rewrite Forall_forall in IH.
  apply (is_prefix_trans r (r ++ [x]) root); [apply is_prefix_app|].
  exact (IH _ Hx _ _ _ _ Hin).
Qed.

Lemma first_with_suffix_under suffix n r p :
  first_with_suffix suffix (walk_node n r) = Some p -> is_prefix r p = true.
Proof.
  intros H. apply first_with_suffix_in in H
    as [root [dirs [files [f [Hin [_ ->]]]]]].
  apply (is_prefix_trans r root (root ++ [f])); [|apply is_prefix_app].
  exact (walk_roots _ _ _ _ _ Hin).
Qed.

Lemma rmtree_lookup_parent d x n n' :
  shutil_rmtree (d ++ [x]) n = Ok n' ->
  exists kids, lookup n d = Some (Dir kids) /\
               lookup n' d = Some (Dir (del_kid x kids)).
Proof.
  revert n n'. induction d as [|y d IH]; intros n n'.
  - destruct n as [c0|kids]; [discriminate|]. simpl.
    destruct (assoc x kids) as [[c|k]|]; try discriminate.
    intros [= <-]. now exists kids.
  - destruct n as [c0|kids]; [discriminate|].
    rewrite <- app_comm_cons, shutil_rmtree_cons by (destruct d; discriminate).
    destruct (assoc y kids) as [child|] eqn:Ey; [|discriminate].
    destruct (shutil_rmtree (d ++ [x]) child) as [child'|e] eqn:Er;
      cbn [rbind]; [|discriminate].
    intros [= <-]. destruct (IH _ _ Er) as [k [H1 H2]].
    exists k. cbn [lookup]. now rewrite Ey, assoc_set_kid_same.
Qed.

Lemma filenames_del_kid x kids :
  filenames (del_kid x kids) =
  filter (fun f => negb (String.eqb x f)) (filenames kids).
Proof.
  unfold filenames, del_kid.
  induction kids as [|[y m] kids IH]; simpl; [reflexivity|].
  destruct (String.eqb x y) eqn:E; destruct m; simpl; rewrite ?E; simpl;
    now rewrite ?IH.
Qed.

Lemma find_filter {A} (P Q : A -> bool) (l : list A) :
  (forall a, find P l = Some a -> Q a = true) ->
  find P (filter Q l) = find P l.
Proof.
  induction l as [|a l IH]; simpl; [reflexivity|].
  destruct (P a) eqn:Ep.
  - intros H. rewrite (H a eq_refl). simpl. now rewrite Ep.
  - intros H. destruct (Q a); simpl; rewrite ?Ep; now apply IH.
Qed.

(** Removing the stale scratch directory does not change which archive
    is found first, unless the archive was inside it. *)
Lemma locate_after_rmtree suffix d x n n' zp :
  shutil_rmtree (d ++ [x]) n = Ok n' ->
  first_with_suffix suffix (os_walk n d) = Some zp ->
  is_prefix (d ++ [x]) zp = false ->
  first_with_suffix suffix (os_walk n' d) = Some zp.
Proof.
  intros Hr Hloc Hzp.
  destruct (rmtree_lookup_parent _ _ _ _ Hr) as [kids [H1 H2]].
  unfold os_walk in *. rewrite H1 in Hloc. rewrite H2.
  rewrite walk_node_dir in *. cbn [first_with_suffix] in *.
  rewrite filenames_del_kid.
  destruct (find (fun file => endswith file suffix) (filenames kids))
    as [f|] eqn:Ef.
  - injection Hloc as <-. rewrite find_filter, Ef; [reflexivity|].
    intros a Ha. rewrite Ef in Ha. injection Ha as <-.
    destruct (String.eqb_spec x f) as [->|]; [|reflexivity].
    now rewrite is_prefix_refl in Hzp.
  - rewrite find_filter, Ef by (intros a Ha; rewrite Ef in Ha; discriminate).
    clear Ef H1 H2 Hr. revert Hloc. unfold del_kid.
    induction kids as [|[y c] kids IH]; simpl; [discriminate|].
    rewrite first_with_suffix_app.
    destruct (String.eqb_spec x y) as [<-|Hxy]; simpl.
    + destruct (first_with_suffix suffix (walk_node c (d ++ [x])))
        as [p|] eqn:Ep; [|exact IH].
      intros [= ->]. apply first_with_suffix_under in Ep. congruence.
    + rewrite first_with_suffix_app.
      destruct (first_with_suffix suffix (walk_node c (d ++ [y])));
        [auto | exact IH].
Qed.

(* ================================================================== *)
(** ** The Patcher: the scratch directory and the extraction *)

Lemma conflict_free_names es n1 n2 :
  conflict_free es = true ->
  In n1 (namelist es) -> In n2 (namelist es) ->
  n1 <> [] /\ proper_prefix n1 n2 = false.
Proof.
  unfold conflict_free. rewrite forallb_forall. intros H H1 H2.
  specialize (H _ H1). apply andb_true_iff in H as [Hne Hall].
  rewrite forallb_forall in Hall. specialize (Hall _ H2).
  apply negb_true_iff in Hall. split; [|exact Hall].
  destruct n1; [discriminate | congruence].
Qed.

Lemma proper_prefix_app_split q a b :
  proper_prefix q (a ++ b) = true ->
  is_prefix q a = true \/ exists r, q = a ++ r /\ proper_prefix r b = true.
Proof.
  revert q. induction a as [|x a IH]; intros q H.
  - right. now exists q.
  - destruct q as [|y q]; [now left|].
    simpl in H. unfold proper_prefix in H. cbn [is_prefix] in H.
    destruct (String.eqb_spec y x) as [->|Hyx]; [|discriminate].
    change (proper_prefix q (a ++ b) = true) in H.
    destruct (IH q H) as [Hl|[r [-> Hr]]].
    + left. simpl. now rewrite String.eqb_refl.
    + right. now exists r.
Qed.

Lemma proper_prefix_app_same a r n :
  proper_prefix (a ++ r) (a ++ n) = proper_prefix r n.
Proof.
  induction a as [|x a IH]; [reflexivity|].
  simpl. now rewrite proper_prefix_cons.
Qed.

Lemma file_at_prefix_of_dir n a q kids :
  lookup n a = Some (Dir kids) -> is_prefix q a = true -> file_at n q = None.
Proof.
  intros Ha Hq. apply is_prefix_spec in Hq as [r ->].
  destruct (file_at n q) as [c|] eqn:E; [|reflexivity].
  destruct r as [|y r].
  - rewrite app_nil_r in Ha. unfold file_at in E. rewrite Ha in E.
    discriminate.
  - rewrite (file_at_prefix_none n q (y :: r) c E) in Ha by discriminate.
    discriminate.
Qed.

Lemma is_dir_true_lookup n p :
  is_dir n p = true -> exists kids, lookup n p = Some (Dir kids).
Proof.
  unfold is_dir. destruct (lookup n p) as [[c|kids]|]; try discriminate.
  intros _. now exists kids.
Qed.

(** Step 2 succeeds when the data folder is a directory and no regular
    file sits at the scratch path; [fsa] is the tree without any scratch
    directory, which removing the fresh one gives back. *)
Lemma fresh_scratch_ok d x fs0 o :
  is_dir fs0 d = true ->
  is_file fs0 (d ++ [x]) = false ->
  exists fs1 fsa,
    fresh_scratch (d ++ [x]) (mkState fs0 o) = (Ok tt, mkState fs1 o) /\
    lookup fs1 (d ++ [x]) = Some (Dir []) /\
    (forall q, is_prefix (d ++ [x]) q = false ->
               file_at fs1 q = file_at fs0 q) /\
    shutil_rmtree (d ++ [x]) fs1 = Ok fsa /\
    (forall q, is_prefix (d ++ [x]) q = false ->
               file_at fsa q = file_at fs0 q) /\
    (forall suffix zp,
        first_with_suffix suffix (os_walk fs0 d) = Some zp ->
        is_prefix (d ++ [x]) zp = false ->
        first_with_suffix suffix (os_walk fsa d) = Some zp).
Proof.
  intros Hd Hf. unfold fresh_scratch. rewrite bind_ask.
  unfold os_path_exists, is_file in *. cbn [fs].
  destruct (lookup fs0 (d ++ [x])) as [[c|kids]|] eqn:El; [discriminate| |].
  - destruct (shutil_rmtree_dir_ok (d ++ [x]) fs0) as [fsa Ha].
    { now destruct d. }
    { unfold is_dir. now rewrite El. }
    pose proof (shutil_rmtree_parent _ _ _ _ Ha) as Hda.
    pose proof (shutil_rmtree_lookup _ _ _ Ha) as Hla.
    destruct (os_makedirs_ok d x fsa Hda Hla) as [fs1 H1].
    exists fs1, fsa. repeat split.
    + unfold bind, when, modify. cbn [fs out]. rewrite Ha. cbn [fs out].
      now rewrite H1.
    + exact (os_makedirs_lookup _ _ _ H1).
    + intros q Hq. rewrite (os_makedirs_frame _ _ _ _ H1).
      exact (shutil_rmtree_frame _ _ _ Ha q Hq).
    + exact (rmtree_after_makedirs _ _ _ _ Hda Hla H1).
    + exact (shutil_rmtree_frame _ _ _ Ha).
    + intros suffix zp Hloc Hzp.
      exact (locate_after_rmtree _ _ _ _ _ _ Ha Hloc Hzp).
  - destruct (os_makedirs_ok d x fs0 Hd El) as [fs1 H1].
    exists fs1, fs0. repeat split.
    + unfold bind, when, ret, modify. cbn [fs out]. now rewrite H1.
    + exact (os_makedirs_lookup _ _ _ H1).
    + intros q _. exact (os_makedirs_frame _ _ _ _ H1 q).
    + exact (rmtree_after_makedirs _ _ _ _ Hd El H1).
    + auto.
Qed.

Section Extraction.

Variable temp : path.
Variable o : list msg.

(** Step 3 on a conflict-free archive: every member is extracted, and
    below the scratch directory there is, for each name, the content of
    the last entry of that name. *)
Lemma extract_loop es : forall done fs0,
  conflict_free (done ++ es) = true ->
  (exists kids, lookup fs0 temp = Some (Dir kids) /\ wf (Dir kids) = true) ->
  (forall rel, file_at fs0 (temp ++ rel) =
               match zip_read done rel with
               | Ok c => Some c
               | Raise _ => None
               end) ->
  (forall rel, is_dir fs0 (temp ++ rel) = true ->
               rel = [] \/
               exists n, In n (namelist done) /\ proper_prefix rel n = true) ->
  exists fs0',
    zip_extractall es temp (mkState fs0 o) = (Ok tt, mkState fs0' o) /\
    (exists kids, lookup fs0' temp = Some (Dir kids) /\ wf (Dir kids) = true) /\
    (forall rel, file_at fs0' (temp ++ rel) =
                 match zip_read (done ++ es) rel with
                 | Ok c => Some c
                 | Raise _ => None
                 end) /\
    (forall q, is_prefix temp q = false -> file_at fs0' q = file_at fs0 q).
Proof.
  unfold zip_extractall.
  induction es as [|[name c] es IH]; intros done fs0 Hcf Hdir Hfiles Hdirs.
  - exists fs0. rewrite app_nil_r. simpl. unfold ret. repeat split; auto.
  - assert (Hname : In name (namelist (done ++ (name, c) :: es))).
    { unfold namelist. rewrite map_app. apply in_or_app. right. now left. }
    assert (Hdone : forall n, In n (namelist done) ->
                              In n (namelist (done ++ (name, c) :: es))).
    { intros n Hn. unfold namelist. rewrite map_app. apply in_or_app.
      now left. }
    destruct Hdir as [kids [Hl Hwf]].
    destruct (extract_member_ok (temp ++ name) c fs0) as [fsa Ha].
    { intros q Hq. apply proper_prefix_app_split in Hq as [Hq|[r [-> Hr]]].
      - eapply file_at_prefix_of_dir; eauto.
      - rewrite Hfiles. destruct (zip_read done r) as [c0|e] eqn:Er;
          [|reflexivity].
        apply zip_read_in in Er.
        assert (Hr' : In r (namelist done))
          by (apply in_map_iff; now exists (r, c0)).
        destruct (conflict_free_names _ r name Hcf (Hdone _ Hr') Hname)
          as [_ H]. congruence. }
    { destruct (is_dir fs0 (temp ++ name)) eqn:Ed; [|reflexivity].
      destruct (Hdirs _ Ed) as [->|[n [Hn Hp]]].
      - destruct (conflict_free_names _ [] [] Hcf Hname Hname) as [H _].
        congruence.
      - destruct (conflict_free_names _ name n Hcf Hname (Hdone _ Hn))
          as [_ H]. congruence. }
    destruct (extract_member_spec _ _ _ _ Ha) as [Hs1 Hs2].
    destruct (extract_member_focus temp name c fs0 fsa _ Hl Ha)
      as [t' [Ht' Hl']].
    destruct (extract_member_keeps_dir _ _ _ _ Ht') as [kids' ->].
    destruct (IH (done ++ [(name, c)]) fsa) as [fs0' [Hrun [Hd' [Hf' Hfr]]]].
    + now rewrite <- app_assoc.
    + exists kids'. split; [exact Hl'|].
      exact (extract_member_wf _ _ _ _ Hwf Ht').
    + intros rel. rewrite zip_read_snoc.
      destruct (path_eqb name rel) eqn:En.
      * apply path_eqb_true in En. subst rel. exact Hs1.
      * rewrite Hs2; [apply Hfiles|].
        intros H. apply app_inv_head in H. subst rel.
        now rewrite path_eqb_refl in En.
    + intros rel Hrel.
      destruct (extract_member_dirs _ _ _ _ Ha _ Hrel) as [H|H].
      * destruct (Hdirs _ H) as [->|[n [Hn Hp]]]; [now left|].
        right. exists n. split; [|exact Hp].
        unfold namelist. rewrite map_app. apply in_or_app. now left.
      * rewrite proper_prefix_app_same in H. right. exists name.
        split; [|exact H].
        unfold namelist. rewrite map_app. apply in_or_app. right. now left.
    + exists fs0'. split; [|split; [|split]].
      * simpl. unfold bind, modify at 1. cbn [fs out fst snd].
        rewrite Ha. exact Hrun.
      * exact Hd'.
      * intros rel. rewrite Hf', <- app_assoc. reflexivity.
      * intros q Hq. rewrite Hfr by exact Hq. apply Hs2.
        intros ->. now rewrite is_prefix_app in Hq.
Qed.

End Extraction.

(* ================================================================== *)
(** ** The Patcher: step 4 *)

Lemma for_each_ext {A} (f g : A -> M unit) (xs : list A) :
  (forall x s, In x xs -> f x s = g x s) ->
  forall s, for_each xs f s = for_each xs g s.
Proof.
  induction xs as [|x xs IH]; intros H s; simpl; [reflexivity|].
  unfold bind. rewrite (H x s (or_introl eq_refl)).
  destruct (g x s) as [[[]|e] s1]; [|reflexivity].
  apply IH. intros y s' Hy. apply H. now right.
Qed.

Lemma for_each_map {A B} (h : A -> B) (g : B -> M unit) (xs : list A) s :
  for_each (map h xs) g s = for_each xs (fun x => g (h x)) s.
Proof.
  revert s. induction xs as [|x xs IH]; intros s; simpl; [reflexivity|].
  unfold bind. destruct (g (h x) s) as [[[]|e] s1]; [apply IH | reflexivity].
Qed.

Lemma path_endswith_snoc root file suffix :
  path_endswith (root ++ [file]) suffix = endswith file suffix.
Proof. unfold path_endswith. now rewrite rev_app_distr. Qed.

Lemma path_endswith_app a rel suffix :
  rel <> [] -> path_endswith (a ++ rel) suffix = path_endswith rel suffix.
Proof.
  intros Hrel. unfold path_endswith. rewrite rev_app_distr.
  destruct (rev rel) as [|x r] eqn:E; [|reflexivity].
  apply (f_equal (@rev string)) in E. rewrite rev_involutive in E.
  simpl in E. congruence.
Qed.

(** The two nested loops of step 4 visit the files the walk lists, one
    after the other. *)
Lemma patch_tree_flat temp X Y s :
  patch_tree temp X Y s =
  for_each (walk_paths (os_walk (fs s) temp))
           (fun p => when (path_endswith p ".fusion-data")
                          (patch_file p X Y)) s.
Proof.
  unfold patch_tree. rewrite bind_ask.
  generalize (os_walk (fs s) temp) as w. intros w. revert s.
  induction w as [|[[root dirs] files] w IH]; intros s; [reflexivity|].
  rewrite walk_paths_cons, for_each_app. simpl. unfold bind.
  rewrite for_each_map.
  rewrite (for_each_ext
             (fun file => when (endswith file ".fusion-data")
                               (patch_file (root ++ [file]) X Y))
             (fun file => when (path_endswith (root ++ [file]) ".fusion-data")
                               (patch_file (root ++ [file]) X Y)))
    by (intros f s' _; now rewrite path_endswith_snoc).
  match goal with
  | |- context [for_each files ?b s] =>
      destruct (for_each files b s) as [[[]|e] s1]
  end; [apply IH | reflexivity].
Qed.

Section PatchLoop.

Variables X Y : string.
Variable temp : path.
Variable o : list msg.

Lemma patch_file_run p c c' fs0 :
  file_at fs0 p = Some c ->
  patch_content X Y c = Ok c' ->
  patch_file p X Y (mkState fs0 o) =
  modify (write_file p c') (mkState fs0 o).
Proof.
  intros Hc Hp. unfold patch_file, bind, try_ask, lift. cbn [fs out].
  rewrite (read_file_file_at _ _ _ Hc).
  unfold patch_content in Hp.
  destruct (json_load_text c) as [d0|e]; simpl in Hp; [|discriminate].
  destruct (set_nested "annotations" "name" X d0) as [d1|e];
    simpl in Hp; [|discriminate].
  destruct (set_nested "sequence" "location" Y d1) as [d2|e];
    simpl in Hp; [|discriminate].
  now injection Hp as <-.
Qed.

Lemma patch_loop ps : forall fs0,
  (forall p, In p ps ->
     exists c, file_at fs0 p = Some c /\
               (path_endswith p ".fusion-data" = true ->
                exists c', patch_content X Y c = Ok c')) ->
  (forall p, In p ps -> exists rel, p = temp ++ rel) ->
  (exists kids, lookup fs0 temp = Some (Dir kids) /\ wf (Dir kids) = true) ->
  exists fs',
    for_each ps (fun p => when (path_endswith p ".fusion-data")
                               (patch_file p X Y))
             (mkState fs0 o) = (Ok tt, mkState fs' o) /\
    (forall q, file_at fs' q =
               if existsb (path_eqb q) ps && path_endswith q ".fusion-data"
               then opatch X Y (file_at fs0 q) else file_at fs0 q) /\
    (exists kids, lookup fs' temp = Some (Dir kids) /\ wf (Dir kids) = true).
Proof.
  induction ps as [|p ps IH]; intros fs0 Hfiles Hunder Hdir.
  - exists fs0. simpl. unfold ret. repeat split; auto.
  - destruct (Hfiles p (or_introl eq_refl)) as [c [Hc Hpatch]].
    destruct (Hunder p (or_introl eq_refl)) as [rel Hrel].
    assert (Hfiles' : forall p0, In p0 ps ->
              exists c0, file_at fs0 p0 = Some c0 /\
                (path_endswith p0 ".fusion-data" = true ->
                 exists c', patch_content X Y c0 = Ok c'))
      by (intros p0 H0; apply Hfiles; now right).
    assert (Hunder' : forall p0, In p0 ps -> exists r, p0 = temp ++ r)
      by (intros p0 H0; apply Hunder; now right).
    destruct (path_endswith p ".fusion-data") eqn:Ep.
    + destruct (Hpatch eq_refl) as [c' Hc'].
      destruct (write_file_ok p c' fs0 c Hc) as [fsa Ha].
      destruct (write_file_spec _ _ _ _ Ha) as [Hs1 Hs2].
      destruct Hdir as [kids [Hl Hwf]].
      assert (Ha' := Ha). rewrite Hrel in Ha'.
      destruct (write_file_focus temp rel c' fs0 fsa _ Hl Ha')
        as [t' [Ht' Hl']].
      destruct (write_file_keeps_dir _ _ _ _ Ht') as [kids' ->].
      destruct (IH fsa) as [fs' [Hrun [Hf' Hd']]].
      * intros p0 H0. destruct (list_eq_dec string_dec p0 p) as [->|Hne].
        -- exists c'. split; [exact Hs1|]. intros _. exists c'.
           eapply patch_content_idem; eauto.
        -- rewrite Hs2 by exact Hne. now apply Hfiles'.
      * exact Hunder'.
      * exists kids'. split; [exact Hl'|].
        exact (write_file_wf _ _ _ _ Hwf Ht').
      * exists fs'. split; [|split; [|exact Hd']].
        -- simpl. unfold bind. rewrite Ep. unfold when.
           rewrite (patch_file_run p c c' fs0 Hc Hc').
           unfold modify. cbn [fs out]. rewrite Ha. exact Hrun.
        -- intros q. rewrite Hf'. cbn [existsb].
           destruct (list_eq_dec string_dec q p) as [->|Hne].
           ++ rewrite path_eqb_refl, Ep, Hs1, Hc. simpl. rewrite Hc'.
              rewrite andb_true_r.
              destruct (existsb (path_eqb p) ps); [|reflexivity].
              now rewrite (patch_content_idem X Y c c' Hc').
           ++ rewrite Hs2 by exact Hne.
              destruct (path_eqb q p) eqn:Eq;
                [apply path_eqb_true in Eq; congruence | reflexivity].
    + destruct (IH fs0 Hfiles' Hunder' Hdir) as [fs' [Hrun [Hf' Hd']]].
      exists fs'. split; [|split; [|exact Hd']].
      * simpl. unfold bind. rewrite Ep. unfold when, ret. exact Hrun.
      * intros q. rewrite Hf'. cbn [existsb].
        destruct (path_eqb q p) eqn:Eq; [|reflexivity].
        apply path_eqb_true in Eq. subst q. rewrite Ep.
        now rewrite !andb_false_r.
Qed.

End PatchLoop.

(* ================================================================== *)
(** ** The Patcher: steps 4 to 6 on the scratch directory *)

Lemma existsb_path_in q ps : existsb (path_eqb q) ps = true <-> In q ps.
Proof.
  rewrite existsb_exists. split.
  - intros [p [Hin Hp]]. apply path_eqb_true in Hp. now subst.
  - intros Hin. exists q. split; [exact Hin | apply path_eqb_refl].
Qed.

Lemma file_at_dir_rel_nonempty kids rel c :
  file_at (Dir kids) rel = Some c -> rel <> [].
Proof. destruct rel; [discriminate | discriminate]. Qed.

Section Scratch.

Variables X Y : string.
Variable temp : path.
Variable o : list msg.

(** Step 4 when every file below the scratch directory can be patched:
    each file is what [patched_entry] makes of it. *)
Lemma patch_tree_ok fs2 :
  (exists kids, lookup fs2 temp = Some (Dir kids) /\ wf (Dir kids) = true) ->
  (forall rel c, file_at fs2 (temp ++ rel) = Some c ->
                 exists c', patched_entry X Y rel c = Ok c') ->
  exists fs3,
    patch_tree temp X Y (mkState fs2 o) = (Ok tt, mkState fs3 o) /\
    (forall rel, file_at fs3 (temp ++ rel) =
                 opatched_entry X Y rel (file_at fs2 (temp ++ rel))) /\
    (forall q, is_prefix temp q = false -> file_at fs3 q = file_at fs2 q) /\
    (exists kids, lookup fs3 temp = Some (Dir kids) /\ wf (Dir kids) = true).
Proof.
  intros Hdir Hpatch. pose proof Hdir as [kids [Hl Hwf]].
  assert (Hsound : forall p, In p (walk_paths (os_walk fs2 temp)) ->
             exists rel c, p = temp ++ rel /\ rel <> [] /\
                           file_at fs2 p = Some c).
  { intros p Hp. unfold os_walk in Hp. rewrite Hl in Hp.
    destruct (walk_sound _ _ _ Hwf Hp) as [rel [c [-> Hc]]].
    exists rel, c. split; [reflexivity|]. split.
    - eapply file_at_dir_rel_nonempty; eauto.
    - now rewrite (file_at_app _ _ rel _ Hl). }
  destruct (patch_loop X Y temp o (walk_paths (os_walk fs2 temp)) fs2)
    as [fs3 [Hrun [Hf Hd]]].
  - intros p Hp. destruct (Hsound p Hp) as [rel [c [-> [Hrel Hc]]]].
    exists c. split; [exact Hc|]. intros Hpe.
    destruct (Hpatch rel c Hc) as [c' Hc']. exists c'.
    unfold patched_entry in Hc'.
    now rewrite <- (path_endswith_app temp rel _ Hrel), Hpe in Hc'.
  - intros p Hp. destruct (Hsound p Hp) as [rel [c [-> _]]]. now exists rel.
  - exact Hdir.
  - exists fs3. split; [|split; [|split]].
    + rewrite patch_tree_flat. exact Hrun.
    + intros rel. rewrite Hf. unfold opatched_entry, patched_entry, opatch.
      destruct (file_at fs2 (temp ++ rel)) as [c|] eqn:Ec.
      * assert (Hrel : rel <> []).
        { rewrite (file_at_app _ _ rel _ Hl) in Ec.
          eapply file_at_dir_rel_nonempty; eauto. }
        assert (Hin : existsb (path_eqb (temp ++ rel))
                              (walk_paths (os_walk fs2 temp)) = true).
        { apply existsb_path_in. unfold os_walk. rewrite Hl.
          apply walk_complete with (c := c).
          now rewrite <- (file_at_app _ _ rel _ Hl). }
        rewrite Hin, (path_endswith_app temp rel _ Hrel). simpl.
        now destruct (path_endswith rel ".fusion-data").
      * now destruct (_ && _).
    + intros q Hq. rewrite Hf.
      destruct (existsb (path_eqb q) (walk_paths (os_walk fs2 temp))) eqn:E;
        [|reflexivity].
      apply existsb_path_in in E.
      destruct (Hsound q E) as [rel [c [-> _]]].
      now rewrite is_prefix_app in Hq.
    + exact Hd.
Qed.

Lemma try_ask_ok_inv {A} (q : node -> result A) s a s1 :
  try_ask q s = (Ok a, s1) -> q (fs s) = Ok a /\ s1 = s.
Proof. unfold try_ask. intros [= H <-]. now split. Qed.

Lemma lift_ok_inv {A} (r : result A) s a s1 :
  lift r s = (Ok a, s1) -> r = Ok a /\ s1 = s.
Proof. unfold lift. intros [= H <-]. now split. Qed.

Lemma patch_file_inv p s s' :
  patch_file p X Y s = (Ok tt, s') ->
  exists c', write_file p c' (fs s) = Ok (fs s') /\ out s' = out s.
Proof.
  unfold patch_file. intros H.
  apply bind_ok_inv in H as [c [s1 [H1 H]]].
  apply try_ask_ok_inv in H1 as [_ ->].
  apply bind_ok_inv in H as [d0 [s1 [H1 H]]].
  apply lift_ok_inv in H1 as [_ ->].
  apply bind_ok_inv in H as [d1 [s1 [H1 H]]].
  apply lift_ok_inv in H1 as [_ ->].
  apply bind_ok_inv in H as [d2 [s1 [H1 H]]].
  apply lift_ok_inv in H1 as [_ ->].
  apply modify_ok_inv in H. now exists (json_dump d2).
Qed.

(** Steps 3 and 4 change nothing of what removing the scratch directory
    leaves. *)
Lemma extract_all_rmtree es : forall fs0 fs',
  temp <> [] ->
  (exists kids, lookup fs0 temp = Some (Dir kids)) ->
  zip_extractall es temp (mkState fs0 o) = (Ok tt, mkState fs' o) ->
  shutil_rmtree temp fs' = shutil_rmtree temp fs0.
Proof.
  unfold zip_extractall.
  induction es as [|[name c] es IH]; intros fs0 fs' Hne [kids Hl]; simpl.
  - unfold ret. now intros [= <-].
  - intros H. apply bind_ok_inv in H as [[] [[fsa oa] [H1 H]]].
    apply modify_ok_inv in H1 as [H1 Ho]. cbn [fs out fst snd] in *.
    subst oa.
    destruct (extract_member_focus temp name c fs0 fsa _ Hl H1)
      as [t' [Ht' Hl']].
    destruct (extract_member_keeps_dir _ _ _ _ Ht') as [kids' ->].
    rewrite (IH fsa fs' Hne (ex_intro _ kids' Hl') H).
    exact (rmtree_after_extract temp name c fs0 fsa kids Hne Hl H1).
Qed.

Lemma patch_loop_rmtree ps : forall fs0 fs',
  temp <> [] ->
  (forall p, In p ps -> exists rel, p = temp ++ rel) ->
  (exists kids, lookup fs0 temp = Some (Dir kids)) ->
  for_each ps (fun p => when (path_endswith p ".fusion-data")
                             (patch_file p X Y))
           (mkState fs0 o) = (Ok tt, mkState fs' o) ->
  shutil_rmtree temp fs' = shutil_rmtree temp fs0.
Proof.
  induction ps as [|p ps IH]; intros fs0 fs' Hne Hunder [kids Hl]; simpl.
  - unfold ret. now intros [= <-].
  - intros H. apply bind_ok_inv in H as [[] [[fsa oa] [H1 H]]].
    assert (Hunder' : forall p0, In p0 ps -> exists r, p0 = temp ++ r)
      by (intros p0 H0; apply Hunder; now right).
    unfold when in H1.
    destruct (path_endswith p ".fusion-data").
    + apply patch_file_inv in H1 as [c' [H1 Ho]].
      cbn [fs out] in *. subst oa.
      destruct (Hunder p (or_introl eq_refl)) as [rel ->].
      destruct (write_file_focus temp rel c' fs0 fsa _ Hl H1)
        as [t' [Ht' Hl']].
      destruct (write_file_keeps_dir _ _ _ _ Ht') as [kids' ->].
      rewrite (IH fsa fs' Hne Hunder' (ex_intro _ kids' Hl') H).
      exact (rmtree_after_write temp rel c' fs0 fsa kids Hne Hl H1).
    + unfold ret in H1. injection H1 as <- <-.
      exact (IH fs0 fs' Hne Hunder' (ex_intro _ kids Hl) H).
Qed.

Lemma patch_tree_rmtree fs2 fs3 :
  temp <> [] ->
  (exists kids, lookup fs2 temp = Some (Dir kids) /\ wf (Dir kids) = true) ->
  patch_tree temp X Y (mkState fs2 o) = (Ok tt, mkState fs3 o) ->
  shutil_rmtree temp fs3 = shutil_rmtree temp fs2.
Proof.
  intros Hne [kids [Hl Hwf]] H. rewrite patch_tree_flat in H. cbn [fs] in H.
  apply (patch_loop_rmtree _ fs2 fs3 Hne) in H; [exact H| |now exists kids].
  intros p Hp. unfold os_walk in Hp. rewrite Hl in Hp.
  destruct (walk_sound _ _ _ Hwf Hp) as [rel [c [-> _]]]. now exists rel.
Qed.

Lemma repack_items_in fs0 p arc :
  In (p, arc) (repack_items temp fs0) <->
  In p (walk_paths (os_walk fs0 temp)) /\ arc = relpath p temp.
Proof.
  unfold repack_items. rewrite in_flat_map. split.
  - intros [[[root dirs] files] [Hin Hp]].
    apply in_map_iff in Hp as [f [[= <- <-] Hf]].
    split; [|reflexivity].
    apply walk_paths_in. now exists root, dirs, files, f.
  - intros [Hp ->].
    apply walk_paths_in in Hp as [root [dirs [files [f [Hin [Hf ->]]]]]].
    exists (root, dirs, files). split; [exact Hin|].
    apply in_map_iff. now exists f.
Qed.

(** Step 5: the archive is rewritten with exactly the files below the
    scratch directory, each under its relative path. *)
Lemma repack_ok zp c0 fs3 :
  (exists kids, lookup fs3 temp = Some (Dir kids) /\ wf (Dir kids) = true) ->
  file_at fs3 zp = Some c0 ->
  is_prefix temp zp = false ->
  exists fs4 fs5 es',
    write_file zp (Malformed "") fs3 = Ok fs4 /\
    write_file zp (ZipData es') fs4 = Ok fs5 /\
    with_zip_w zp (repack_items temp) (mkState fs3 o) =
    (Ok tt, mkState fs5 o) /\
    file_at fs5 zp = Some (ZipData es') /\
    (forall rel c, In (rel, c) es' <-> file_at fs3 (temp ++ rel) = Some c) /\
    (forall q, q <> zp -> file_at fs5 q = file_at fs3 q) /\
    is_dir fs5 temp = true.
Proof.
  intros [kids [Hl Hwf]] Hzp Hzt.
  assert (Hne : forall rel, temp ++ rel <> zp).
  { intros rel <-. now rewrite is_prefix_app in Hzt. }
  assert (Hwalk : forall fs4,
             write_file zp (Malformed "") fs3 = Ok fs4 ->
             lookup fs4 temp = Some (Dir kids) /\
             forall rel, file_at fs4 (temp ++ rel) = file_at fs3 (temp ++ rel)).
  { intros fs4 H4. split.
    - now rewrite (write_file_lookup_other _ _ _ _ _ H4 Hzt).
    - intros rel. apply (proj2 (write_file_spec _ _ _ _ H4)). apply Hne. }
  assert (Hitems : forall fs4,
             write_file zp (Malformed "") fs3 = Ok fs4 ->
             forall p arc, In (p, arc) (repack_items temp fs4) <->
                           exists c, p = temp ++ arc /\
                                     file_at fs3 (temp ++ arc) = Some c).
  { intros fs4 H4 p arc. destruct (Hwalk fs4 H4) as [Hl4 _].
    rewrite repack_items_in. unfold os_walk. rewrite Hl4. split.
    - intros [Hp ->].
      destruct (walk_sound _ _ _ Hwf Hp) as [rel [c [-> Hc]]].
      exists c. rewrite relpath_app. split; [reflexivity|].
      now rewrite (file_at_app _ _ rel _ Hl).
    - intros [c [-> Hc]]. rewrite relpath_app. split; [|reflexivity].
      apply walk_complete with (c := c).
      now rewrite <- (file_at_app _ _ arc _ Hl). }
  destruct (with_zip_w_ok zp (repack_items temp) (mkState fs3 o) c0 Hzp)
    as [fs4 [fs5 [H4 [H5 [Hrun [Hz [Hfr Hlk]]]]]]].
  { cbn [fs]. intros fs4 H4 p arc Hin.
    apply (Hitems fs4 H4) in Hin as [c [-> Hc]].
    exists c. now rewrite (proj2 (Hwalk fs4 H4)). }
  cbn [fs out] in *.
  exists fs4, fs5, (read_all fs4 (repack_items temp fs4)).
  split; [exact H4|]. split; [exact H5|].
  split; [exact Hrun|]. split; [exact Hz|]. split; [|split].
  - intros rel c. rewrite read_all_in. split.
    + intros [p [Hin Hc]]. apply (Hitems fs4 H4) in Hin as [c1 [-> Hc1]].
      now rewrite (proj2 (Hwalk fs4 H4)) in Hc.
    + intros Hc. exists (temp ++ rel). split.
      * apply (Hitems fs4 H4). now exists c.
      * now rewrite (proj2 (Hwalk fs4 H4)).
  - exact Hfr.
  - unfold is_dir. now rewrite (Hlk temp Hzt), Hl.
Qed.

(** Step 6 on an existing scratch directory. *)
Lemma drop_scratch_ok fs5 :
  temp <> [] ->
  is_dir fs5 temp = true ->
  exists fs6,
    drop_scratch temp (mkState fs5 o) =
    (Ok tt, mkState fs6 (o ++ [MsgCleaned])) /\
    shutil_rmtree temp fs5 = Ok fs6 /\
    lookup fs6 temp = None /\
    forall q, is_prefix temp q = false -> file_at fs6 q = file_at fs5 q.
Proof.
  intros Hne Hd.
  destruct (shutil_rmtree_dir_ok temp fs5 Hne Hd) as [fs6 H6].
  exists fs6. split; [|split; [exact H6|split]].
  - unfold drop_scratch. rewrite bind_ask. unfold os_path_exists.
    cbn [fs]. destruct (is_dir_true_lookup _ _ Hd) as [kids ->].
    unfold bind, when, modify, print. cbn [fs out]. now rewrite H6.
  - exact (shutil_rmtree_lookup _ _ _ H6).
  - exact (shutil_rmtree_frame _ _ _ H6).
Qed.

End Scratch.

(* ================================================================== *)
(** ** The Patcher: a whole run *)

Lemma first_with_suffix_is_dir suffix fs0 d zp :
  first_with_suffix suffix (os_walk fs0 d) = Some zp -> is_dir fs0 d = true.
Proof.
  unfold os_walk, is_dir.
  destruct (lookup fs0 d) as [[c|kids]|]; simpl; congruence.
Qed.

Lemma patchable_read X Y es rel c :
  patchable X Y es = true -> zip_read es rel = Ok c ->
  exists c', patched_entry X Y rel c = Ok c'.
Proof.
  unfold patchable. rewrite forallb_forall. intros H Hr.
  assert (Hin : In rel (namelist es)).
  { apply in_map_iff. exists (rel, c). split; [reflexivity|].
    now apply zip_read_in. }
  specialize (H _ Hin). rewrite Hr in H.
  destruct (patched_entry X Y rel c) as [c'|e]; [now exists c' | discriminate].
Qed.

(** A run of the Patcher on a located archive that extracts without a
    clash and whose extracted [.fusion-data] files can all be patched: it
    returns normally, the scratch directory is gone, the other files are
    untouched, and the archive holds, for each entry name, what
    [patched_entry] makes of the last entry of that name. *)
Lemma patcher_run d X Y fs0 o zp es :
  first_with_suffix "-GC.zip" (os_walk fs0 d) = Some zp ->
  file_at fs0 zp = Some (ZipData es) ->
  is_file fs0 (d ++ ["temp_unzip"]) = false ->
  is_prefix (d ++ ["temp_unzip"]) zp = false ->
  conflict_free es = true ->
  patchable X Y es = true ->
  exists fs' es',
    update_gc_zip_annotation d X Y (mkState fs0 o) =
    (Ok tt, mkState fs' (o ++ [MsgLocated zp; MsgUpdated zp; MsgCleaned])) /\
    file_at fs' zp = Some (ZipData es') /\
    lookup fs' (d ++ ["temp_unzip"]) = None /\
    (forall q, q <> zp -> is_prefix (d ++ ["temp_unzip"]) q = false ->
               file_at fs' q = file_at fs0 q) /\
    (forall rel c', In (rel, c') es' <->
                    exists c, zip_read es rel = Ok c /\
                              patched_entry X Y rel c = Ok c') /\
    first_with_suffix "-GC.zip" (os_walk fs' d) = Some zp.
Proof.
  intros Hloc Hzip Htemp Hzt Hcf Hpa.
  set (temp := d ++ ["temp_unzip"]) in *.
  set (o1 := o ++ [MsgLocated zp]).
  (* step 2 *)
  destruct (fresh_scratch_ok d "temp_unzip" fs0 o1
              (first_with_suffix_is_dir _ _ _ _ Hloc) Htemp)
    as [fs1 [fsa [HA [L1 [F1 [R1 [Fa Hloca]]]]]]].
  fold temp in HA, L1, F1, R1, Fa, Hloca.
  assert (Htne : temp <> []) by (unfold temp; now destruct d).
  (* step 3 *)
  assert (Hopen : zip_open_r zp fs1 = Ok es).
  { unfold zip_open_r.
    rewrite (read_file_file_at fs1 zp (ZipData es)); [reflexivity|].
    now rewrite F1. }
  destruct (extract_loop temp o1 es [] fs1) as [fs2 [HB [D2 [F2 Fr2]]]].
  - exact Hcf.
  - exists []. now split.
  - intros rel. rewrite (file_at_app _ _ rel _ L1). apply file_at_empty_dir.
  - intros rel. unfold is_dir. rewrite lookup_app, L1.
    destruct rel; [now left | discriminate].
  - simpl app in F2.
    (* step 4 *)
    destruct (patch_tree_ok X Y temp o1 fs2 D2) as [fs3 [HC [F3 [Fr3 D3]]]].
    { intros rel c Hc. rewrite F2 in Hc.
      destruct (zip_read es rel) as [c0|e] eqn:Er; [|discriminate].
      injection Hc as ->. eapply patchable_read; eauto. }
    (* step 5 *)
    destruct (repack_ok temp o1 zp (ZipData es) fs3 D3) as
        [fs4 [fs5 [es' [W4 [W5 [HD [Z5 [E5 [Fr5 D5]]]]]]]]].
    { now rewrite Fr3, Fr2, F1. }
    { exact Hzt. }
    (* step 6 *)
    destruct (drop_scratch_ok temp (o1 ++ [MsgUpdated zp]) fs5)
      as [fs6 [HE [R6 [L6 Fr6]]]].
    { exact Htne. }
    { exact D5. }
    exists fs6, es'. split; [|split; [|split; [|split; [|split]]]].
    + unfold update_gc_zip_annotation, locate_gc_zip.
      rewrite bind_ask. cbn [fs]. rewrite Hloc, bind_print.
      cbn [fs out]. fold o1. fold temp.
      assert (Hbody : patch_archive zp temp X Y (mkState fs0 o1) =
                      (Ok tt, mkState fs5 (o1 ++ [MsgUpdated zp]))).
      { unfold patch_archive, bind. rewrite HA.
        unfold try_ask. cbn [fs]. rewrite Hopen, HB, HC, HD.
        reflexivity. }
      unfold try_finally, try_except. rewrite Hbody, HE.
      unfold o1. now rewrite <- !app_assoc.
    + rewrite Fr6 by exact Hzt. exact Z5.
    + exact L6.
    + intros q Hq Hqt.
      now rewrite Fr6, Fr5, Fr3, Fr2, F1.
    + intros rel c'. rewrite E5, F3, F2. unfold opatched_entry.
      destruct (zip_read es rel) as [c|e]; split.
      * destruct (patched_entry X Y rel c) as [c1|e] eqn:Ep;
          [|discriminate].
        intros [= <-]. now exists c.
      * intros [c1 [[= <-] ->]]. reflexivity.
      * discriminate.
      * intros [c1 [H _]]. discriminate.
    + (* the second walk finds the same archive *)
      assert (R3 : shutil_rmtree temp fs3 = Ok fsa).
      { rewrite (patch_tree_rmtree X Y temp o1 fs2 fs3 Htne D2 HC).
        rewrite (extract_all_rmtree temp o1 es fs1 fs2 Htne); [exact R1| |].
        - now exists [].
        - exact HB. }
      destruct (rmtree_write_commute zp temp _ fs3 fs4 fsa W4 R3 Hzt)
        as [m4 [R4 M4]].
      destruct (rmtree_write_commute zp temp _ fs4 fs5 m4 W5 R4 Hzt)
        as [m5 [R5 M5]].
      assert (m5 = fs6) by congruence. subst m5.
      assert (Za : file_at fsa zp = Some (ZipData es))
        by (now rewrite Fa).
      pose proof (proj1 (write_file_spec _ _ _ _ M4)) as Z4.
      unfold os_walk.
      rewrite (write_file_os_walk zp _ _ m4 fs6 d d Z4 M5).
      rewrite (write_file_os_walk zp _ _ fsa m4 d d Za M4).
      exact (Hloca _ _ Hloc Hzt).
Qed.

(* ================================================================== *)
(** ** The Patcher: the fields it sets *)






(* ================================================================== *)
(** ** The Patcher: a second run *)



(* ================================================================== *)
(** ** Invariants of computations *)

Section Preserves.

Variable I : state -> Prop.

Lemma preserves_ret {A} (a : A) : preserves I (ret a).
Proof. intros s r s' [= _ <-]. auto. Qed.

Lemma preserves_raise {A} (e : exn) : preserves I (@raise A e).
Proof. intros s r s' [= _ <-]. auto. Qed.

Lemma preserves_lift {A} (x : result A) : preserves I (lift x).
Proof. intros s r s' [= _ <-]. auto. Qed.

Lemma preserves_ask {A} (q : node -> A) : preserves I (ask q).
Proof. intros s r s' [= _ <-]. auto. Qed.

Lemma preserves_try_ask {A} (q : node -> result A) :
  preserves I (try_ask q).
Proof. intros s r s' [= _ <-]. auto. Qed.

Lemma preserves_bind {A B} (m : M A) (k : A -> M B) :
  preserves I m -> (forall a, preserves I (k a)) -> preserves I (bind m k).
Proof.
  intros Hm Hk s r s'. unfold bind.
  destruct (m s) as [[a|e] s1] eqn:E.
  - intros H Hs. exact (Hk a s1 r s' H (Hm s _ s1 E Hs)).
  - intros [= _ <-] Hs. exact (Hm s _ s1 E Hs).
Qed.

(** The value of a query is the query of the current file system. *)
Lemma preserves_bind_ask {A B} (q : node -> A) (k : A -> M B) :
  (forall n, preserves I (k (q n))) -> preserves I (bind (ask q) k).
Proof. intros Hk s r s'. rewrite bind_ask. apply Hk. Qed.

Lemma preserves_when (b : bool) (m : M unit) :
  preserves I m -> preserves I (when b m).
Proof. destruct b; [auto | intros _; apply preserves_ret]. Qed.

Lemma preserves_for_each {A} (xs : list A) (body : A -> M unit) :
  (forall x, In x xs -> preserves I (body x)) ->
  preserves I (for_each xs body).
Proof.
  induction xs as [|x xs IH]; intros H; simpl; [apply preserves_ret|].
  apply preserves_bind; [apply H; now left|].
  intros _. apply IH. intros y Hy. apply H. now right.
Qed.

Lemma preserves_fold_m {A B} (body : A -> B -> M B) (xs : list A) :
  (forall x b, preserves I (body x b)) ->
  forall b, preserves I (fold_m body xs b).
Proof.
  intros H. induction xs as [|x xs IH]; intros b; simpl;
    [apply preserves_ret|].
  apply preserves_bind; [apply H | intros b'; apply IH].
Qed.

Lemma preserves_try_except {A} (body : M A) (handler : exn -> M A) :
  preserves I body -> (forall e, preserves I (handler e)) ->
  preserves I (try_except body handler).
Proof.
  intros Hb Hh s r s'. unfold try_except.
  destruct (body s) as [[a|e] s1] eqn:E.
  - intros [= _ <-] Hs. exact (Hb s _ s1 E Hs).
  - intros H Hs. exact (Hh e s1 r s' H (Hb s _ s1 E Hs)).
Qed.

Lemma preserves_try_finally {A} (body : M A) (final : M unit) :
  preserves I body -> preserves I final ->
  preserves I (try_finally body final).
Proof.
  intros Hb Hf s r s'. unfold try_finally.
  destruct (body s) as [rb s1] eqn:E.
  destruct (final s1) as [[[]|e] s2] eqn:E2; intros [= _ <-] Hs;
    exact (Hf s1 _ s2 E2 (Hb s _ s1 E Hs)).
Qed.

End Preserves.

(** Properties of the file system alone. *)
Lemma preserves_print (J : node -> Prop) (m : msg) :
  preserves (fun s => J (fs s)) (print m).
Proof. intros s r s' [= _ <-]. auto. Qed.

Lemma preserves_modify (J : node -> Prop) (u : node -> result node) :
  (forall n n', u n = Ok n' -> J n -> J n') ->
  preserves (fun s => J (fs s)) (modify u).
Proof.
  intros H s r s'. unfold modify.
  destruct (u (fs s)) as [n'|e] eqn:E; intros [= _ <-]; [|auto].
  simpl. now apply (H (fs s)).
Qed.


(* ================================================================== *)
(** ** The Patcher on every run *)

Lemma bind_run {A B} (m : M A) (k : A -> M B) s :
  bind m k s = match m s with
               | (Ok a, s') => k a s'
               | (Raise e, s') => (Raise e, s')
               end.
Proof. reflexivity. Qed.



(** [shutil.rmtree] refuses a regular file and leaves it. *)
Lemma shutil_rmtree_file p : forall n,
  is_file n p = true -> shutil_rmtree p n = Raise NotADirectoryError.
Proof.
  unfold is_file. induction p as [|x p IH]; intros n H.
  - simpl in H. destruct n; [reflexivity | discriminate].
  - destruct n as [c|kids]; [reflexivity|]. simpl in H |- *.
    destruct (assoc x kids) as [child|]; [|discriminate].
    destruct p as [|y p].
    + simpl in H. destruct child; [reflexivity | discriminate].
    + now rewrite (IH child H).
Qed.

Section PatcherInvariant.

Variable J : node -> Prop.
Variables zp temp : path.
Variables X Y : string.

Hypothesis J_extract : forall rel c n n',
  extract_member (temp ++ rel) c n = Ok n' -> J n -> J n'.
Hypothesis J_write : forall p c n n',
  is_prefix temp p = true -> write_file p c n = Ok n' -> J n -> J n'.
Hypothesis J_archive : forall c n n',
  write_file zp c n = Ok n' -> J n -> J n'.

Lemma patch_file_preserves p :
  is_prefix temp p = true ->
  preserves (fun s => J (fs s)) (patch_file p X Y).
Proof.
  intros Hp. unfold patch_file.
  apply preserves_bind; [apply preserves_try_ask|]. intros c.
  apply preserves_bind; [apply preserves_lift|]. intros d1.
  apply preserves_bind; [apply preserves_lift|]. intros d2.
  apply preserves_bind; [apply preserves_lift|]. intros d3.
  apply preserves_modify. intros n n'. now apply J_write.
Qed.

Lemma patch_tree_preserves :
  preserves (fun s => J (fs s)) (patch_tree temp X Y).
Proof.
  unfold patch_tree. apply preserves_bind_ask. intros n.
  apply preserves_for_each. intros [[root dirs] files] Hin.
  apply preserves_for_each. intros file _. apply preserves_when.
  apply patch_file_preserves.
  unfold os_walk in Hin. destruct (lookup n temp); [|destruct Hin].
  apply walk_roots in Hin. apply is_prefix_spec in Hin as [r ->].
  rewrite <- app_assoc. apply is_prefix_app.
Qed.

Lemma zip_extractall_preserves es :
  preserves (fun s => J (fs s)) (zip_extractall es temp).
Proof.
  unfold zip_extractall. apply preserves_for_each. intros e _.
  apply preserves_modify. intros n n'. apply J_extract.
Qed.

Lemma with_zip_w_preserves items :
  preserves (fun s => J (fs s)) (with_zip_w zp items).
Proof.
  unfold with_zip_w.
  apply preserves_bind; [apply preserves_modify; intros n n'; apply J_archive|].
  intros _. apply preserves_bind; [apply preserves_ask|]. intros r.
  apply preserves_bind; [apply preserves_modify; intros n n'; apply J_archive|].
  intros _. destruct (snd r); [apply preserves_raise | apply preserves_ret].
Qed.

(** Steps 3 to 5. *)
Lemma patch_steps_preserve :
  preserves (fun s => J (fs s))
    (es <- try_ask (zip_open_r zp) ;;
     zip_extractall es temp ;;;
     patch_tree temp X Y ;;;
     with_zip_w zp (repack_items temp) ;;;
     print (MsgUpdated zp)).
Proof.
  apply preserves_bind; [apply preserves_try_ask|]. intros es.
  apply preserves_bind; [apply zip_extractall_preserves|]. intros _.
  apply preserves_bind; [apply patch_tree_preserves|]. intros _.
  apply preserves_bind; [apply with_zip_w_preserves|]. intros _.
  apply preserves_print.
Qed.

Hypothesis J_rmtree : forall n n',
  shutil_rmtree temp n = Ok n' -> J n -> J n'.
Hypothesis J_makedirs : forall n n',
  os_makedirs temp false n = Ok n' -> J n -> J n'.

Lemma fresh_scratch_preserves :
  preserves (fun s => J (fs s)) (fresh_scratch temp).
Proof.
  unfold fresh_scratch.
  apply preserves_bind; [apply preserves_ask|]. intros stale.
  apply preserves_bind;
    [apply preserves_when, preserves_modify, J_rmtree|].
  intros _. apply preserves_modify, J_makedirs.
Qed.

Lemma drop_scratch_preserves :
  preserves (fun s => J (fs s)) (drop_scratch temp).
Proof.
  unfold drop_scratch.
  apply preserves_bind; [apply preserves_ask|]. intros stale.
  apply preserves_bind;
    [apply preserves_when, preserves_modify, J_rmtree|].
  intros _. apply preserves_print.
Qed.

Lemma patch_archive_preserves :
  preserves (fun s => J (fs s)) (patch_archive zp temp X Y).
Proof.
  unfold patch_archive.
  apply preserves_bind; [apply fresh_scratch_preserves|]. intros _.
  apply patch_steps_preserve.
Qed.

(** Everything that follows the search of step 1. *)
Lemma patch_located_preserves :
  preserves (fun s => J (fs s))
    (try_finally
       (try_except (patch_archive zp temp X Y)
                   (fun e => print (MsgError e)))
       (drop_scratch temp)).
Proof.
  apply preserves_try_finally; [|apply drop_scratch_preserves].
  apply preserves_try_except; [apply patch_archive_preserves|].
  intros e. apply preserves_print.
Qed.

End PatcherInvariant.

(** X1. Whatever happens during a run of the Patcher, also when it
    fails half-way, a file that is neither the located archive nor
    below the scratch directory [temp_unzip] has the content it had
    before, and a path that held no file holds none. *)
Theorem patcher_frame d X Y s q :
  first_with_suffix "-GC.zip" (os_walk (fs s) d) <> Some q ->
  is_prefix (d ++ ["temp_unzip"]) q = false ->
  file_at (fs (snd (update_gc_zip_annotation d X Y s))) q = file_at (fs s) q.
Proof.
  intros Hz Hq. unfold update_gc_zip_annotation, locate_gc_zip.
  rewrite bind_ask.
  destruct (first_with_suffix "-GC.zip" (os_walk (fs s) d)) as [zp|] eqn:L;
    [|reflexivity].
  rewrite bind_print.
  set (s0 := mkState (fs s) (out s ++ [MsgLocated zp])).
  set (m := try_finally _ _).
  destruct (m s0) as [r s'] eqn:E. subst m. simpl.
  change (fs s) with (fs s0).
  refine (patch_located_preserves
            (fun n => file_at n q = file_at (fs s0) q) zp
            (d ++ ["temp_unzip"]) X Y _ _ _ _ _ s0 r s' E eq_refl).
  - intros rel c n n' H <-.
    apply (extract_member_spec _ _ _ _ H).
    intros ->. now rewrite is_prefix_app in Hq.
  - intros p c n n' Hp H <-.
    apply (write_file_spec _ _ _ _ H). intros ->. congruence.
  - intros c n n' H <-.
    apply (write_file_spec _ _ _ _ H). congruence.
  - intros n n' H <-. exact (shutil_rmtree_frame _ _ _ H q Hq).
  - intros n n' H <-. exact (os_makedirs_frame _ _ _ _ H q).
Qed.

Lemma patcher_frame_witness :
  file_at (fs (snd (update_gc_zip_annotation ["data"] "X" "Y"
                      (mkState fs_lab []))))
          ["data"; "notes.txt"] =
  file_at (fs (mkState fs_lab [])) ["data"; "notes.txt"].
Proof.
  apply patcher_frame; [vm_compute; discriminate | reflexivity].
Defined.








(** The run when a regular file has the name of the scratch
    directory. *)
Lemma scratch_file_run d X Y s zp :
  first_with_suffix "-GC.zip" (os_walk (fs s) d) = Some zp ->
  is_file (fs s) (d ++ ["temp_unzip"]) = true ->
  update_gc_zip_annotation d X Y s =
  (Raise NotADirectoryError,
   mkState (fs s)
           (out s ++ [MsgLocated zp; MsgError NotADirectoryError])).
Proof.
  intros L Hf. unfold update_gc_zip_annotation, locate_gc_zip.
  rewrite bind_ask, L, bind_print.
  set (temp := d ++ ["temp_unzip"]) in *.
  assert (Hx : os_path_exists (fs s) temp = true).
  { unfold os_path_exists, is_file in *.
    destruct (lookup (fs s) temp); [reflexivity | discriminate]. }
  assert (E : forall o,
             patch_archive zp temp X Y (mkState (fs s) o) =
             (Raise NotADirectoryError, mkState (fs s) o)).
  { intros o. unfold patch_archive, fresh_scratch. rewrite !bind_run.
    unfold ask, when, modify. cbn [fs]. rewrite Hx. rewrite bind_run.
    cbn [fs]. now rewrite (shutil_rmtree_file _ _ Hf). }
  unfold try_finally, try_except. rewrite E.
  unfold print at 1. cbn [fs out].
  unfold drop_scratch. rewrite bind_ask. cbn [fs]. rewrite Hx.
  unfold when, modify. rewrite bind_run. cbn [fs].
  rewrite (shutil_rmtree_file _ _ Hf).
  now rewrite <- app_assoc.
Qed.

(** X3. When an archive is located and a regular file has the name of
    the scratch directory, the Patcher prints the error of step 2 and
    then raises [NotADirectoryError] from its [finally] block; the file
    system is left as it was and the final message is not printed. *)
Theorem patcher_raises_on_scratch_file d X Y s zp :
  first_with_suffix "-GC.zip" (os_walk (fs s) d) = Some zp ->
  is_file (fs s) (d ++ ["temp_unzip"]) = true ->
  update_gc_zip_annotation d X Y s =
  (Raise NotADirectoryError,
   mkState (fs s)
           (out s ++ [MsgLocated zp; MsgError NotADirectoryError])).
Proof. exact (scratch_file_run d X Y s zp). Qed.

Lemma patcher_raises_on_scratch_file_witness :
  update_gc_zip_annotation ["data"] "X" "Y" (mkState fs_scratch_file []) =
  (Raise NotADirectoryError,
   mkState (fs (mkState fs_scratch_file []))
           (out (mkState fs_scratch_file []) ++
            [MsgLocated ["data"; "run-GC.zip"];
             MsgError NotADirectoryError])).
Proof.
  apply patcher_raises_on_scratch_file; reflexivity.
Defined.

(* ================================================================== *)
(** ** The Patcher on an archive it cannot patch *)

Section Unpatchable.

Variables X Y : string.




End Unpatchable.




(* ================================================================== *)
(** ** The Patcher: what it leaves alone *)

Lemma dict_set_keys_absent k v d :
  dict_mem k d = false -> map fst (dict_set k v d) = map fst d ++ [k].
Proof.
  unfold dict_mem. induction d as [|[k' v'] d IH]; intros H; [reflexivity|].
  simpl in H |- *. destruct (String.eqb k k'); [discriminate|].
  simpl. now rewrite IH.
Qed.

(** [set_nested] on an object. *)
Lemma set_nested_obj outer inner v fields :
  set_nested outer inner v (JObj fields) =
  Ok (JObj match dict_get outer fields with
           | Some (JObj a) =>
               dict_set outer (JObj (dict_set inner (JStr v) a)) fields
           | _ => fields
           end).
Proof.
  unfold set_nested, py_contains, py_getitem, dict_mem. simpl.
  destruct (dict_get outer fields) as [[]|]; reflexivity.
Qed.

(** An object without the two nested objects is written back as the
    value it was. *)
Lemma patch_content_plain X Y l fields :
  has_long_int (JObj fields) = false ->
  has_object_field "annotations" (JObj fields) = false ->
  has_object_field "sequence" (JObj fields) = false ->
  patch_content X Y (JsonText l (JObj fields)) =
  Ok (JsonText Indent4 (JObj fields)).
Proof.
  unfold has_object_field, patch_content. intros Hl Ha Hs.
  cbn [json_load_text]. rewrite (json_loads_short _ Hl).
  cbn [rbind]. rewrite set_nested_obj.
  destruct (dict_get "annotations" fields) as [[]|] eqn:Ea;
    try discriminate; cbn [rbind]; rewrite set_nested_obj;
    destruct (dict_get "sequence" fields) as [[]|] eqn:Es;
    try discriminate; reflexivity.
Qed.

(** A document the Patcher can patch holds no integer of more than 4300
    digits. *)
Lemma patchable_short X Y es name l j :
  patchable X Y es = true ->
  path_endswith name ".fusion-data" = true ->
  zip_read es name = Ok (JsonText l j) ->
  has_long_int j = false.
Proof.
  intros Hpa Hn Hr.
  destruct (patchable_read X Y es name _ Hpa Hr) as [c' Hc'].
  unfold patched_entry in Hc'. rewrite Hn in Hc'.
  unfold patch_content in Hc'. cbn [json_load_text] in Hc'.
  destruct (json_loads j) as [d0|e] eqn:E; [|discriminate].
  exact (proj2 (json_loads_ok _ _ E)).
Qed.

(** X5. On a run of the Patcher that patches its archive (the located
    file, outside the scratch directory, is a ZIP file whose members are
    files with names that extraction keeps as they are and that do not
    clash; no regular file sits at the scratch path; every
    [.fusion-data] file extracted can be patched), a file member whose
    name does not end in [.fusion-data] is carried over as it was: the
    archive written has, under that name, exactly the content the
    extraction left there (that of the last member of that name). *)
Theorem patcher_keeps_other_entries d X Y s zp es :
  first_with_suffix "-GC.zip" (os_walk (fs s) d) = Some zp ->
  file_at (fs s) zp = Some (ZipData es) ->
  is_file (fs s) (d ++ ["temp_unzip"]) = false ->
  is_prefix (d ++ ["temp_unzip"]) zp = false ->
  plain_names es = true ->
  conflict_free es = true ->
  patchable X Y es = true ->
  exists fs' es',
    update_gc_zip_annotation d X Y s =
    (Ok tt, mkState fs' (out s ++ [MsgLocated zp; MsgUpdated zp;
                                   MsgCleaned])) /\
    file_at fs' zp = Some (ZipData es') /\
    forall name c,
      path_endswith name ".fusion-data" = false ->
      (In (name, c) es' <-> zip_read es name = Ok c).
Proof.
  intros Hloc Hzip Htemp Hzt _ Hcf Hpa.
  destruct (patcher_run d X Y (fs s) (out s) zp es Hloc Hzip Htemp Hzt
              Hcf Hpa) as (fs' & es' & Hrun & Hz & _ & _ & Hes & _).
  rewrite state_eta in Hrun.
  exists fs', es'. split; [exact Hrun|]. split; [exact Hz|].
  intros name c Hn. rewrite Hes. unfold patched_entry. rewrite Hn.
  split.
  - intros (c0 & Hr & [= ->]). exact Hr.
  - intros Hr. now exists c.
Qed.

Lemma patcher_keeps_other_entries_witness :
  exists fs' es',
    update_gc_zip_annotation ["data"] "X" "Y"
                             (st_with_archive archive_with_log) =
    (Ok tt, mkState fs' ([] ++ [MsgLocated ["data"; "run-GC.zip"];
                                MsgUpdated ["data"; "run-GC.zip"];
                                MsgCleaned])) /\
    file_at fs' ["data"; "run-GC.zip"] = Some (ZipData es') /\
    forall name c,
      path_endswith name ".fusion-data" = false ->
      (In (name, c) es' <-> zip_read archive_with_log name = Ok c).
Proof.
  apply (patcher_keeps_other_entries ["data"] "X" "Y"
           (st_with_archive archive_with_log) ["data"; "run-GC.zip"]
           archive_with_log); reflexivity.
Defined.

(** X6. On a run of the Patcher that patches its archive (the located
    file, outside the scratch directory, is a ZIP file whose members are
    files with names that extraction keeps as they are and that do not
    clash; no regular file sits at the scratch path; every
    [.fusion-data] file extracted can be patched), a [.fusion-data]
    member left on disk by the extraction that holds [annotations] and
    [sequence] objects is written back with one key changed in each:
    every other key of [annotations] than [name], and every other key
    of [sequence] than [location], keeps its value, and the keys keep
    their order, the set key being appended when it was missing. *)
Theorem patcher_keeps_inner_fields d X Y s zp es :
  first_with_suffix "-GC.zip" (os_walk (fs s) d) = Some zp ->
  file_at (fs s) zp = Some (ZipData es) ->
  is_file (fs s) (d ++ ["temp_unzip"]) = false ->
  is_prefix (d ++ ["temp_unzip"]) zp = false ->
  plain_names es = true ->
  conflict_free es = true ->
  patchable X Y es = true ->
  exists fs' es',
    update_gc_zip_annotation d X Y s =
    (Ok tt, mkState fs' (out s ++ [MsgLocated zp; MsgUpdated zp;
                                   MsgCleaned])) /\
    file_at fs' zp = Some (ZipData es') /\
    forall name l fields a q,
      path_endswith name ".fusion-data" = true ->
      zip_read es name = Ok (JsonText l (JObj fields)) ->
      dict_get "annotations" fields = Some (JObj a) ->
      dict_get "sequence" fields = Some (JObj q) ->
      exists fields' a' q',
        (forall c', In (name, c') es' <->
                    c' = JsonText Indent4 (JObj fields')) /\
        dict_get "annotations" fields' = Some (JObj a') /\
        dict_get "sequence" fields' = Some (JObj q') /\
        (forall k, k <> "name" -> dict_get k a' = dict_get k a) /\
        (forall k, k <> "location" -> dict_get k q' = dict_get k q) /\
        map fst a' = (if dict_mem "name" a then map fst a
                      else map fst a ++ ["name"]) /\
        map fst q' = (if dict_mem "location" q then map fst q
                      else map fst q ++ ["location"]).
Proof.
  intros Hloc Hzip Htemp Hzt _ Hcf Hpa.
  destruct (patcher_run d X Y (fs s) (out s) zp es Hloc Hzip Htemp Hzt
              Hcf Hpa) as (fs' & es' & Hrun & Hz & _ & _ & Hes & _).
  rewrite state_eta in Hrun.
  exists fs', es'. split; [exact Hrun|]. split; [exact Hz|].
  intros name l fields a q Hn Hr Ha Hq.
  pose proof (patchable_short X Y es name l _ Hpa Hn Hr) as Hl.
  destruct (patch_content_objects X Y l fields a q Hl Ha Hq)
    as (fields' & Hp & Ha' & Hq' & _ & _).
  exists fields', (dict_set "name" (JStr X) a),
         (dict_set "location" (JStr Y) q).
  split; [|split; [exact Ha'|split; [exact Hq'|split; [|split; [|split]]]]].
  - intros c'. rewrite Hes. unfold patched_entry. rewrite Hn. split.
    + intros (c0 & Hr0 & Hp0). congruence.
    + intros ->. now exists (JsonText l (JObj fields)).
  - intros k Hk. apply dict_get_set_other. congruence.
  - intros k Hk. apply dict_get_set_other. congruence.
  - destruct (dict_mem "name" a) eqn:E;
      [now apply dict_set_keys | now apply dict_set_keys_absent].
  - destruct (dict_mem "location" q) eqn:E;
      [now apply dict_set_keys | now apply dict_set_keys_absent].
Qed.

Lemma patcher_keeps_inner_fields_witness :
  exists fs' es',
    update_gc_zip_annotation ["data"] "X" "Y"
                             (st_with_archive archive_with_log) =
    (Ok tt, mkState fs' ([] ++ [MsgLocated ["data"; "run-GC.zip"];
                                MsgUpdated ["data"; "run-GC.zip"];
                                MsgCleaned])) /\
    file_at fs' ["data"; "run-GC.zip"] = Some (ZipData es') /\
    forall name l fields a q,
      path_endswith name ".fusion-data" = true ->
      zip_read archive_with_log name = Ok (JsonText l (JObj fields)) ->
      dict_get "annotations" fields = Some (JObj a) ->
      dict_get "sequence" fields = Some (JObj q) ->
      exists fields' a' q',
        (forall c', In (name, c') es' <->
                    c' = JsonText Indent4 (JObj fields')) /\
        dict_get "annotations" fields' = Some (JObj a') /\
        dict_get "sequence" fields' = Some (JObj q') /\
        (forall k, k <> "name" -> dict_get k a' = dict_get k a) /\
        (forall k, k <> "location" -> dict_get k q' = dict_get k q) /\
        map fst a' = (if dict_mem "name" a then map fst a
                      else map fst a ++ ["name"]) /\
        map fst q' = (if dict_mem "location" q then map fst q
                      else map fst q ++ ["location"]).
Proof.
  apply (patcher_keeps_inner_fields ["data"] "X" "Y"
           (st_with_archive archive_with_log) ["data"; "run-GC.zip"]
           archive_with_log); reflexivity.
Defined.

(** X7. On a run of the Patcher that patches its archive (the located
    file, outside the scratch directory, is a ZIP file whose members are
    files with names that extraction keeps as they are and that do not
    clash; no regular file sits at the scratch path; every
    [.fusion-data] file extracted can be patched), a [.fusion-data]
    member left on disk by the extraction that holds a JSON object with
    neither an [annotations] object nor a [sequence] object gets no
    field added: it is written back holding the same value, in the
    layout of [json.dump(..., indent=4)]. *)
Theorem patcher_adds_no_fields d X Y s zp es :
  first_with_suffix "-GC.zip" (os_walk (fs s) d) = Some zp ->
  file_at (fs s) zp = Some (ZipData es) ->
  is_file (fs s) (d ++ ["temp_unzip"]) = false ->
  is_prefix (d ++ ["temp_unzip"]) zp = false ->
  plain_names es = true ->
  conflict_free es = true ->
  patchable X Y es = true ->
  exists fs' es',
    update_gc_zip_annotation d X Y s =
    (Ok tt, mkState fs' (out s ++ [MsgLocated zp; MsgUpdated zp;
                                   MsgCleaned])) /\
    file_at fs' zp = Some (ZipData es') /\
    forall name l fields,
      path_endswith name ".fusion-data" = true ->
      zip_read es name = Ok (JsonText l (JObj fields)) ->
      has_object_field "annotations" (JObj fields) = false ->
      has_object_field "sequence" (JObj fields) = false ->
      forall c', In (name, c') es' <-> c' = JsonText Indent4 (JObj fields).
Proof.
  intros Hloc Hzip Htemp Hzt _ Hcf Hpa.
  destruct (patcher_run d X Y (fs s) (out s) zp es Hloc Hzip Htemp Hzt
              Hcf Hpa) as (fs' & es' & Hrun & Hz & _ & _ & Hes & _).
  rewrite state_eta in Hrun.
  exists fs', es'. split; [exact Hrun|]. split; [exact Hz|].
  intros name l fields Hn Hr Ha Hq c'.
  pose proof (patchable_short X Y es name l _ Hpa Hn Hr) as Hl.
  pose proof (patch_content_plain X Y l fields Hl Ha Hq) as Hp.
  rewrite Hes. unfold patched_entry. rewrite Hn. split.
  - intros (c0 & Hr0 & Hp0). congruence.
  - intros ->. now exists (JsonText l (JObj fields)).
Qed.

Lemma patcher_adds_no_fields_witness :
  exists fs' es',
    update_gc_zip_annotation ["data"] "X" "Y"
                             (st_with_archive archive_with_log) =
    (Ok tt, mkState fs' ([] ++ [MsgLocated ["data"; "run-GC.zip"];
                                MsgUpdated ["data"; "run-GC.zip"];
                                MsgCleaned])) /\
    file_at fs' ["data"; "run-GC.zip"] = Some (ZipData es') /\
    forall name l fields,
      path_endswith name ".fusion-data" = true ->
      zip_read archive_with_log name = Ok (JsonText l (JObj fields)) ->
      has_object_field "annotations" (JObj fields) = false ->
      has_object_field "sequence" (JObj fields) = false ->
      forall c', In (name, c') es' <-> c' = JsonText Indent4 (JObj fields).
Proof.
  apply (patcher_adds_no_fields ["data"] "X" "Y"
           (st_with_archive archive_with_log) ["data"; "run-GC.zip"]
           archive_with_log); reflexivity.
Defined.

(* ================================================================== *)
(** ** The Patcher: the archive is rewritten completely or not at all *)

Lemma distinct_filter (f : string * node -> bool) kids :
  distinct (map fst kids) = true ->
  distinct (map fst (filter f kids)) = true.
Proof.
  induction kids as [|[x n] kids IH]; simpl; [reflexivity|].
  intros H. apply andb_true_iff in H as [H1 H2].
  destruct (f (x, n)); simpl; [|now apply IH].
  rewrite (IH H2), andb_true_r.
  apply negb_true_iff in H1. apply negb_true_iff.
  destruct (existsb (String.eqb x) (map fst (filter f kids))) eqn:E;
    [|reflexivity].
  apply existsb_exists in E as (y & Hy & Exy).
  apply in_map_iff in Hy as ((y', m) & <- & Hin).
  apply filter_In in Hin as [Hin _].
  assert (existsb (String.eqb x) (map fst kids) = true); [|congruence].
  apply existsb_exists. exists y'. split; [|exact Exy].
  apply in_map_iff. now exists (y', m).
Qed.













(* ================================================================== *)
(** ** The Patcher: a second run, on every archive *)




Section SecondRun.

Variables (d : path) (X Y : string) (zp : path).

Let temp := d ++ ["temp_unzip"].






End SecondRun.




(* ================================================================== *)
(** ** The Analyzer on every input *)

(** In the embedding the Analyzer ends normally, having only
    printed. *)
Lemma analyze_annotations_run d s :
  exists o, analyze_annotations d s = (Ok tt, mkState (fs s) (out s ++ o)).
Proof.
  destruct (first_with_suffix "-GC.zip" (os_walk (fs s) d)) as [zp|] eqn:L.
  - destruct (zip_open_r zp (fs s)) as [es|e] eqn:Hopen.
    + rewrite (analyze_located d s zp es L Hopen). cbv zeta.
      rewrite scan_from. cbn [fst snd fs out].
      eexists. rewrite <- !app_assoc. reflexivity.
    + exists [MsgLocated zp; MsgError e].
      unfold analyze_annotations, locate_gc_zip.
      rewrite bind_ask, L, bind_print, bind_run.
      unfold attempt. rewrite bind_run. unfold try_ask. cbn [fs].
      rewrite Hopen. unfold print. cbn [fs out].
      now rewrite <- app_assoc.
  - exists [MsgNoZip]. unfold analyze_annotations, locate_gc_zip.
    now rewrite bind_ask, L.
Qed.

(** X8. The Analyzer never changes the file system: whatever the data
    folder holds and whatever the scan meets, every file and directory
    is, when the Analyzer ends, as it was. *)
Theorem analyzer_read_only d s :
  fs (snd (analyze_annotations d s)) = fs s.
Proof.
  destruct (analyze_annotations_run d s) as [o ->]. reflexivity.
Qed.

Lemma analyzer_read_only_witness :
  fs (snd (analyze_annotations ["data"] (mkState fs_lab []))) = fs_lab.
Proof. exact (analyzer_read_only ["data"] (mkState fs_lab [])). Defined.

(** X9. When the located file cannot be opened as an archive, the
    Analyzer prints where it is and the error, and nothing else. *)
Theorem analyzer_unreadable_archive d s zp e :
  first_with_suffix "-GC.zip" (os_walk (fs s) d) = Some zp ->
  zip_open_r zp (fs s) = Raise e ->
  analyze_annotations d s =
  (Ok tt, mkState (fs s) (out s ++ [MsgLocated zp; MsgError e])).
Proof.
  intros L Hopen. unfold analyze_annotations, locate_gc_zip.
  rewrite bind_ask, L, bind_print, bind_run.
  unfold attempt. rewrite bind_run. unfold try_ask. cbn [fs].
  rewrite Hopen. unfold print. cbn [fs out].
  now rewrite <- app_assoc.
Qed.

Lemma analyzer_unreadable_archive_witness :
  analyze_annotations ["data"] (mkState fs_not_an_archive []) =
  (Ok tt, mkState (fs (mkState fs_not_an_archive []))
                  (out (mkState fs_not_an_archive []) ++
                   [MsgLocated ["data"; "run-GC.zip"];
                    MsgError BadZipFile])).
Proof.
  apply analyzer_unreadable_archive; reflexivity.
Defined.

(* ================================================================== *)
(** ** The Analyzer: the count of each value *)

Lemma number_eqb_eq x y : number_eqb x y = true <-> x = y.
Proof.
  destruct x as [m e|u], y as [m' e'|t]; simpl.
  - rewrite andb_true_iff, !Z.eqb_eq. split; [intros [-> ->]|intros [= -> ->]];
      auto.
  - split; discriminate.
  - split; discriminate.
  - rewrite Bool.eqb_true_iff. split; [intros ->|intros [= ->]]; auto.
Qed.

(** Two keys are equal when both are [None], both the same string, or
    both numbers of the same value. *)
Lemma key_eqb_true a b :
  key_eqb a b = true <->
  (a = JNull /\ b = JNull) \/
  (exists s, a = JStr s /\ b = JStr s) \/
  (exists x, key_num a = Some x /\ key_num b = Some x).
Proof.
  split.
  - destruct a as [| ba | na | fa | sa | ia | da];
      destruct b as [| bb | nb | fb | sb | ib | db];
      unfold key_eqb;
      first [ intros _; left; split; reflexivity
            | rewrite String.eqb_eq; intros ->; right; left; eexists;
              split; reflexivity
            | idtac ].
    all: match goal with
         | |- match ?u with _ => _ end = true -> _ =>
             destruct u as [x|] eqn:Ex; [|discriminate]
         end.
    all: match goal with
         | |- match ?v with _ => _ end = true -> _ =>
             destruct v as [y|] eqn:Ey; [|discriminate]
         end.
    all: intros H; apply number_eqb_eq in H; subst y; right; right;
      exists x; split; first [reflexivity | assumption].
  - intros [[-> ->]|[[s [-> ->]]|[x [Ha Hb]]]].
    + reflexivity.
    + apply String.eqb_refl.
    + destruct a as [| ba | na | fa | sa | ia | da]; try discriminate;
        destruct b as [| bb | nb | fb | sb | ib | db]; try discriminate;
        unfold key_eqb; rewrite Ha, Hb; now apply number_eqb_eq.
Qed.

Lemma key_eqb_sym a b : key_eqb a b = key_eqb b a.
Proof.
  assert (H : forall u v, key_eqb u v = true -> key_eqb v u = true).
  { intros u v Huv. apply key_eqb_true. apply key_eqb_true in Huv.
    destruct Huv as [[-> ->]|[[s [-> ->]]|[x [Hu Hv]]]].
    - left; now split.
    - right; left; now exists s.
    - right; right; now exists x. }
  destruct (key_eqb a b) eqn:E1, (key_eqb b a) eqn:E2; try reflexivity.
  - now rewrite (H a b E1) in E2.
  - now rewrite (H b a E2) in E1.
Qed.

Lemma key_eqb_trans a b c :
  key_eqb a b = true -> key_eqb b c = true -> key_eqb a c = true.
Proof.
  rewrite !key_eqb_true.
  intros [[-> ->]|[[s [-> ->]]|[x [Ha Hb]]]]
         [[H1 ->]|[[t [H1 ->]]|[y [Hb' Hc]]]];
    try discriminate; try (rewrite H1 in *; discriminate).
  - left; now split.
  - injection H1 as <-. right; left; now exists s.
  - right; right. exists x. split; [exact Ha|]. congruence.
Qed.

Lemma key_eqb_congr a b c :
  key_eqb a b = true -> key_eqb c a = key_eqb c b.
Proof.
  intros H. destruct (key_eqb c a) eqn:E1, (key_eqb c b) eqn:E2;
    try reflexivity.
  - now rewrite (key_eqb_trans c a b E1 H) in E2.
  - rewrite key_eqb_sym in H. now rewrite (key_eqb_trans c b a E2 H) in E1.
Qed.

Lemma key_eqb_hashable k : hashable k = true -> key_eqb k k = true.
Proof.
  intros H. apply key_eqb_true.
  destruct k as [| b | n | f | s | i | d]; try discriminate.
  - left; now split.
  - right; right. destruct b; eexists; split; reflexivity.
  - right; right. eexists; split; reflexivity.
  - right; right. destruct f; eexists; split; reflexivity.
  - right; left. now exists s.
Qed.

Lemma counter_get_cons k k1 n c :
  counter_get k ((k1, n) :: c) = if key_eqb k k1 then n else counter_get k c.
Proof. unfold counter_get. simpl. now destruct (key_eqb k k1). Qed.

Lemma counter_get_incr k k' c :
  counter_get k (counter_incr k' c) =
  counter_get k c + (if key_eqb k k' then 1 else 0).
Proof.
  induction c as [|[k1 n] c IH]; simpl.
  - rewrite counter_get_cons. now destruct (key_eqb k k').
  - destruct (key_eqb k' k1) eqn:E; rewrite !counter_get_cons.
    + rewrite (key_eqb_congr k' k1 k E).
      destruct (key_eqb k k1); lia.
    + rewrite IH. destruct (key_eqb k k1) eqn:E1; [|reflexivity].
      destruct (key_eqb k k') eqn:E2; [|lia].
      rewrite key_eqb_sym in E2.
      now rewrite (key_eqb_trans k' k k1 E2 E1) in E.
Qed.

Lemma counter_keys_incr a k c :
  existsb (fun kn => key_eqb a (fst kn)) (counter_incr k c) =
  existsb (fun kn => key_eqb a (fst kn)) c || key_eqb a k.
Proof.
  induction c as [|[k1 n] c IH]; simpl.
  - now rewrite orb_false_r.
  - destruct (key_eqb k k1) eqn:E; simpl.
    + rewrite (key_eqb_congr k k1 a E).
      destruct (key_eqb a k1); simpl; [reflexivity | now rewrite orb_false_r].
    + rewrite IH. now rewrite orb_assoc.
Qed.

Lemma counter_ok_incr k c :
  key_eqb k k = true -> counter_ok c = true ->
  counter_ok (counter_incr k c) = true.
Proof.
  intros Hk. induction c as [|[k1 n] c IH]; simpl; intros H.
  - now rewrite Hk.
  - apply andb_true_iff in H as [H H4]. apply andb_true_iff in H as [H H3].
    apply andb_true_iff in H as [H1 H2].
    destruct (key_eqb k k1) eqn:E; simpl.
    + now rewrite H1, H2, H4.
    + rewrite H1, H3, (IH H4), counter_keys_incr.
      rewrite (key_eqb_sym k1 k), E, orb_false_r, H2. reflexivity.
Qed.

Lemma counter_ok_in k n c :
  counter_ok c = true -> In (k, n) c -> counter_get k c = n /\ 0 < n.
Proof.
  induction c as [|[k1 n1] c IH]; simpl; intros H Hin; [destruct Hin|].
  apply andb_true_iff in H as [H H4]. apply andb_true_iff in H as [H H3].
  apply andb_true_iff in H as [H1 H2].
  rewrite counter_get_cons. destruct Hin as [[= -> ->]|Hin].
  - rewrite H1. split; [reflexivity | now apply Nat.ltb_lt].
  - destruct (key_eqb k k1) eqn:E; [|now apply IH].
    apply negb_true_iff in H2.
    assert (Hex : existsb (fun kn => key_eqb k1 (fst kn)) c = true).
    { apply existsb_exists. exists (k, n). split; [exact Hin|].
      simpl. now rewrite key_eqb_sym. }
    congruence.
Qed.

Section Counts.

Variable es : archive.

Lemma tally_get outer inner sentinel data c c' k :
  tally outer inner sentinel data c = Ok c' ->
  counter_get k c' =
  counter_get k c +
  match tally_value outer inner sentinel data with
  | Some v => if key_eqb k v then 1 else 0
  | None => 0
  end.
Proof.
  unfold tally, tally_value, counter_add.
  destruct data as [| b | n | f | s0 | items | d]; simpl; try discriminate.
  - destruct (str_contains outer s0); simpl; [discriminate|].
    intros [= <-]; lia.
  - destruct (list_mem_str outer items); simpl; [discriminate|].
    intros [= <-]; lia.
  - unfold dict_mem. destruct (dict_get outer d) as [v|]; simpl.
    + destruct v; try (intros [= <-]; lia).
      match goal with |- context [hashable ?x] => destruct (hashable x) end;
        [|discriminate].
      intros [= <-]. apply counter_get_incr.
    + intros [= <-]; lia.
Qed.

Lemma tally_ok outer inner sentinel data c c' :
  tally outer inner sentinel data c = Ok c' ->
  counter_ok c = true -> counter_ok c' = true.
Proof.
  unfold tally, counter_add.
  destruct data as [| b | n | f | s0 | items | d]; simpl; try discriminate.
  - destruct (str_contains outer s0); simpl; [discriminate|].
    now intros [= <-].
  - destruct (list_mem_str outer items); simpl; [discriminate|].
    now intros [= <-].
  - unfold dict_mem. destruct (dict_get outer d) as [v|]; simpl.
    + destruct v; try (now intros [= <-]).
      match goal with |- context [hashable ?x] =>
        destruct (hashable x) eqn:Eh end; [|discriminate].
      intros [= <-]. apply counter_ok_incr. now apply key_eqb_hashable.
    + now intros [= <-].
Qed.

(** What one entry adds to the two counters. *)
Lemma scan_entry_inv name cs cs' s s' :
  scan_entry es name cs s = (Ok cs', s') ->
  cs' = cs /\
  entry_value "annotations" "name" "No name field found" es name = None /\
  entry_value "sequence" "location" "No location field found" es name = None
  \/
  exists data,
    entry_value "annotations" "name" "No name field found" es name =
    tally_value "annotations" "name" "No name field found" data /\
    entry_value "sequence" "location" "No location field found" es name =
    tally_value "sequence" "location" "No location field found" data /\
    tally "annotations" "name" "No name field found" data (fst cs) =
    Ok (fst cs') /\
    tally "sequence" "location" "No location field found" data (snd cs) =
    Ok (snd cs').
Proof.
  unfold scan_entry, entry_value.
  destruct (path_endswith name ".fusion-data"); simpl.
  2:{ unfold ret. intros [= <- _]. now left. }
  unfold bind, lift, try_except_on, ret, print; simpl.
  destruct (zip_read es name) as [file|e]; simpl; [|discriminate].
  destruct (json_load_bytes file) as [data|e]; simpl.
  - destruct (tally _ _ _ data (fst cs)) as [nc|e] eqn:E1; simpl.
    + destruct (tally _ _ _ data (snd cs)) as [lc|e] eqn:E2; simpl.
      * intros [= <- _]. right. now exists data.
      * rewrite (tally_raise _ _ _ _ _ _ E2). discriminate.
    + rewrite (tally_raise _ _ _ _ _ _ E1). discriminate.
  - destruct (is_json_decode_error e); simpl; [|discriminate].
    intros [= <- _]. now left.
Qed.

Lemma scan_get names : forall cs cs' s s' k,
  fold_m (scan_entry es) names cs s = (Ok cs', s') ->
  counter_get k (fst cs') =
  counter_get k (fst cs) +
  List.length
    (filter (fun name =>
               match entry_value "annotations" "name" "No name field found"
                                 es name with
               | Some v => key_eqb k v
               | None => false
               end) names) /\
  counter_get k (snd cs') =
  counter_get k (snd cs) +
  List.length
    (filter (fun name =>
               match entry_value "sequence" "location"
                                 "No location field found" es name with
               | Some v => key_eqb k v
               | None => false
               end) names).
Proof.
  induction names as [|name names IH]; intros cs cs' s s' k; simpl.
  - unfold ret. intros [= <- _]. lia.
  - rewrite bind_run.
    destruct (scan_entry es name cs s) as [[cs1|e] s1] eqn:E1; [|discriminate].
    intros H. destruct (IH _ _ _ _ k H) as [H1 H2]. rewrite H1, H2.
    destruct (scan_entry_inv _ _ _ _ _ E1)
      as [(-> & -> & ->)|(data & -> & -> & T1 & T2)]; [lia|].
    rewrite (tally_get _ _ _ _ _ _ k T1), (tally_get _ _ _ _ _ _ k T2).
    destruct (tally_value "annotations" _ _ data) as [v|];
      [destruct (key_eqb k v)|];
      (destruct (tally_value "sequence" _ _ data) as [w|];
       [destruct (key_eqb k w)|]); simpl; lia.
Qed.

Lemma scan_ok names : forall cs cs' s s',
  fold_m (scan_entry es) names cs s = (Ok cs', s') ->
  counter_ok (fst cs) = true -> counter_ok (snd cs) = true ->
  counter_ok (fst cs') = true /\ counter_ok (snd cs') = true.
Proof.
  induction names as [|name names IH]; intros cs cs' s s'; simpl.
  - unfold ret. intros [= <- _]. now split.
  - rewrite bind_run.
    destruct (scan_entry es name cs s) as [[cs1|e] s1] eqn:E1; [|discriminate].
    intros H K1 K2. apply (IH _ _ _ _ H).
    + destruct (scan_entry_inv _ _ _ _ _ E1)
        as [(-> & _)|(data & _ & _ & T1 & _)]; [exact K1|].
      exact (tally_ok _ _ _ _ _ _ T1 K1).
    + destruct (scan_entry_inv _ _ _ _ _ E1)
        as [(-> & _)|(data & _ & _ & _ & T2)]; [exact K2|].
      exact (tally_ok _ _ _ _ _ _ T2 K2).
Qed.

End Counts.

(** The report of a scan that ends without an operation-level error. *)
Lemma analyze_report d s zp es cs :
  first_with_suffix "-GC.zip" (os_walk (fs s) d) = Some zp ->
  zip_open_r zp (fs s) = Ok es ->
  fst (fold_m (scan_entry es) (namelist es) ([], []) s) = Ok cs ->
  exists logs,
    analyze_annotations d s =
    (Ok tt, mkState (fs s)
                    (out s ++ MsgLocated zp :: map MsgInvalidJson logs ++
                     tally_report cs)).
Proof.
  intros Hloc Hopen Hscan.
  rewrite (analyze_located d s zp es Hloc Hopen). cbv zeta.
  rewrite scan_from.
  rewrite <- (scan_result_indep es (namelist es) ([], []) quiet s) in Hscan.
  simpl. rewrite Hscan.
  destruct (scan_logs es (namelist es) ([], [])) as [logs Hlogs].
  simpl in Hlogs. rewrite Hlogs.
  exists logs. repeat (rewrite <- app_assoc; simpl). reflexivity.
Qed.

(** X10. When the scan ends without an operation-level error, every
    line of the report is right: the count printed beside a name is the
    number of [.fusion-data] names of the archive, each taken once for
    each member that bears it, under which the Analyzer reads a record
    (the last member of that name) tallied under a value equal to it
    (the sentinel for a record whose [annotations] object has no
    [name]), and a value that no line shows has no such name; likewise
    for the locations. *)
Theorem analyzer_counts_per_value d s zp es cs :
  first_with_suffix "-GC.zip" (os_walk (fs s) d) = Some zp ->
  zip_open_r zp (fs s) = Ok es ->
  fst (fold_m (scan_entry es) (namelist es) ([], []) s) = Ok cs ->
  (exists logs,
     analyze_annotations d s =
     (Ok tt, mkState (fs s)
                     (out s ++ MsgLocated zp :: map MsgInvalidJson logs ++
                      tally_report cs))) /\
  (forall k n, In (k, n) (fst cs) ->
     0 < n /\
     n = entries_with_value "annotations" "name" "No name field found"
                            es k) /\
  (forall k n, In (k, n) (snd cs) ->
     0 < n /\
     n = entries_with_value "sequence" "location" "No location field found"
                            es k) /\
  (forall k, counter_get k (fst cs) =
             entries_with_value "annotations" "name" "No name field found"
                                es k) /\
  (forall k, counter_get k (snd cs) =
             entries_with_value "sequence" "location"
                                "No location field found" es k).
Proof.
  intros Hloc Hopen Hscan.
  split; [exact (analyze_report d s zp es cs Hloc Hopen Hscan)|].
  destruct (fold_m (scan_entry es) (namelist es) ([], []) s)
    as [r s1] eqn:E. simpl in Hscan. subst r.
  destruct (scan_ok es _ _ _ _ _ E eq_refl eq_refl) as [K1 K2].
  assert (G : forall k,
             counter_get k (fst cs) =
             entries_with_value "annotations" "name" "No name field found"
                                es k /\
             counter_get k (snd cs) =
             entries_with_value "sequence" "location"
                                "No location field found" es k).
  { intros k. destruct (scan_get es _ _ _ _ _ k E) as [H1 H2].
    unfold entries_with_value. now rewrite H1, H2. }
  split; [|split; [|split]].
  - intros k n Hin. destruct (counter_ok_in k n _ K1 Hin) as [Hg Hn].
    split; [exact Hn|]. rewrite <- Hg. apply G.
  - intros k n Hin. destruct (counter_ok_in k n _ K2 Hin) as [Hg Hn].
    split; [exact Hn|]. rewrite <- Hg. apply G.
  - intros k. apply G.
  - intros k. apply G.
Qed.

Lemma analyzer_counts_per_value_witness :
  (exists logs,
     analyze_annotations ["data"] (st_with_archive archive_mixed) =
     (Ok tt, mkState (fs (st_with_archive archive_mixed))
                     (out (st_with_archive archive_mixed) ++
                      MsgLocated ["data"; "run-GC.zip"] ::
                      map MsgInvalidJson logs ++
                      tally_report ([(JFloat (Finite 1 0), 2)], [])))) /\
  (forall k n, In (k, n) [(JFloat (Finite 1 0), 2)] ->
     0 < n /\
     n = entries_with_value "annotations" "name" "No name field found"
                            archive_mixed k) /\
  (forall k n, In (k, n) (@nil (json * nat)) ->
     0 < n /\
     n = entries_with_value "sequence" "location" "No location field found"
                            archive_mixed k) /\
  (forall k, counter_get k [(JFloat (Finite 1 0), 2)] =
             entries_with_value "annotations" "name" "No name field found"
                                archive_mixed k) /\
  (forall k, counter_get k (@nil (json * nat)) =
             entries_with_value "sequence" "location"
                                "No location field found"
                                archive_mixed k).
Proof.
  apply (analyzer_counts_per_value ["data"]
           (st_with_archive archive_mixed) ["data"; "run-GC.zip"]
           archive_mixed
           ([(JFloat (Finite 1 0), 2)], []));
    reflexivity.
Defined.

(** X11. In a report no value is shown twice: the values of the name
    lines are pairwise different as dictionary keys, and so are those of
    the location lines, and every count shown is positive. *)
Theorem analyzer_values_distinct d s zp es cs :
  first_with_suffix "-GC.zip" (os_walk (fs s) d) = Some zp ->
  zip_open_r zp (fs s) = Ok es ->
  fst (fold_m (scan_entry es) (namelist es) ([], []) s) = Ok cs ->
  (exists logs,
     analyze_annotations d s =
     (Ok tt, mkState (fs s)
                     (out s ++ MsgLocated zp :: map MsgInvalidJson logs ++
                      tally_report cs))) /\
  counter_ok (fst cs) = true /\ counter_ok (snd cs) = true.
Proof.
  intros Hloc Hopen Hscan.
  split; [exact (analyze_report d s zp es cs Hloc Hopen Hscan)|].
  destruct (fold_m (scan_entry es) (namelist es) ([], []) s)
    as [r s1] eqn:E. simpl in Hscan. subst r.
  exact (scan_ok es _ _ _ _ _ E eq_refl eq_refl).
Qed.

Lemma analyzer_values_distinct_witness :
  counter_ok [(JStr "sample A", 1); (JStr "No name field found", 1)] = true /\
  counter_ok [(JStr "rack 1", 1); (JStr "No location field found", 1)] = true.
Proof.
  apply (analyzer_values_distinct ["data"]
           (st_with_archive archive_two_records) ["data"; "run-GC.zip"]
           archive_two_records
           ([(JStr "sample A", 1); (JStr "No name field found", 1)],
            [(JStr "rack 1", 1); (JStr "No location field found", 1)]));
    reflexivity.
Defined.

(* ================================================================== *)
(** ** The Analyzer: the order of the report *)

Lemma counter_incr_keys k c :
  map fst (counter_incr k c) =
  if existsb (key_eqb k) (map fst c) then map fst c else map fst c ++ [k].
Proof.
  induction c as [|[k1 n] c IH]; simpl; [reflexivity|].
  destruct (key_eqb k k1); simpl; [reflexivity|].
  rewrite IH. now destruct (existsb (key_eqb k) (map fst c)).
Qed.

Lemma tally_keys outer inner sentinel data c c' :
  tally outer inner sentinel data c = Ok c' ->
  map fst c' =
  first_occurrences (map fst c)
    match tally_value outer inner sentinel data with
    | Some v => [v]
    | None => []
    end.
Proof.
  unfold tally, tally_value, counter_add.
  destruct data as [| b | n | f | s0 | items | d]; simpl; try discriminate.
  - destruct (str_contains outer s0); simpl; [discriminate|].
    now intros [= <-].
  - destruct (list_mem_str outer items); simpl; [discriminate|].
    now intros [= <-].
  - unfold dict_mem. destruct (dict_get outer d) as [v|]; simpl.
    + destruct v; try (now intros [= <-]).
      match goal with |- context [hashable ?x] => destruct (hashable x) end;
        [|discriminate].
      intros [= <-]. apply counter_incr_keys.
    + now intros [= <-].
Qed.

Lemma first_occurrences_app seen l1 l2 :
  first_occurrences seen (l1 ++ l2) =
  first_occurrences (first_occurrences seen l1) l2.
Proof.
  revert seen. induction l1 as [|v l1 IH]; intros seen; simpl;
    [reflexivity | apply IH].
Qed.

Lemma scan_keys es names : forall cs cs' s s',
  fold_m (scan_entry es) names cs s = (Ok cs', s') ->
  map fst (fst cs') =
  first_occurrences (map fst (fst cs))
    (flat_map (fun name =>
                 match entry_value "annotations" "name"
                                   "No name field found" es name with
                 | Some v => [v]
                 | None => []
                 end) names) /\
  map fst (snd cs') =
  first_occurrences (map fst (snd cs))
    (flat_map (fun name =>
                 match entry_value "sequence" "location"
                                   "No location field found" es name with
                 | Some v => [v]
                 | None => []
                 end) names).
Proof.
  induction names as [|name names IH]; intros cs cs' s s'; simpl.
  - unfold ret. intros [= <- _]. now split.
  - rewrite bind_run.
    destruct (scan_entry es name cs s) as [[cs1|e] s1] eqn:E1; [|discriminate].
    intros H. destruct (IH _ _ _ _ H) as [H1 H2].
    rewrite H1, H2, !first_occurrences_app.
    destruct (scan_entry_inv es _ _ _ _ _ E1)
      as [(-> & -> & ->)|(data & -> & -> & T1 & T2)]; [now split|].
    now rewrite (tally_keys _ _ _ _ _ _ T1), (tally_keys _ _ _ _ _ _ T2).
Qed.

(** X20. When the scan ends without an operation-level error, the
    report lists the values in the order in which the scan first meets
    them, each once: the scan goes through the names of the archive in
    the order of [namelist], a name once for each member that bears it,
    and reads under a name the last member of that name; a value that
    equals an earlier one as a dictionary key (as [True] equals [1]) is
    counted with it and shown as the earlier one. *)
Theorem analyzer_report_order d s zp es cs :
  first_with_suffix "-GC.zip" (os_walk (fs s) d) = Some zp ->
  zip_open_r zp (fs s) = Ok es ->
  fst (fold_m (scan_entry es) (namelist es) ([], []) s) = Ok cs ->
  (exists logs,
     analyze_annotations d s =
     (Ok tt, mkState (fs s)
                     (out s ++ MsgLocated zp :: map MsgInvalidJson logs ++
                      tally_report cs))) /\
  map fst (fst cs) =
  first_occurrences []
    (tallied_values "annotations" "name" "No name field found" es) /\
  map fst (snd cs) =
  first_occurrences []
    (tallied_values "sequence" "location" "No location field found" es).
Proof.
  intros Hloc Hopen Hscan.
  split; [exact (analyze_report d s zp es cs Hloc Hopen Hscan)|].
  destruct (fold_m (scan_entry es) (namelist es) ([], []) s)
    as [r s1] eqn:E. simpl in Hscan. subst r.
  exact (scan_keys es _ _ _ _ _ E).
Qed.

Lemma analyzer_report_order_witness :
  (exists logs,
     analyze_annotations ["data"] (st_with_archive archive_repeated_names) =
     (Ok tt, mkState (fs (st_with_archive archive_repeated_names))
                     (out (st_with_archive archive_repeated_names) ++
                      MsgLocated ["data"; "run-GC.zip"] ::
                      map MsgInvalidJson logs ++
                      tally_report ([(JStr "B", 2); (JNum 1, 2)], [])))) /\
  map fst (fst ([(JStr "B", 2); (JNum 1, 2)], @nil (json * nat))) =
  first_occurrences []
    (tallied_values "annotations" "name" "No name field found"
                    archive_repeated_names) /\
  map fst (snd ([(JStr "B", 2); (JNum 1, 2)], @nil (json * nat))) =
  first_occurrences []
    (tallied_values "sequence" "location" "No location field found"
                    archive_repeated_names).
Proof.
  apply (analyzer_report_order ["data"]
           (st_with_archive archive_repeated_names) ["data"; "run-GC.zip"]
           archive_repeated_names); reflexivity.
Defined.

(* ================================================================== *)
(** ** The Patcher on a file that is not an archive *)

Lemma zip_open_r_not_zip n zp c :
  file_at n zp = Some c -> is_zip_data c = false ->
  zip_open_r zp n = Raise BadZipFile.
Proof.
  intros Hc Hz. unfold zip_open_r. rewrite (read_file_file_at _ _ _ Hc).
  destruct c; try reflexivity. discriminate.
Qed.

(** X12. When the located [-GC.zip] file is not an archive, the Patcher
    prints [BadZipFile] and returns normally; the file is left as it
    was, like every other file outside the scratch directory, and the
    scratch directory it created is removed. *)
Theorem patcher_not_an_archive d X Y fs0 o zp c :
  first_with_suffix "-GC.zip" (os_walk fs0 d) = Some zp ->
  file_at fs0 zp = Some c ->
  is_zip_data c = false ->
  is_file fs0 (d ++ ["temp_unzip"]) = false ->
  is_prefix (d ++ ["temp_unzip"]) zp = false ->
  exists fs',
    update_gc_zip_annotation d X Y (mkState fs0 o) =
    (Ok tt, mkState fs' (o ++ [MsgLocated zp; MsgError BadZipFile;
                               MsgCleaned])) /\
    (forall q, is_prefix (d ++ ["temp_unzip"]) q = false ->
               file_at fs' q = file_at fs0 q) /\
    lookup fs' (d ++ ["temp_unzip"]) = None.
Proof.
  intros Hloc Hzip Hc Htemp Hzt.
  set (temp := d ++ ["temp_unzip"]) in *.
  set (o1 := o ++ [MsgLocated zp]).
  destruct (fresh_scratch_ok d "temp_unzip" fs0 o1
              (first_with_suffix_is_dir _ _ _ _ Hloc) Htemp)
    as [fs1 [fsa [HA [L1 [F1 _]]]]].
  fold temp in HA, L1, F1.
  assert (Htne : temp <> []) by (unfold temp; now destruct d).
  assert (Hopen : zip_open_r zp fs1 = Raise BadZipFile).
  { apply (zip_open_r_not_zip fs1 zp c); [|exact Hc]. now rewrite F1. }
  destruct (drop_scratch_ok temp (o1 ++ [MsgError BadZipFile]) fs1 Htne)
    as [fs6 [HE [_ [L6 Fr6]]]].
  { unfold is_dir. now rewrite L1. }
  exists fs6. split; [|split].
  - unfold update_gc_zip_annotation, locate_gc_zip.
    rewrite bind_ask. cbn [fs]. rewrite Hloc, bind_print.
    cbn [fs out]. fold o1. fold temp.
    assert (Hbody : patch_archive zp temp X Y (mkState fs0 o1) =
                    (Raise BadZipFile, mkState fs1 o1)).
    { unfold patch_archive, bind. rewrite HA.
      unfold try_ask. cbn [fs]. now rewrite Hopen. }
    unfold try_finally, try_except. rewrite Hbody.
    unfold print. cbn [fs out]. rewrite HE.
    unfold o1. now rewrite <- !app_assoc.
  - intros q Hq. now rewrite Fr6, F1.
  - exact L6.
Qed.

Lemma patcher_not_an_archive_witness :
  exists fs',
    update_gc_zip_annotation ["data"] "X" "Y"
                             (mkState fs_not_an_archive []) =
    (Ok tt, mkState fs' ([] ++ [MsgLocated ["data"; "run-GC.zip"];
                                MsgError BadZipFile; MsgCleaned])) /\
    (forall q, is_prefix (["data"] ++ ["temp_unzip"]) q = false ->
               file_at fs' q = file_at fs_not_an_archive q) /\
    lookup fs' (["data"] ++ ["temp_unzip"]) = None.
Proof.
  apply (patcher_not_an_archive ["data"] "X" "Y" fs_not_an_archive []
           ["data"; "run-GC.zip"] (Malformed "PK truncated")); reflexivity.
Defined.

(* ================================================================== *)
(** ** The Packager on every run *)

(** X13. Whatever the outcome, the Packager changes no file other than
    the one at [zip_name]. *)
Theorem zip_folder_frame output_folder zip_name s q :
  q <> zip_name ->
  file_at (fs (snd (zip_folder output_folder zip_name s))) q =
  file_at (fs s) q.
Proof.
  intros Hq.
  assert (P : preserves (fun s1 => file_at (fs s1) q = file_at (fs s) q)
                        (zip_folder output_folder zip_name)).
  { unfold zip_folder.
    apply preserves_bind; [apply preserves_ask|]. intros gathered.
    apply preserves_bind;
      [|intros _; apply (preserves_print
                           (fun n => file_at n q = file_at (fs s) q))].
    apply (with_zip_w_preserves
             (fun n => file_at n q = file_at (fs s) q)).
    intros c n n' Hw <-. now apply (write_file_spec _ _ _ _ Hw). }
  destruct (zip_folder output_folder zip_name s) as [r s'] eqn:E.
  exact (P s r s' E eq_refl).
Qed.

Lemma zip_folder_frame_witness :
  file_at (fs (snd (zip_folder ["Output"] ["Output"; "output.zip"]
                               (mkState fs_to_pack []))))
          ["Output"; "sub"; "b.txt"] =
  file_at (fs (mkState fs_to_pack [])) ["Output"; "sub"; "b.txt"].
Proof.
  apply zip_folder_frame. discriminate.
Defined.

Lemma write_file_dir p : forall c n,
  is_dir n p = true -> write_file p c n = Raise IsADirectoryError.
Proof.
  unfold is_dir. induction p as [|x p IH]; intros c n H.
  - simpl in H. destruct n; [discriminate | reflexivity].
  - destruct n as [c0|kids]; [discriminate|]. simpl in H |- *.
    destruct (assoc x kids) as [child|]; [|discriminate].
    now rewrite (IH c child H).
Qed.

(** X14. When a directory has the name of the archive to write, the
    Packager raises [IsADirectoryError]: nothing is written and the
    final message is not printed. *)
Theorem zip_folder_on_directory output_folder zip_name s :
  is_dir (fs s) zip_name = true ->
  zip_folder output_folder zip_name s = (Raise IsADirectoryError, s).
Proof.
  intros Hd. unfold zip_folder. rewrite bind_ask.
  unfold with_zip_w. rewrite !bind_run. unfold modify.
  now rewrite (write_file_dir _ _ _ Hd).
Qed.

Lemma zip_folder_on_directory_witness :
  zip_folder ["Output"] ["Output"; "old.zip"] (mkState fs_to_pack []) =
  (Raise IsADirectoryError, mkState fs_to_pack []).
Proof.
  apply zip_folder_on_directory. reflexivity.
Defined.

(** Writing an archive that can be opened for writing. *)
Lemma with_zip_w_opened zp items s fs1 :
  write_file zp (Malformed "") (fs s) = Ok fs1 ->
  (forall p arc, In (p, arc) (items fs1) ->
                 exists c, file_at fs1 p = Some c) ->
  exists fs2,
    with_zip_w zp items s = (Ok tt, mkState fs2 (out s)) /\
    file_at fs2 zp = Some (ZipData (read_all fs1 (items fs1))).
Proof.
  intros H1 Hread.
  destruct (write_file_spec _ _ _ _ H1) as [H1a H1b].
  destruct (write_file_ok zp (ZipData (read_all fs1 (items fs1))) _ _ H1a)
    as [fs2 H2].
  destruct (write_file_spec _ _ _ _ H2) as [H2a H2b].
  exists fs2. split; [|exact H2a].
  unfold with_zip_w, bind, modify, ask. rewrite H1. simpl.
  rewrite (zip_add_files_all _ [] _ Hread). simpl.
  rewrite H2. reflexivity.
Qed.

(** X15. In a well-formed tree, when [zip_name] is not one of the
    files gathered (it does not exist yet, lies outside
    [output_folder], or is named [holder.gitignore]) and can be opened
    for writing, the Packager succeeds and the archive holds exactly
    the regular files below [output_folder] whose name is not
    [holder.gitignore], each under its path relative to
    [output_folder] and with the content it has. *)
Theorem zip_folder_contents output_folder zip_name s fs1 :
  wf (fs s) = true ->
  existsb (fun pa => path_eqb (fst pa) zip_name)
          (files_to_zip output_folder (fs s)) = false ->
  write_file zip_name (Malformed "") (fs s) = Ok fs1 ->
  exists fs' es,
    zip_folder output_folder zip_name s =
    (Ok tt, mkState fs' (out s ++ [MsgZipComplete zip_name])) /\
    file_at fs' zip_name = Some (ZipData es) /\
    forall rel c,
      In (rel, c) es <->
      rel <> [] /\
      String.eqb (last rel "") "holder.gitignore" = false /\
      file_at (fs s) (output_folder ++ rel) = Some c.
Proof.
  intros Hwf Hng H1.
  destruct (write_file_spec _ _ _ _ H1) as [H1a H1b].
  assert (Hat : forall p arc,
             In (p, arc) (files_to_zip output_folder (fs s)) ->
             file_at fs1 p = file_at (fs s) p).
  { intros p arc Hin. apply H1b. intros ->.
    assert (E : existsb (fun pa => path_eqb (fst pa) zip_name)
                        (files_to_zip output_folder (fs s)) = true).
    { apply existsb_exists. exists (zip_name, arc).
      split; [exact Hin | apply path_eqb_refl]. }
    congruence. }
  destruct (with_zip_w_opened zip_name
              (fun _ => files_to_zip output_folder (fs s)) s fs1 H1)
    as [fs2 [Hrun Hz]].
  { intros p arc Hin. rewrite (Hat p arc Hin).
    apply files_to_zip_in in Hin
      as [root [dirs [files [f [Hin [Hf [_ [Hp _]]]]]]]].
    destruct (os_walk_sound (fs s) output_folder p Hwf) as [r [c [_ Hc]]].
    { apply walk_paths_in. now exists root, dirs, files, f. }
    now exists c. }
  exists fs2, (read_all fs1 (files_to_zip output_folder (fs s))).
  split; [|split; [exact Hz|]].
  { unfold zip_folder. rewrite bind_ask. unfold bind. rewrite Hrun.
    reflexivity. }
  intros rel c. rewrite read_all_in. split.
  - intros (p & Hin & Hc). rewrite (Hat p rel Hin) in Hc.
    apply files_to_zip_in in Hin
      as [root [dirs [files [f [Hin [Hf [Hh [Hp Harc]]]]]]]].
    destruct (os_walk_sound (fs s) output_folder p Hwf)
      as [r [c0 [Hr Hc0]]].
    { apply walk_paths_in. now exists root, dirs, files, f. }
    assert (Hrel : rel = r).
    { rewrite Harc, Hr. apply relpath_app. }
    subst r.
    assert (Hne : rel <> []).
    { intros ->. rewrite app_nil_r in Hr. rewrite Hr in Hc0.
      unfold os_walk in Hin. unfold file_at in Hc0.
      destruct (lookup (fs s) output_folder) as [[c1|k]|];
        try discriminate; simpl in Hin; destruct Hin. }
    split; [exact Hne|]. split.
    + assert (Hl : last p "" = f) by (rewrite Hp; apply last_last).
      rewrite Hr, last_app_nonempty in Hl by exact Hne. now rewrite Hl.
    + now rewrite <- Hr.
  - intros (Hne & Hh & Hc0).
    assert (Hg : In (output_folder ++ rel, rel)
                    (files_to_zip output_folder (fs s))).
    { assert (Hin : In (output_folder ++ rel)
                       (walk_paths (os_walk (fs s) output_folder))).
      { unfold file_at in Hc0. rewrite lookup_app in Hc0.
        destruct (lookup (fs s) output_folder) as [t|] eqn:El;
          [|discriminate].
        destruct t as [c1|kids].
        { destruct rel; [congruence | discriminate]. }
        unfold os_walk. rewrite El. apply walk_complete with (c := c).
        unfold file_at. destruct (lookup (Dir kids) rel) as [[c'|k]|];
          congruence. }
      apply walk_paths_in in Hin as [root [dirs [files [f [Hin [Hf Hp]]]]]].
      apply files_to_zip_in. exists root, dirs, files, f.
      repeat split; try assumption.
      + assert (Hl : last (output_folder ++ rel) "" = f)
          by (rewrite Hp; apply last_last).
        rewrite last_app_nonempty in Hl by assumption.
        now rewrite <- Hl.
      + now rewrite relpath_app. }
    exists (output_folder ++ rel). split; [exact Hg|].
    now rewrite (Hat _ _ Hg).
Qed.

Lemma zip_folder_contents_witness :
  exists fs' es,
    zip_folder ["Output"] ["Output"; "output.zip"] (mkState fs_to_pack []) =
    (Ok tt, mkState fs' ([] ++ [MsgZipComplete ["Output"; "output.zip"]])) /\
    file_at fs' ["Output"; "output.zip"] = Some (ZipData es) /\
    forall rel c,
      In (rel, c) es <->
      rel <> [] /\
      String.eqb (last rel "") "holder.gitignore" = false /\
      file_at fs_to_pack (["Output"] ++ rel) = Some c.
Proof.
  refine (zip_folder_contents ["Output"] ["Output"; "output.zip"]
            (mkState fs_to_pack []) _ eq_refl eq_refl _).
  reflexivity.
Defined.

(* ================================================================== *)
(** ** The Cleaner *)

Lemma is_dir_snoc n d x kids :
  lookup n d = Some (Dir kids) ->
  is_dir n (d ++ [x]) =
  match assoc x kids with Some (Dir _) => true | _ => false end.
Proof.
  intros H. unfold is_dir. rewrite lookup_app, H. simpl.
  destruct (assoc x kids) as [[|]|]; reflexivity.
Qed.

Lemma is_prefix_snoc_false d x q :
  is_prefix d q = false -> is_prefix (d ++ [x]) q = false.
Proof.
  intros H. destruct (is_prefix (d ++ [x]) q) eqn:E; [|reflexivity].
  rewrite (is_prefix_trans d (d ++ [x]) q (is_prefix_app d [x]) E) in H.
  discriminate.
Qed.

Section ClearDir.

Variable output_dir : path.

(** The loop of [clear_dir] over the listed names. *)
Lemma clear_loop names : forall s kids,
  lookup (fs s) output_dir = Some (Dir kids) ->
  distinct (map fst kids) = true ->
  exists fs',
    for_each names (fun item =>
      let item_path := output_dir ++ [item] in
      isdir <- ask (fun fs => is_dir fs item_path) ;;
      when (isdir && negb (String.eqb item ".gitignore"))
           (modify (shutil_rmtree item_path))) s =
    (Ok tt, mkState fs' (out s)) /\
    lookup fs' output_dir =
    Some (Dir (filter (fun xn => negb (cleared xn &&
                                       existsb (String.eqb (fst xn)) names))
                      kids)) /\
    forall q, is_prefix output_dir q = false ->
              file_at fs' q = file_at (fs s) q.
Proof.
  induction names as [|x names IH]; intros s kids Hl Hd.
  - exists (fs s). simpl. unfold ret. rewrite state_eta.
    split; [reflexivity|]. split; [|reflexivity].
    rewrite Hl. do 2 f_equal. symmetry.
    rewrite (filter_ext_in _ (fun _ => true)).
    + clear. induction kids as [|a l IHl]; simpl; congruence.
    + intros a _. now rewrite andb_false_r.
  - cbn [for_each]. rewrite bind_run, bind_ask.
    rewrite (is_dir_snoc _ _ x _ Hl).
    destruct (assoc x kids) as [child|] eqn:Ex.
    + destruct (is_file_node child) eqn:Ec.
      * (* a regular file *)
        destruct child as [c|k]; [|discriminate]. cbn [andb when ret].
        destruct (IH s kids Hl Hd) as (fs' & Hrun & Hk & Hfr).
        exists fs'. split; [exact Hrun|]. split; [|exact Hfr].
        rewrite Hk. do 2 f_equal. apply filter_ext_in.
        intros [y m] Hin. cbn [existsb fst].
        destruct (String.eqb_spec y x) as [->|Hne]; [|reflexivity].
        rewrite (distinct_assoc _ _ _ Hd Hin) in Ex. injection Ex as ->.
        unfold cleared. reflexivity.
      * destruct child as [c|k]; [discriminate|]. cbn [andb].
        destruct (String.eqb x ".gitignore") eqn:Eg; cbn [negb when ret].
        { (* the directory named [.gitignore] *)
          destruct (IH s kids Hl Hd) as (fs' & Hrun & Hk & Hfr).
          exists fs'. split; [exact Hrun|]. split; [|exact Hfr].
          rewrite Hk. do 2 f_equal. apply filter_ext_in.
          intros [y m] Hin. cbn [existsb fst].
          destruct (String.eqb_spec y x) as [->|Hne]; [|reflexivity].
          unfold cleared. cbn [fst]. rewrite Eg. cbn [negb].
          now rewrite !andb_false_r. }
        (* a directory to remove *)
        destruct (shutil_rmtree_dir_ok (output_dir ++ [x]) (fs s))
          as [n' Hr].
        { now destruct output_dir. }
        { rewrite (is_dir_snoc _ _ x _ Hl). now rewrite Ex. }
        destruct (rmtree_lookup_parent _ _ _ _ Hr) as (kids0 & Hl0 & Hl').
        rewrite Hl in Hl0. injection Hl0 as <-.
        unfold modify. rewrite Hr.
        destruct (IH (mkState n' (out s)) (del_kid x kids) Hl')
          as (fs' & Hrun & Hk & Hfr).
        { now apply distinct_filter. }
        exists fs'. split; [exact Hrun|]. split.
        { rewrite Hk. do 2 f_equal. unfold del_kid.
          clear - Ex Hd Eg.
          assert (G : forall l,
            (forall y m, In (y, m) l -> y = x -> cleared (y, m) = true) ->
            filter (fun xn => negb (cleared xn &&
                                    existsb (String.eqb (fst xn)) names))
                   (filter (fun yn => negb (String.eqb x (fst yn))) l) =
            filter (fun xn => negb (cleared xn &&
                                    existsb (String.eqb (fst xn))
                                            (x :: names))) l).
          { induction l as [|[y m] l IHl]; intros Hc; [reflexivity|].
            cbn [filter fst existsb].
            rewrite (String.eqb_sym x y).
            destruct (String.eqb_spec y x) as [->|Hne]; cbn [negb orb].
            - rewrite (Hc x m (or_introl eq_refl) eq_refl). cbn [andb negb].
              apply IHl. intros y' m' Hin. apply Hc. now right.
            - cbn [filter fst].
              destruct (negb (cleared (y, m) &&
                              existsb (String.eqb y) names));
                [f_equal|]; apply IHl; intros y' m' Hin; apply Hc;
                now right. }
          apply G. intros y m Hin ->.
          rewrite (distinct_assoc _ _ _ Hd Hin) in Ex. injection Ex as ->.
          unfold cleared. cbn [fst snd is_file_node]. now rewrite Eg. }
        { intros q Hq. rewrite (Hfr q Hq). cbn [fs].
          apply (shutil_rmtree_frame _ _ _ Hr).
          now apply is_prefix_snoc_false. }
    + (* the name is gone *)
      cbn [andb when ret].
      destruct (IH s kids Hl Hd) as (fs' & Hrun & Hk & Hfr).
      exists fs'. split; [exact Hrun|]. split; [|exact Hfr].
      rewrite Hk. do 2 f_equal. apply filter_ext_in.
      intros [y m] Hin. cbn [existsb fst].
      destruct (String.eqb_spec y x) as [->|Hne]; [|reflexivity].
      rewrite (distinct_assoc _ _ _ Hd Hin) in Ex. discriminate.
Qed.

(** Each removal is guarded by a test that makes it succeed. *)
Lemma clear_loop_returns names : forall s,
  exists fs',
    for_each names (fun item =>
      let item_path := output_dir ++ [item] in
      isdir <- ask (fun fs => is_dir fs item_path) ;;
      when (isdir && negb (String.eqb item ".gitignore"))
           (modify (shutil_rmtree item_path))) s =
    (Ok tt, mkState fs' (out s)).
Proof.
  induction names as [|x names IH]; intros s.
  - exists (fs s). simpl. unfold ret. now rewrite state_eta.
  - cbn [for_each]. rewrite bind_run, bind_ask.
    destruct (is_dir (fs s) (output_dir ++ [x])) eqn:Ed; cbn [andb].
    + destruct (String.eqb x ".gitignore"); cbn [negb when ret].
      * apply IH.
      * destruct (shutil_rmtree_dir_ok (output_dir ++ [x]) (fs s))
          as [n' Hr]; [now destruct output_dir | exact Ed |].
        unfold modify. rewrite Hr.
        destruct (IH (mkState n' (out s))) as [fs' H]. now exists fs'.
    + cbn [when ret]. apply IH.
Qed.

End ClearDir.

(** X16. In a directory that lists no name twice and holds regular
    files and directories only (no symbolic link, nothing that cannot
    be removed), the Cleaner removes exactly the sub-directories not
    named [.gitignore]: afterwards the directory lists, in the same
    order and unchanged, its regular files and the entry named
    [.gitignore]; nothing is printed, and no file outside the directory
    changes. *)
Theorem clear_dir_result output_dir s kids :
  lookup (fs s) output_dir = Some (Dir kids) ->
  distinct (map fst kids) = true ->
  exists fs',
    clear_dir output_dir s = (Ok tt, mkState fs' (out s)) /\
    lookup fs' output_dir =
    Some (Dir (filter (fun xn => negb (cleared xn)) kids)) /\
    forall q, is_prefix output_dir q = false ->
              file_at fs' q = file_at (fs s) q.
Proof.
  intros Hl Hd.
  destruct (clear_loop output_dir (map fst kids) s kids Hl Hd)
    as (fs' & Hrun & Hk & Hfr).
  exists fs'. split; [|split; [|exact Hfr]].
  - unfold clear_dir. rewrite bind_run. unfold try_ask, os_listdir.
    rewrite Hl. exact Hrun.
  - rewrite Hk. do 2 f_equal. apply filter_ext_in.
    intros [y m] Hin. cbn [fst].
    assert (E : existsb (String.eqb y) (map fst kids) = true).
    { apply existsb_exists. exists y. split; [|apply String.eqb_refl].
      apply in_map_iff. now exists (y, m). }
    now rewrite E, andb_true_r.
Qed.

Lemma clear_dir_result_witness :
  exists fs',
    clear_dir ["Output"] (mkState fs_results []) = (Ok tt, mkState fs' []) /\
    lookup fs' ["Output"] =
    Some (Dir [("holder.gitignore", File (Malformed ""));
               (".gitignore", Dir [("keep", File (Malformed "k"))])]) /\
    forall q, is_prefix ["Output"] q = false ->
              file_at fs' q = file_at fs_results q.
Proof.
  exact (clear_dir_result ["Output"] (mkState fs_results []) _
                          eq_refl eq_refl).
Defined.

(** X17. The outcome of the Cleaner on a tree of regular files and
    directories (no symbolic link, nothing that cannot be listed or
    removed): on a directory it returns normally and prints nothing,
    each removal being guarded by the test that makes it succeed; on a
    path that is a regular file it raises [NotADirectoryError], on a
    missing path [FileNotFoundError], and changes nothing. *)
Theorem clear_dir_outcome output_dir s :
  match lookup (fs s) output_dir with
  | Some (Dir _) =>
      exists fs', clear_dir output_dir s = (Ok tt, mkState fs' (out s))
  | Some (File _) =>
      clear_dir output_dir s = (Raise NotADirectoryError, s)
  | None => clear_dir output_dir s = (Raise FileNotFoundError, s)
  end.
Proof.
  unfold clear_dir. rewrite bind_run. unfold try_ask, os_listdir.
  destruct (lookup (fs s) output_dir) as [[c|kids]|]; try reflexivity.
  apply clear_loop_returns.
Qed.

Lemma clear_dir_outcome_witness :
  (exists fs',
      clear_dir ["Output"] (mkState fs_results []) =
      (Ok tt, mkState fs' [])) /\
  clear_dir ["Data"; "raw.txt"] (mkState fs_results []) =
  (Raise NotADirectoryError, mkState fs_results []) /\
  clear_dir ["Nowhere"] (mkState fs_results []) =
  (Raise FileNotFoundError, mkState fs_results []).
Proof.
  split; [|split].
  - exact (clear_dir_outcome ["Output"] (mkState fs_results [])).
  - exact (clear_dir_outcome ["Data"; "raw.txt"] (mkState fs_results [])).
  - exact (clear_dir_outcome ["Nowhere"] (mkState fs_results [])).
Defined.

(* ================================================================== *)
(** ** The loop body of the Normalizer *)

Lemma os_makedirs_exist_ok d x : forall n,
  is_dir n d = true -> is_file n (d ++ [x]) = false ->
  exists n', os_makedirs (d ++ [x]) true n = Ok n' /\
             is_dir n' (d ++ [x]) = true.
Proof.
  induction d as [|y d IH]; intros n.
  - destruct n as [c0|kids]; [discriminate|]. intros _. simpl.
    unfold is_file, is_dir. simpl.
    destruct (assoc x kids) as [[c|k]|] eqn:Ex; [discriminate| |]; intros _.
    + eexists. split; [reflexivity|]. simpl.
      now rewrite assoc_set_kid_same.
    + eexists. split; [reflexivity|]. simpl.
      now rewrite assoc_set_kid_same.
  - destruct n as [c0|kids]; [discriminate|].
    rewrite is_dir_cons. unfold is_file. simpl.
    destruct (assoc y kids) as [child|]; [|discriminate].
    intros Hd Hf. destruct (IH child Hd Hf) as (child' & -> & Hd').
    eexists. split; [reflexivity|]. rewrite is_dir_cons.
    now rewrite assoc_set_kid_same.
Qed.

Lemma unlink_lookup p : forall n n',
  unlink p n = Ok n' -> lookup n' p = None.
Proof.
  induction p as [|x p IH]; intros n n' H.
  - destruct n; discriminate.
  - destruct n as [c|kids]; [discriminate|]. simpl in H.
    destruct (assoc x kids) as [child|]; [|discriminate].
    destruct p as [|y p].
    + injection H as <-. simpl. now rewrite assoc_del_kid_same.
    + destruct (unlink (y :: p) child) as [child'|e] eqn:E; [|discriminate].
      injection H as <-. cbn [lookup]. rewrite assoc_set_kid_same.
      exact (IH _ _ E).
Qed.

Lemma os_remove_lookup p n n' :
  os_remove p n = Ok n' -> lookup n' p = None.
Proof.
  unfold os_remove. destruct (lookup n p) as [[c|k]|]; try discriminate.
  apply unlink_lookup.
Qed.

(** Removing a directory creates nothing. *)
Lemma shutil_rmtree_keeps_none p : forall n n' q,
  shutil_rmtree p n = Ok n' -> lookup n q = None -> lookup n' q = None.
Proof.
  induction p as [|x p IH]; intros n n' q H Hq.
  - destruct n; discriminate.
  - destruct n as [c|kids]; [discriminate|].
    destruct q as [|y q]; [discriminate|].
    simpl in H. destruct (assoc x kids) as [child|] eqn:Ex; [|discriminate].
    cbn [lookup] in Hq.
    destruct p as [|z p].
    + destruct child as [c|k]; [discriminate|]. injection H as <-.
      cbn [lookup].
      destruct (String.eqb_spec x y) as [->|Hne].
      * now rewrite assoc_del_kid_same.
      * now rewrite assoc_del_kid_other.
    + destruct (shutil_rmtree (z :: p) child) as [child'|e] eqn:E;
        [|discriminate].
      injection H as <-. cbn [lookup].
      destruct (String.eqb_spec x y) as [->|Hne].
      * rewrite assoc_set_kid_same. rewrite Ex in Hq.
        exact (IH _ _ _ E Hq).
      * now rewrite assoc_set_kid_other.
Qed.

(** X18. The loop body of the Normalizer (lines 252 to 292) on a file
    that is not an archive: it raises [BadZipFile] after creating the
    scratch directory [temp_extraction], which is left behind; no file
    changes, the would-be archive included. *)
Theorem organize_zip_not_an_archive d zf s c :
  is_dir (fs s) d = true ->
  is_file (fs s) (d ++ ["temp_extraction"]) = false ->
  file_at (fs s) zf = Some c ->
  is_zip_data c = false ->
  exists fs1,
    organize_zip d zf s =
    (Raise BadZipFile, mkState fs1 (out s ++ [MsgUnzipping zf])) /\
    is_dir fs1 (d ++ ["temp_extraction"]) = true /\
    forall q, file_at fs1 q = file_at (fs s) q.
Proof.
  intros Hd Hf Hc Hz.
  destruct (os_makedirs_exist_ok d "temp_extraction" (fs s) Hd Hf)
    as (fs1 & Hm & Hd1).
  pose proof (os_makedirs_frame _ _ _ _ Hm) as Hfr.
  exists fs1. split; [|split; [exact Hd1 | exact Hfr]].
  unfold organize_zip. rewrite bind_run. unfold modify at 1. rewrite Hm.
  rewrite bind_print, bind_run. unfold try_ask at 1. cbn [fs out].
  rewrite (zip_open_r_not_zip fs1 zf c); [reflexivity| |exact Hz].
  now rewrite Hfr.
Qed.

Lemma organize_zip_not_an_archive_witness :
  exists fs1,
    organize_zip ["data"] ["data"; "run-GC.zip"]
                 (mkState fs_not_an_archive []) =
    (Raise BadZipFile,
     mkState fs1 ([] ++ [MsgUnzipping ["data"; "run-GC.zip"]])) /\
    is_dir fs1 (["data"] ++ ["temp_extraction"]) = true /\
    forall q, file_at fs1 q = file_at fs_not_an_archive q.
Proof.
  apply (organize_zip_not_an_archive ["data"] ["data"; "run-GC.zip"]
           (mkState fs_not_an_archive []) (Malformed "PK truncated"));
    reflexivity.
Defined.

(** X19. Whenever the loop body of the Normalizer returns normally, the
    archive it was given is deleted and nothing is left at the place of
    the scratch directory. *)
Theorem organize_zip_ok_removes_archive d zf s :
  fst (organize_zip d zf s) = Ok tt ->
  os_path_exists (fs (snd (organize_zip d zf s))) zf = false /\
  os_path_exists (fs (snd (organize_zip d zf s)))
                 (d ++ ["temp_extraction"]) = false.
Proof.
  destruct (organize_zip d zf s) as [r s'] eqn:H. simpl. intros ->.
  unfold organize_zip in H.
  apply bind_ok_inv in H as [[] [s1 [_ H]]].
  apply bind_ok_inv in H as [[] [s2 [_ H]]].
  apply bind_ok_inv in H as [es [s3 [_ H]]].
  apply bind_ok_inv in H as [[] [s4 [_ H]]].
  apply bind_ok_inv in H as [items [s5 [_ H]]].
  apply bind_ok_inv in H as [[] [s6 [_ H]]].
  apply bind_ok_inv in H as [[] [s7 [Hrem H]]].
  apply bind_ok_inv in H as [[] [s8 [Hrm H]]].
  apply modify_ok_inv in Hrem as [Hrem _].
  apply modify_ok_inv in Hrm as [Hrm _].
  apply print_fs in H. unfold os_path_exists. rewrite H.
  rewrite (shutil_rmtree_lookup _ _ _ Hrm).
  rewrite (shutil_rmtree_keeps_none _ _ _ zf Hrm
             (os_remove_lookup _ _ _ Hrem)).
  now split.
Qed.

Lemma organize_zip_ok_removes_archive_witness :
  os_path_exists
    (fs (snd (organize_zip ["D"] ["D"; "foo.zip"] (mkState fs_foo []))))
    ["D"; "foo.zip"] = false /\
  os_path_exists
    (fs (snd (organize_zip ["D"] ["D"; "foo.zip"] (mkState fs_foo []))))
    (["D"] ++ ["temp_extraction"]) = false.
Proof.
  apply organize_zip_ok_removes_archive. reflexivity.
Defined.
